(** * s3_policy_manager: a shallow embedding and its properties

    The development follows [s3_policy_manager.py].  The script talks to
    two stores: the bucket policies kept by S3 and the local files
    (templates and backups).  Both are part of an explicit [world] that
    every operation threads through; Python exceptions and [sys.exit] are
    the two abnormal outcomes of a computation.

    Documents are the values [json.loads] produces.  A stored policy or a
    file is kept as the document its text parses to: [json.dumps] followed
    by [json.loads] gives back the same document, so equality of stored
    documents is equality modulo the serialisation.  Numbers are kept by
    their value; the non-standard literals NaN and Infinity are left out.
    Strings are sequences of bytes; the placeholder is ASCII, so that a
    replacement byte by byte is the replacement character by character.

    A request to S3 may fail: the world lists the faults to come.  The
    local file operations fail only as the files decide (a file that is
    absent, bytes that are no text, a text that is no JSON); the creation
    of the client and of the directories is taken to succeed. *)

From Stdlib Require Import QArith Ascii Sorted.
From stdpp Require Import gmap strings list fin_maps.

(** ** Documents *)

#[warnings="-register-all"] Inductive json : Type :=
| JNull
| JBool (b : bool)
| JNum (q : Q)
| JStr (s : string)
| JArr (items : list json)
| JObj (fields : list (string * json)).

(** The induction principle that goes through lists and objects. *)
Section json_induction.
Variable P : json → Prop.
Hypothesis HNull : P JNull.
Hypothesis HBool : ∀ b, P (JBool b).
Hypothesis HNum : ∀ q, P (JNum q).
Hypothesis HStr : ∀ s, P (JStr s).
Hypothesis HArr : ∀ items, Forall P items → P (JArr items).
Hypothesis HObj : ∀ fields, Forall (λ kv, P kv.2) fields → P (JObj fields).

Fixpoint json_nested_ind (j : json) : P j :=
  match j with
  | JNull => HNull
  | JBool b => HBool b
  | JNum q => HNum q
  | JStr s => HStr s
  | JArr items =>
      HArr items
        ((fix go (l : list json) : Forall P l :=
            match l with
            | [] => Forall_nil_2 P
            | x :: l' => Forall_cons_2 P x l' (json_nested_ind x) (go l')
            end) items)
  | JObj fields =>
      HObj fields
        ((fix go (l : list (string * json)) : Forall (λ kv, P kv.2) l :=
            match l with
            | [] => Forall_nil_2 _
            | kv :: l' =>
                Forall_cons_2 (λ kv, P kv.2) kv l' (json_nested_ind kv.2) (go l')
            end) fields)
  end.
End json_induction.

(** ** Python exceptions and fallible expressions *)

Inductive exn : Type :=
| ClientError (code : string)   (* botocore: e.response['Error']['Code'] *)
| ConnectionError               (* a network fault raised by the client *)
| JSONDecodeError
| FileNotFoundError
| KeyError
| IndexError
| TypeError
| AttributeError
| UnicodeDecodeError.            (* bytes that are no UTF-8 text *)

Inductive py (A : Type) : Type :=
| Val (a : A)
| Exc (e : exn).
Arguments Val {A} a.
Arguments Exc {A} e.

Definition py_bind {A B} (m : py A) (k : A → py B) : py B :=
  match m with
  | Val a => k a
  | Exc e => Exc e
  end.

Declare Scope py_scope.
Delimit Scope py_scope with py.
Notation "'let?' x ':=' m 'in' k" := (py_bind m (λ x, k))
  (at level 10, x name, m at level 100, k at level 200) : py_scope.

(** ** Python operations on documents *)

(** [d.get(k)] on the items of a dict, [None] left as [option]. *)
Fixpoint dict_lookup (k : string) (fields : list (string * json)) : option json :=
  match fields with
  | [] => None
  | (k', v) :: rest => if String.eqb k k' then Some v else dict_lookup k rest
  end.

(** [d[k] = v]: an existing key keeps its place, a new one goes last. *)
Fixpoint dict_set (k : string) (v : json) (fields : list (string * json))
  : list (string * json) :=
  match fields with
  | [] => [(k, v)]
  | (k', v') :: rest =>
      if String.eqb k k' then (k, v) :: rest else (k', v') :: dict_set k v rest
  end.

(** [bool(x)], as [if x:] takes it. *)
Definition truthy (x : json) : bool :=
  match x with
  | JNull => false
  | JBool b => b
  | JNum q => negb (Qeq_bool q 0)
  | JStr s => negb (String.eqb s "")
  | JArr items => match items with [] => false | _ => true end
  | JObj fields => match fields with [] => false | _ => true end
  end.

Definition bool_to_Q (b : bool) : Q := if b then 1%Q else 0%Q.

(** [a == b].  [bool] is a subclass of [int], so [True == 1]; dicts compare
    as mappings, whatever the order of their items. *)
Fixpoint py_eq (a b : json) {struct a} : bool :=
  match a, b with
  | JNull, JNull => true
  | JBool x, JBool y => Bool.eqb x y
  | JBool x, JNum q => Qeq_bool (bool_to_Q x) q
  | JNum q, JBool y => Qeq_bool q (bool_to_Q y)
  | JNum p, JNum q => Qeq_bool p q
  | JStr s, JStr t => String.eqb s t
  | JArr xs, JArr ys =>
      (fix all2 (xs ys : list json) : bool :=
         match xs, ys with
         | [], [] => true
         | x :: xs', y :: ys' => py_eq x y && all2 xs' ys'
         | _, _ => false
         end) xs ys
  | JObj fx, JObj fy =>
      Nat.eqb (length fx) (length fy)
      && (fix all (fx : list (string * json)) : bool :=
            match fx with
            | [] => true
            | (k, v) :: fx' =>
                match dict_lookup k fy with
                | Some v' => py_eq v v'
                | None => false
                end && all fx'
            end) fx
  | _, _ => false
  end.

(** [obj[key]] with a string key. *)
Definition subscript (obj : json) (key : string) : py json :=
  match obj with
  | JObj fields =>
      match dict_lookup key fields with
      | Some v => Val v
      | None => Exc KeyError
      end
  | _ => Exc TypeError
  end.

(** [obj[0]]. *)
Definition subscript0 (obj : json) : py json :=
  match obj with
  | JArr (x :: _) => Val x
  | JArr [] => Exc IndexError
  | JStr (String c _) => Val (JStr (String c ""))
  | JStr "" => Exc IndexError
  | JObj _ => Exc KeyError
  | _ => Exc TypeError
  end.

(** [stmt.get(key)]: only a dict has the method. *)
Definition get_method (stmt : json) (key : string) : py json :=
  match stmt with
  | JObj fields =>
      match dict_lookup key fields with
      | Some v => Val v
      | None => Val JNull
      end
  | _ => Exc AttributeError
  end.

Fixpoint chars_of (s : string) : list json :=
  match s with
  | "" => []
  | String c s' => JStr (String c "") :: chars_of s'
  end.

(** The items [for x in obj] goes through. *)
Definition py_iter (obj : json) : py (list json) :=
  match obj with
  | JArr items => Val items
  | JObj fields => Val (map (λ kv, JStr kv.1) fields)
  | JStr s => Val (chars_of s)
  | _ => Exc TypeError
  end.

(** [len(obj)]. *)
Definition py_len (obj : json) : py nat :=
  match obj with
  | JArr items => Val (length items)
  | JObj fields => Val (length fields)
  | JStr s => Val (String.length s)
  | _ => Exc TypeError
  end.

(** [obj[key] = v] on a document. *)
Definition set_item (obj : json) (key : string) (v : json) : py json :=
  match obj with
  | JObj fields => Val (JObj (dict_set key v fields))
  | _ => Exc TypeError
  end.

(** ** The template loader's substitution *)

(** [s.replace(old, new)] for a non-empty [old]: the string is scanned
    from the left, and the scan resumes after each replaced occurrence
    ([skip] counts the characters of that occurrence still to pass). *)
Fixpoint replace_from (old new : string) (skip : nat) (s : string) : string :=
  match s with
  | "" => ""%string
  | String c s' =>
      match skip with
      | S k => replace_from old new k s'
      | O =>
          if String.prefix old s
          then new +:+ replace_from old new (String.length old - 1) s'
          else String c (replace_from old new 0 s')
      end
  end.

Definition str_replace (s old new : string) : string := replace_from old new 0 s.

Definition placeholder : string := "${bucket_name}".

Fixpoint replace_placeholders (bucket_name : string) (obj : json) : json :=
  match obj with
  | JObj fields =>
      JObj (map (λ kv : string * json,
                   let (k, v) := kv in (k, replace_placeholders bucket_name v))
              fields)
  | JArr items => JArr (map (replace_placeholders bucket_name) items)
  | JStr s => JStr (str_replace s placeholder bucket_name)
  | other => other
  end.

(** ** The world the script runs in *)

(** What S3 or a local file holds, as [json.loads] sees it: a JSON text,
    a text that is no JSON, or bytes that are no UTF-8 text at all (a
    file can hold such bytes; reading it raises [UnicodeDecodeError], and
    so does [json.loads] on such bytes). *)
Inductive text : Type :=
| Parses (doc : json)
| Unparsable
| Undecodable.

Definition json_dumps (doc : json) : text := Parses doc.

Definition json_loads (t : text) : py json :=
  match t with
  | Parses doc => Val doc
  | Unparsable => Exc JSONDecodeError
  | Undecodable => Exc UnicodeDecodeError
  end.

Record datetime : Type := {
  year : nat; month : nat; day : nat;
  hour : nat; minute : nat; second : nat
}.

Inductive s3_call : Type :=
| GetBucketPolicy (bucket : string)
| PutBucketPolicy (bucket : string) (policy : text)
| DeleteBucketPolicy (bucket : string).

(** [policies] and [files] are the two stores.  [faults] is what the
    coming S3 requests run into, one entry per request ([None], or no
    entry, for a request that goes through); [calls] is the list of the
    requests issued so far, oldest first.  [clock] gives the successive
    readings of [datetime.now()]. *)
Record world : Type := {
  policies : gmap string text;
  files : gmap string text;
  faults : list (option exn);
  calls : list s3_call;
  clock : nat → datetime;
  ticks : nat
}.

Definition set_policies (f : gmap string text → gmap string text) (w : world) : world :=
  {| policies := f (policies w); files := files w; faults := faults w;
     calls := calls w; clock := clock w; ticks := ticks w |}.

Definition set_files (f : gmap string text → gmap string text) (w : world) : world :=
  {| policies := policies w; files := f (files w); faults := faults w;
     calls := calls w; clock := clock w; ticks := ticks w |}.

Definition issue (c : s3_call) (w : world) : world :=
  {| policies := policies w; files := files w; faults := tail (faults w);
     calls := calls w ++ [c]; clock := clock w; ticks := ticks w |}.

Definition tick (w : world) : world :=
  {| policies := policies w; files := files w; faults := faults w;
     calls := calls w; clock := clock w; ticks := S (ticks w) |}.

(** ** Computations: a result, an exception or [sys.exit] *)

Inductive outcome (A : Type) : Type :=
| Ret (a : A)
| Raise (e : exn)
| Exit (code : nat).
Arguments Ret {A} a.
Arguments Raise {A} e.
Arguments Exit {A} code.

Definition M (A : Type) : Type := world → outcome A * world.

Definition ret {A} (a : A) : M A := λ w, (Ret a, w).
Definition raise {A} (e : exn) : M A := λ w, (Raise e, w).
Definition sys_exit {A} (code : nat) : M A := λ w, (Exit code, w).

Definition bind {A B} (m : M A) (k : A → M B) : M B :=
  λ w, match m w with
       | (Ret a, w') => k a w'
       | (Raise e, w') => (Raise e, w')
       | (Exit c, w') => (Exit c, w')
       end.

Declare Scope m_scope.
Delimit Scope m_scope with M.
Notation "x <- m ;; k" := (bind m (λ x, k))
  (at level 100, m at next level, right associativity) : m_scope.
Notation "m ;;; k" := (bind m (λ _, k))
  (at level 100, right associativity) : m_scope.
Open Scope m_scope.

(** An expression that may raise, inside a computation. *)
Definition lift {A} (r : py A) : M A :=
  match r with
  | Val a => ret a
  | Exc e => raise e
  end.

(** [try: body  except ...: handler]; [sys.exit] is no [Exception] and
    passes through. *)
Definition try_except {A} (body : M A) (handler : exn → M A) : M A :=
  λ w, match body w with
       | (Raise e, w') => handler e w'
       | r => r
       end.

(** ** The S3 client and the local files *)

Definition request (c : s3_call) : M unit :=
  λ w, match faults w with
       | Some e :: _ => (Raise e, issue c w)
       | _ => (Ret tt, issue c w)
       end.

Definition get_bucket_policy (bucket : string) : M text :=
  request (GetBucketPolicy bucket) ;;;
  λ w, match policies w !! bucket with
       | Some t => (Ret t, w)
       | None => (Raise (ClientError "NoSuchBucketPolicy"), w)
       end.

Definition put_bucket_policy (bucket : string) (policy : text) : M unit :=
  request (PutBucketPolicy bucket policy) ;;;
  λ w, (Ret tt, set_policies (insert bucket policy) w).

Definition delete_bucket_policy (bucket : string) : M unit :=
  request (DeleteBucketPolicy bucket) ;;;
  λ w, (Ret tt, set_policies (delete bucket) w).

(** [open(path, 'r')] followed by a read of the whole file, which decodes
    its bytes. *)
Definition read_file (path : string) : M text :=
  λ w, match files w !! path with
       | Some Undecodable => (Raise UnicodeDecodeError, w)
       | Some t => (Ret t, w)
       | None => (Raise FileNotFoundError, w)
       end.

(** [open(path, 'w')] followed by a write of the whole file. *)
Definition write_file (path : string) (t : text) : M unit :=
  λ w, (Ret tt, set_files (insert path t) w).

Definition datetime_now : M datetime :=
  λ w, (Ret (clock w (ticks w)), tick w).

(** ** Paths and time stamps *)

Fixpoint ends_with_sep (s : string) : bool :=
  match s with
  | "" => false
  | String c "" => Ascii.eqb c "/"%char
  | String _ s' => ends_with_sep s'
  end.

(** [os.path.join(a, b)] (POSIX). *)
Definition path_join (a b : string) : string :=
  if String.prefix "/" b then b
  else if String.eqb a "" || ends_with_sep a then a +:+ b
  else a +:+ "/" +:+ b.

Definition digit (n : nat) : ascii := ascii_of_nat (48 + n mod 10).

Definition pad2 (n : nat) : string :=
  String (digit (n / 10)) (String (digit n) "").

Definition pad4 (n : nat) : string :=
  String (digit (n / 1000)) (String (digit (n / 100)) (pad2 n)).

(** [dt.strftime('%Y%m%d_%H%M%S')] for a year of four digits. *)
Definition strftime (dt : datetime) : string :=
  pad4 (year dt) +:+ pad2 (month dt) +:+ pad2 (day dt) +:+ "_"
  +:+ pad2 (hour dt) +:+ pad2 (minute dt) +:+ pad2 (second dt).

(** ** The script *)

(** Directories are implicit in the paths of [files]; [os.makedirs] with
    [exist_ok=True] leaves them as they are.  That a directory cannot be
    made (a file of its name, missing rights) is not modelled: what is
    proved of a function that makes a directory or an S3 client is
    proved of its runs in which these are made. *)
Definition ensure_backup_directory (account_id : string) : M string :=
  ret ("policy_backups_" +:+ account_id).

Definition ensure_policy_templates_directory : M string :=
  ret "policy_templates".

(** Python's [None] is the document [JNull]. *)
Definition get_current_policy (bucket_name : string) : M json :=
  try_except
    (policy <- get_bucket_policy bucket_name ;;
     lift (json_loads policy))
    (λ e, match e with
          | ClientError code =>
              if String.eqb code "NoSuchBucketPolicy" then ret JNull else raise e
          | _ => raise e
          end).

Definition load_policy_template (template_name bucket_name : string) : M json :=
  templates_dir <- ensure_policy_templates_directory ;;
  let template_path := path_join templates_dir (template_name +:+ ".json") in
  try_except
    (f <- read_file template_path ;;
     template <- lift (json_loads f) ;;
     ret (replace_placeholders bucket_name template))
    (λ e, match e with
          | FileNotFoundError => sys_exit 1
          | JSONDecodeError => sys_exit 1
          | _ => raise e
          end).

Definition backup_filename (bucket_name timestamp : string) : string :=
  "bucket_policy_backup_" +:+ bucket_name +:+ "_" +:+ timestamp +:+ ".json".

Definition backup_policy (policy : json) (bucket_name account_id : string)
  : M (option string) :=
  if truthy policy then
    backup_dir <- ensure_backup_directory account_id ;;
    now <- datetime_now ;;
    let timestamp := strftime now in
    let filename := path_join backup_dir (backup_filename bucket_name timestamp) in
    write_file filename (json_dumps policy) ;;;
    ret (Some filename)
  else ret None.

(** The entries of [results].  A skip message is kept by its parts. *)
Inductive skip_reason : Type :=
| SidAlreadyExists (sid : json)
| SidNotFound (sid : string)
| NoPolicyExists.

Inductive result : Type :=
| Applied (backup_file : option string)   (* 'success', with 'backup_file' *)
| Succeeded                               (* 'success' *)
| Skipped (why : skip_reason)             (* 'skipped', with 'message' *)
| Failed (e : exn).                       (* 'error', with 'error' *)

Inductive status : Type := success | skipped | error.

Definition status_of (r : result) : status :=
  match r with
  | Applied _ | Succeeded => success
  | Skipped _ => skipped
  | Failed _ => error
  end.

(** [new_policy_statement['Statement'][0]['Sid']]. *)
Definition template_sid (new_policy_statement : json) : py json :=
  (let? statements := subscript new_policy_statement "Statement" in
   let? first := subscript0 statements in
   subscript first "Sid")%py.

(** [any(stmt.get('Sid') == <template Sid> for stmt in stmts)]: the
    generator is consumed up to the first statement that compares equal,
    and the template's Sid is looked up once per statement consumed. *)
Fixpoint any_sid_match (stmts : list json) (new_policy_statement : json) : py bool :=
  match stmts with
  | [] => Val false
  | stmt :: rest =>
      (let? sid := get_method stmt "Sid" in
       let? wanted := template_sid new_policy_statement in
       if py_eq sid wanted then Val true
       else any_sid_match rest new_policy_statement)%py
  end.

Definition policy_exists (current_policy new_policy_statement : json) : py bool :=
  (let? statements := subscript current_policy "Statement" in
   let? stmts := py_iter statements in
   any_sid_match stmts new_policy_statement)%py.

(** [[stmt for stmt in stmts if stmt.get('Sid') != sid]]. *)
Fixpoint without_sid (sid : string) (stmts : list json) : py (list json) :=
  match stmts with
  | [] => Val []
  | stmt :: rest =>
      (let? s := get_method stmt "Sid" in
       let? kept := without_sid sid rest in
       Val (if negb (py_eq s (JStr sid)) then stmt :: kept else kept))%py
  end.

(** The [extend] attribute of a statement list, giving its items. *)
Definition extend_attr (target : json) : py (list json) :=
  match target with
  | JArr items => Val items
  | _ => Exc AttributeError
  end.

(** [current_policy['Statement'].extend(new_policy_statement['Statement'])],
    giving the document [current_policy] has become: the list is changed
    in place. *)
Definition extend_statements (current_policy new_policy_statement : json) : py json :=
  (let? statements := subscript current_policy "Statement" in
   let? items := extend_attr statements in
   let? added := subscript new_policy_statement "Statement" in
   let? more := py_iter added in
   set_item current_policy "Statement" (JArr (items ++ more)))%py.

(** The body of the [try] in [apply_policy], giving the entry stored in
    [results] for the bucket. *)
Definition apply_body (template_name : string) (backup : bool) (account_id : string)
    (bucket_name : string) : M result :=
  current_policy <- get_current_policy bucket_name ;;
  backup_file <- (if backup && truthy current_policy
                  then backup_policy current_policy bucket_name account_id
                  else ret None) ;;
  new_policy_statement <- load_policy_template template_name bucket_name ;;
  if truthy current_policy then
    policy_exists <- lift (policy_exists current_policy new_policy_statement) ;;
    if policy_exists : bool then
      sid <- lift (template_sid new_policy_statement) ;;
      ret (Skipped (SidAlreadyExists sid))
    else
      final_policy <- lift (extend_statements current_policy new_policy_statement) ;;
      put_bucket_policy bucket_name (json_dumps final_policy) ;;;
      ret (Applied backup_file)
  else
    put_bucket_policy bucket_name (json_dumps new_policy_statement) ;;;
    ret (Applied backup_file).

(** The loop of [apply_policy] and of [remove_policy]:
    [for bucket_name in bucket_list: try: <body>
     except Exception as e: results[bucket_name] = {'status': 'error', ...}],
    the body ending in an assignment to [results[bucket_name]]. *)
Fixpoint for_each_bucket (body : string → M result) (bucket_list : list string)
    (results : gmap string result) : M (gmap string result) :=
  match bucket_list with
  | [] => ret results
  | bucket_name :: rest =>
      r <- try_except (body bucket_name) (λ e, ret (Failed e)) ;;
      for_each_bucket body rest (<[bucket_name := r]> results)
  end.

Definition apply_policy (bucket_list : list string) (template_name : string)
    (backup : bool) (account_id : string) : M (gmap string result) :=
  for_each_bucket (apply_body template_name backup account_id) bucket_list ∅.

(** The count of the statements, the statements kept and the document
    [current_policy] has become once the kept ones are assigned to it. *)
Definition strip_sid (sid : string) (current_policy : json)
  : py (nat * list json * json) :=
  (let? statements := subscript current_policy "Statement" in
   let? original_count := py_len statements in
   let? stmts := py_iter statements in
   let? kept := without_sid sid stmts in
   let? current_policy' := set_item current_policy "Statement" (JArr kept) in
   Val (original_count, kept, current_policy'))%py.

(** The body of the [try] in [remove_policy]. *)
Definition remove_body (sid : string) (bucket_name : string) : M result :=
  current_policy <- get_current_policy bucket_name ;;
  if truthy current_policy then
    stripped <- lift (strip_sid sid current_policy) ;;
    let '(original_count, kept, current_policy') := stripped in
    if Nat.eqb (length kept) original_count then
      ret (Skipped (SidNotFound sid))
    else
      (if truthy (JArr kept)
       then put_bucket_policy bucket_name (json_dumps current_policy')
       else delete_bucket_policy bucket_name) ;;;
      ret Succeeded
  else ret (Skipped NoPolicyExists).

Definition remove_policy (bucket_list : list string) (sid : string)
  : M (gmap string result) :=
  for_each_bucket (remove_body sid) bucket_list ∅.

(** The [try] of [restore_policy]; the client is made before it. *)
Definition restore_policy (bucket_name backup_file : string) : M result :=
  try_except
    (f <- read_file backup_file ;;
     policy <- lift (json_loads f) ;;
     put_bucket_policy bucket_name (json_dumps policy) ;;;
     ret Succeeded)
    (λ e, ret (Failed e)).

(** ** Vocabulary of the statements *)

(** [sep.join(pieces)]. *)
Fixpoint join_tail (sep : string) (rest : list string) : string :=
  match rest with
  | [] => ""
  | q :: rest' => sep +:+ q +:+ join_tail sep rest'
  end.

Definition join (sep : string) (pieces : list string) : string :=
  match pieces with
  | [] => ""
  | p :: rest => p +:+ join_tail sep rest
  end.

(** [pat] occurs somewhere in [s]. *)
Definition occurs (pat s : string) : Prop := ∃ u v, s = u +:+ pat +:+ v.

Definition placeholder_free (s : string) : Prop := ¬ occurs placeholder s.

(** What the substitution is to do, in the words of the specification: a
    string value is cut at the occurrences of the placeholder and put
    together again around the bucket name; [null], booleans and numbers
    stay; lists and objects are gone through item by item, keys kept. *)
#[warnings="-register-all"] Inductive substituted (bucket_name : string) : json → json → Prop :=
| substituted_null : substituted bucket_name JNull JNull
| substituted_bool b : substituted bucket_name (JBool b) (JBool b)
| substituted_num q : substituted bucket_name (JNum q) (JNum q)
| substituted_str pieces :
    Forall placeholder_free pieces →
    substituted bucket_name (JStr (join placeholder pieces))
      (JStr (join bucket_name pieces))
| substituted_arr xs ys :
    Forall2 (substituted bucket_name) xs ys →
    substituted bucket_name (JArr xs) (JArr ys)
| substituted_obj fx fy :
    Forall2 (λ kv kv' : string * json,
               kv.1 = kv'.1 ∧ substituted bucket_name kv.2 kv'.2) fx fy →
    substituted bucket_name (JObj fx) (JObj fy).

Definition template_path (template_name : string) : string :=
  path_join "policy_templates" (template_name +:+ ".json").

Definition backup_path (account_id bucket_name : string) (now : datetime) : string :=
  path_join ("policy_backups_" +:+ account_id)
    (backup_filename bucket_name (strftime now)).

Definition is_backup_file (path : string) : bool :=
  String.prefix "policy_backups_" path.

Definition bucket_of (c : s3_call) : string :=
  match c with
  | GetBucketPolicy b | PutBucketPolicy b _ | DeleteBucketPolicy b => b
  end.

(** What processing the bucket [b] may do to the world: the policies of
    the other buckets stay, files other than backups stay, no fault turns
    up where none was due, and the requests issued are about [b]. *)
Definition effect (b : string) (w w' : world) : Prop :=
  (∀ b', b' ≠ b → policies w' !! b' = policies w !! b')
  ∧ (∀ p, is_backup_file p = false → files w' !! p = files w !! p)
  ∧ (faults w = [] → faults w' = [])
  ∧ (∃ new, calls w' = calls w ++ new ∧ Forall (λ c, bucket_of c = b) new).

(** The statement list of a policy document, when it has one. *)
Definition statements_of (policy : json) : option (list json) :=
  match policy with
  | JObj fields =>
      match dict_lookup "Statement" fields with
      | Some (JArr stmts) => Some stmts
      | _ => None
      end
  | _ => None
  end.

Definition is_object (j : json) : bool :=
  match j with
  | JObj _ => true
  | _ => false
  end.

(** What [stmt.get('Sid')] gives on a statement that is an object. *)
Definition sid_of (stmt : json) : json :=
  match stmt with
  | JObj fields => default JNull (dict_lookup "Sid" fields)
  | _ => JNull
  end.

Definition has_sid (sid : string) (stmt : json) : bool :=
  py_eq (sid_of stmt) (JStr sid).

(** The document with its statement list replaced. *)
Definition with_statements (policy : json) (stmts : list json) : json :=
  match policy with
  | JObj fields => JObj (dict_set "Statement" (JArr stmts) fields)
  | other => other
  end.

(** The policy stored for a bucket, and the number of its statements. *)
Definition stored_policy (w : world) (bucket_name : string) : option json :=
  match policies w !! bucket_name with
  | Some (Parses doc) => Some doc
  | _ => None
  end.

Definition statement_count (w : world) (bucket_name : string) : option nat :=
  stmts ← stored_policy w bucket_name ≫= statements_of; Some (length stmts).

(** [m] only does what processing the bucket [b] may do. *)
Definition within {A} (b : string) (m : M A) : Prop :=
  ∀ w, effect b w (m w).2.

(** [m] never leaves through [sys.exit]. *)
Definition safe {A} (m : M A) : Prop :=
  ∀ w c, (m w).1 ≠ Exit c.

(** The entry that the [except] clause makes of an outcome of the body. *)
Definition entry_of (o : outcome result) : option result :=
  match o with
  | Ret r => Some r
  | Raise e => Some (Failed e)
  | Exit _ => None
  end.

(** A request that changes the policy of the bucket [b]. *)
Definition writes_policy_of (b : string) (c : s3_call) : bool :=
  match c with
  | PutBucketPolicy b' _ | DeleteBucketPolicy b' => String.eqb b b'
  | GetBucketPolicy _ => false
  end.

(** A request that is no upload of a document without statements. *)
Definition uploads_statements (c : s3_call) : Prop :=
  match c with
  | PutBucketPolicy _ (Parses doc) =>
      ∃ stmt rest, statements_of doc = Some (stmt :: rest)
  | PutBucketPolicy _ _ => False
  | _ => True
  end.

(** Removal as the specification words it for documents with a repeated
    Sid: only the first statement that has the Sid is taken out. *)
Fixpoint remove_first_match (sid : string) (stmts : list json) : list json :=
  match stmts with
  | [] => []
  | stmt :: rest =>
      if has_sid sid stmt then rest else stmt :: remove_first_match sid rest
  end.

Definition is_digit (c : ascii) : bool :=
  (48 <=? nat_of_ascii c) && (nat_of_ascii c <=? 57).

Fixpoint all_digits (s : string) : bool :=
  match s with
  | "" => true
  | String c s' => is_digit c && all_digits s'
  end.

(** The readings of the clock for which [strftime] above is the format
    of Python: a year of four digits, the other fields in their range. *)
Definition datetime_valid (dt : datetime) : Prop :=
  999 < year dt < 10 * 1000 ∧ 1 ≤ month dt ≤ 12 ∧ 1 ≤ day dt ≤ 31
  ∧ hour dt < 24 ∧ minute dt < 60 ∧ second dt < 60.

(** ** Sample documents and worlds *)

Definition statement (sid effect action resource : string) : json :=
  JObj [("Sid", JStr sid); ("Effect", JStr effect); ("Principal", JStr "*");
        ("Action", JStr action); ("Resource", JStr resource)].

Definition policy_of (stmts : list json) : json :=
  JObj [("Version", JStr "2012-10-17"); ("Statement", JArr stmts)].

Definition allow_read (resource : string) : json :=
  statement "AllowRead" "Allow" "s3:GetObject" resource.

Definition deny_read (resource : string) : json :=
  statement "AllowRead" "Deny" "s3:GetObject" resource.

Definition deny_delete (resource : string) : json :=
  statement "DenyDelete" "Deny" "s3:DeleteObject" resource.

(** The template of the specification's example. *)
Definition read_template : json :=
  JObj [("Statement", JArr [allow_read "arn:aws:s3:::${bucket_name}/*"])].

Definition sidless_fields : list (string * json) :=
  [("Effect", JStr "Allow"); ("Principal", JStr "*");
   ("Action", JStr "s3:ListBucket"); ("Resource", JStr "arn:aws:s3:::${bucket_name}")].

Definition sidless_template : json :=
  JObj [("Statement", JArr [JObj sidless_fields])].

Definition sample_files : gmap string text :=
  {[ "policy_templates/read.json" := Parses read_template;
     "policy_templates/nosid.json" := Parses sidless_template ]}.

Definition sample_time : datetime :=
  {| year := 2024; month := 3; day := 9; hour := 17; minute := 4; second := 30 |}.

(** A world with the sample templates, the given stored policies and the
    given faults to come. *)
Definition sample_world (stored : list (string * text))
    (coming : list (option exn)) : world :=
  {| policies := list_to_map stored; files := sample_files; faults := coming;
     calls := []; clock := λ _, sample_time; ticks := 0 |}.


(** ** Further vocabulary *)

(** [m] leaves the part [f] of the world as it is. *)
Definition preserves {A B} (f : world → B) (m : M A) : Prop :=
  ∀ w, f (m w).2 = f w.

(** The requests that change a policy. *)
Definition is_write (c : s3_call) : bool :=
  match c with
  | GetBucketPolicy _ => false
  | _ => true
  end.

(** The answer [NoSuchBucketPolicy] of S3. *)
Definition no_such_policy (e : exn) : bool :=
  match e with
  | ClientError code => String.eqb code "NoSuchBucketPolicy"
  | _ => false
  end.

(** The fault the next request runs into, if any. *)
Definition next_fault (w : world) : option exn :=
  match faults w with
  | Some e :: _ => Some e
  | _ => None
  end.

(** The fetch of the policy of [b] fails with [e] in the world [w]: the
    request runs into a fault other than [NoSuchBucketPolicy], or what is
    stored is no JSON. *)
Definition fetch_fails (w : world) (b : string) (e : exn) : Prop :=
  (next_fault w = Some e ∧ no_such_policy e = false)
  ∨ (next_fault w = None ∧ policies w !! b = Some Unparsable ∧ e = JSONDecodeError)
  ∨ (next_fault w = None ∧ policies w !! b = Some Undecodable
     ∧ e = UnicodeDecodeError).

(** The bucket [b] has no policy, or its policy is a document whose
    [Statement] is a list of objects. *)
Definition well_formed (w : world) (b : string) : bool :=
  match policies w !! b with
  | None => true
  | Some (Parses doc) =>
      match statements_of doc with
      | Some stmts => forallb is_object stmts
      | None => false
      end
  | Some Unparsable | Some Undecodable => false
  end.

(** The same, and none of the statements has the Sid [sid]. *)
Definition free_of (sid : string) (w : world) (b : string) : bool :=
  match policies w !! b with
  | None => true
  | Some (Parses doc) =>
      match statements_of doc with
      | Some stmts => forallb is_object stmts && negb (existsb (has_sid sid) stmts)
      | None => false
      end
  | Some Unparsable | Some Undecodable => false
  end.

(** What follows the fetch in the round of the bucket [b]: nothing, or
    one write of the policy of [b]. *)
Definition one_write (b : string) (tail : list s3_call) : bool :=
  match tail with
  | [] => true
  | [c] => writes_policy_of b c
  | _ => false
  end.

(** The requests come in rounds, one for each bucket of the list and in
    the order of the list: the fetch of the bucket's policy, then at most
    one write, of the policy of that bucket. *)
Fixpoint in_rounds (bucket_list : list string) (requests : list s3_call) : bool :=
  match bucket_list, requests with
  | [], [] => true
  | b :: rest, GetBucketPolicy b' :: more =>
      String.eqb b b'
      && match more with
         | c :: more' =>
             if writes_policy_of b c then in_rounds rest more'
             else in_rounds rest more
         | [] => in_rounds rest []
         end
  | _, _ => false
  end.

(** ** The account, the bucket selection and the listings *)

(** [get_caller_identity] is what
    [sts_client.get_caller_identity()['Account']] gives: the account
    identifier, or the exception of the call or of the subscript. *)
Definition get_aws_account_id (get_caller_identity : py string) : M string :=
  try_except (lift get_caller_identity) (λ _, sys_exit 1).

(** [if x:] on an optional argument of the command line: [None] and the
    empty string count as false. *)
Definition given (x : option string) : bool :=
  match x with
  | Some s => negb (String.eqb s "")
  | None => false
  end.

(** [l.sort(reverse=True)] on strings, which Python compares by their
    characters from the left. *)
Fixpoint insert_reverse (x : string) (l : list string) : list string :=
  match l with
  | [] => [x]
  | y :: l' => if String.leb y x then x :: l else y :: insert_reverse x l'
  end.

Definition sort_reverse (l : list string) : list string :=
  foldr insert_reverse [] l.

Section builtins.

(** [s.strip()], [s.lower()], [s.split(',')] and [int(s)] of Python
    ([None] for [ValueError]), and the answer of [glob.glob] to a pattern;
    nothing is assumed of them. *)
Context (strip lower : string → string) (split : string → list string)
        (int : string → option Z) (glob : string → list string).

(** The loop over [selected_indices]: a number out of range is passed
    over, the others select in the order typed. *)
Fixpoint selected_buckets_of (buckets : list string) (selected_indices : list Z)
  : py (list string) :=
  match selected_indices with
  | [] => Val []
  | idx :: rest =>
      if (idx <? 1)%Z || (idx >? Z.of_nat (length buckets))%Z
      then selected_buckets_of buckets rest
      else match buckets !! Z.to_nat (idx - 1) with
           | Some name =>
               (let? selected := selected_buckets_of buckets rest in
                Val (name :: selected))%py
           | None => Exc IndexError
           end
  end.

(** The [while True] loop, on the lines that [input] still has to give;
    [None] when the input ends ([EOFError]).  A line that is no list of
    numbers ([ValueError]), a selection without a valid number and an
    answer other than [y] start the loop again. *)
Fixpoint select_loop (buckets : list string) (lines : list string)
  : option (list string) * list string :=
  match lines with
  | [] => (None, [])
  | line :: rest =>
      let selection := strip line in
      if String.eqb (lower selection) "all" then (Some buckets, rest)
      else
        match mapM int (strip <$> split selection) with
        | None => select_loop buckets rest
        | Some selected_indices =>
            match selected_buckets_of buckets selected_indices with
            | Exc _ => select_loop buckets rest
            | Val [] => select_loop buckets rest
            | Val selected_buckets =>
                match rest with
                | [] => (None, [])
                | confirm :: rest' =>
                    if String.eqb (lower confirm) "y"
                    then (Some selected_buckets, rest')
                    else select_loop buckets rest'
                end
            end
        end
  end.

(** [list_buckets] is the list of the names in
    [s3_client.list_buckets()['Buckets']], or the exception of the call.
    Every exception of the body, the end of the input included, ends in
    [sys.exit(1)]. *)
Definition list_and_select_buckets (list_buckets : py (list string))
    (lines : list string) : outcome (list string) * list string :=
  match list_buckets with
  | Exc _ => (Exit 1, lines)
  | Val [] => (Exit 1, lines)
  | Val buckets =>
      match select_loop buckets lines with
      | (Some selected_buckets, rest) => (Ret selected_buckets, rest)
      | (None, rest) => (Exit 1, rest)
      end
  end.

Definition list_policy_templates : M (list string) :=
  templates_dir <- ensure_policy_templates_directory ;;
  let templates := glob (path_join templates_dir "*.json") in
  match templates with
  | [] => sys_exit 1
  | _ => ret templates
  end.

Definition list_policy_backups (account_id : string) (bucket_name : option string)
  : M (option (list string)) :=
  backup_dir <- ensure_backup_directory account_id ;;
  let pattern :=
    if given bucket_name
    then "bucket_policy_backup_" +:+ default "" bucket_name +:+ "_*.json"
    else "bucket_policy_backup_*.json" in
  let backups := sort_reverse (glob (path_join backup_dir pattern)) in
  match backups with
  | [] => ret None
  | _ => ret (Some backups)
  end.

(** ** The command line *)

Inductive action : Type :=
| ActionApply | ActionRemove | ActionRestore | ActionListTemplates | ActionListBackups.

(** What [parser.parse_args()] gives. *)
Record arguments : Type := {
  args_action : action;
  args_template : option string;
  args_sid : option string;
  args_bucket : option string;
  args_backup_file : option string;
  args_no_backup : bool
}.

(** The block under [if __name__ == "__main__"], after the parsing of the
    command line: the outcome ([Ret] when the script runs to its end),
    the world and the lines of input that are left.  [parse_args], which
    leaves with exit code 2 on a bad command line, comes before it, and
    the clients and directories are taken to be made: the theorems on
    [main] say what the script reads, requests and changes, and none says
    that it ends without a traceback. *)
Definition main (get_caller_identity : py string) (list_buckets : py (list string))
    (args : arguments) (lines : list string) (w : world)
  : outcome unit * world * list string :=
  match get_aws_account_id get_caller_identity w with
  | (Ret account_id, w) =>
      match args_action args with
      | ActionListTemplates => ((list_policy_templates ;;; sys_exit 0) w, lines)
      | ActionListBackups =>
          ((list_policy_backups account_id (args_bucket args) ;;; sys_exit 0) w, lines)
      | ActionRestore =>
          (if negb (given (args_bucket args)) || negb (given (args_backup_file args))
           then sys_exit 1 w
           else (restore_policy (default "" (args_bucket args))
                   (default "" (args_backup_file args)) ;;;
                 sys_exit 0) w,
           lines)
      | ActionApply =>
          match list_and_select_buckets list_buckets lines with
          | (Ret selected_buckets, rest) =>
              (if negb (given (args_template args)) then sys_exit 1 w
               else (apply_policy selected_buckets (default "" (args_template args))
                       (negb (args_no_backup args)) account_id ;;;
                     ret tt) w,
               rest)
          | (Raise e, rest) => (Raise e, w, rest)
          | (Exit code, rest) => (Exit code, w, rest)
          end
      | ActionRemove =>
          match list_and_select_buckets list_buckets lines with
          | (Ret selected_buckets, rest) =>
              (if negb (given (args_sid args)) then sys_exit 1 w
               else (remove_policy selected_buckets (default "" (args_sid args)) ;;;
                     ret tt) w,
               rest)
          | (Raise e, rest) => (Raise e, w, rest)
          | (Exit code, rest) => (Exit code, w, rest)
          end
      end
  | (Raise e, w) => (Raise e, w, lines)
  | (Exit code, w) => (Exit code, w, lines)
  end.

End builtins.

(** The builtins on ASCII text and plain decimal numerals, to run the
    definitions above. *)
Definition is_space (c : ascii) : bool :=
  let n := nat_of_ascii c in
  (9 <=? n) && (n <=? 13) || (28 <=? n) && (n <=? 32).

Fixpoint lstrip (s : string) : string :=
  match s with
  | "" => ""
  | String c s' => if is_space c then lstrip s' else s
  end.

Fixpoint rstrip (s : string) : string :=
  match s with
  | "" => ""
  | String c s' =>
      match rstrip s' with
      | "" => if is_space c then "" else String c ""
      | t => String c t
      end
  end.

Definition ascii_strip (s : string) : string := rstrip (lstrip s).

Definition lower_char (c : ascii) : ascii :=
  let n := nat_of_ascii c in
  if (65 <=? n) && (n <=? 90) then ascii_of_nat (n + 32) else c.

Fixpoint ascii_lower (s : string) : string :=
  match s with
  | "" => ""
  | String c s' => String (lower_char c) (ascii_lower s')
  end.

Fixpoint split_commas (s : string) : list string :=
  match s with
  | "" => [""]
  | String c s' =>
      if Ascii.eqb c ","%char then "" :: split_commas s'
      else match split_commas s' with
           | piece :: pieces => String c piece :: pieces
           | [] => [String c ""]
           end
  end.

Fixpoint digits_value (s : string) (acc : Z) : option Z :=
  match s with
  | "" => Some acc
  | String c s' =>
      if is_digit c
      then digits_value s' (10 * acc + Z.of_nat (nat_of_ascii c - 48))
      else None
  end.

Definition decimal (s : string) : option Z :=
  match s with
  | "" => None
  | String c s' =>
      if Ascii.eqb c "-"%char
      then match s' with "" => None | _ => Z.opp <$> digits_value s' 0 end
      else if Ascii.eqb c "+"%char
      then match s' with "" => None | _ => digits_value s' 0 end
      else digits_value s 0
  end.

(** ** The order of the backups *)

Definition and_then (first rest : comparison) : comparison :=
  match first with
  | Eq => rest
  | _ => first
  end.

(** The order of two readings of the clock. *)
Definition compare_time (t1 t2 : datetime) : comparison :=
  and_then (year t1 ?= year t2)
    (and_then (month t1 ?= month t2)
       (and_then (day t1 ?= day t2)
          (and_then (hour t1 ?= hour t2)
             (and_then (minute t1 ?= minute t2) (second t1 ?= second t2))))).

(** [t1] is no earlier than [t2]. *)
Definition no_earlier (t1 t2 : datetime) : Prop := compare_time t1 t2 ≠ Lt.

(** * Properties *)

(** ** Strings *)

Lemma append_nil (s : string) : "" +:+ s = s.
Proof. reflexivity. Qed.

Lemma append_cons (c : ascii) (s t : string) :
  String c s +:+ t = String c (s +:+ t).
Proof. reflexivity. Qed.

Tactic Notation "push_append" := rewrite ?append_cons, ?append_nil.
Tactic Notation "push_append" "in" hyp(H) := rewrite ?append_cons, ?append_nil in H.

Lemma append_empty_r (s : string) : s +:+ "" = s.
Proof. induction s as [|c s IH]; push_append; [done | by rewrite IH]. Qed.

Lemma append_assoc (s t u : string) : (s +:+ t) +:+ u = s +:+ t +:+ u.
Proof. induction s as [|c s IH]; push_append; [done | by rewrite IH]. Qed.

Lemma prefix_cons (a b : ascii) (p s : string) :
  String.prefix (String a p) (String b s) = Ascii.eqb a b && String.prefix p s.
Proof.
  simpl. destruct (Ascii.ascii_dec a b) as [-> | Hne].
  - by rewrite Ascii.eqb_refl.
  - by apply Ascii.eqb_neq in Hne as ->.
Qed.

Lemma prefix_append (p v : string) : String.prefix p (p +:+ v) = true.
Proof.
  induction p as [|c p IH]; push_append; [by destruct v |].
  by rewrite prefix_cons, Ascii.eqb_refl.
Qed.

Lemma prefix_split (p s : string) :
  String.prefix p s = true → ∃ v, s = p +:+ v.
Proof.
  revert s. induction p as [|c p IH]; intros s H.
  - by exists s.
  - destruct s as [|d s]; [discriminate |].
    rewrite prefix_cons in H. apply andb_true_iff in H as [Hc H].
    apply Ascii.eqb_eq in Hc as ->.
    destruct (IH _ H) as [v ->]. by exists v.
Qed.

Lemma placeholder_free_empty : placeholder_free "".
Proof. intros (u & v & H). destruct u; discriminate. Qed.

Lemma placeholder_free_tail (c : ascii) (s : string) :
  placeholder_free (String c s) → placeholder_free s.
Proof.
  intros Hf (u & v & ->). apply Hf. by exists (String c u), v.
Qed.

Lemma placeholder_free_suffix (u s : string) :
  placeholder_free (u +:+ s) → placeholder_free s.
Proof.
  induction u as [|c u IH]; push_append; [done |].
  intros H. apply IH. by eapply placeholder_free_tail.
Qed.

Lemma placeholder_free_cons (c : ascii) (s : string) :
  placeholder_free s →
  String.prefix placeholder (String c s) = false →
  placeholder_free (String c s).
Proof.
  intros Hs Hp (u & v & H). destruct u as [|d u]; push_append in H.
  - rewrite H, prefix_append in Hp. discriminate.
  - injection H as _ ->. apply Hs. by exists u, v.
Qed.

(** A piece without the placeholder cannot make one up with what follows
    it, as the placeholder's first character occurs nowhere else in it. *)
Lemma no_early_match (c : ascii) (u rest : string) :
  placeholder_free (String c u) →
  rest = "" ∨ (∃ v, rest = placeholder +:+ v) →
  String.prefix placeholder (String c u +:+ rest) = false.
Proof.
  intros Hfree Hrest.
  destruct (String.prefix placeholder (String c u +:+ rest)) eqn:H; [| done].
  exfalso. unfold placeholder in *. push_append in H.
  rewrite prefix_cons in H. apply andb_true_iff in H as [Hc H].
  apply Ascii.eqb_eq in Hc as <-.
  do 13 (destruct u as [|d u];
         [ destruct Hrest as [-> | [v ->]]; push_append in H;
           [ discriminate H
           | rewrite prefix_cons in H; apply andb_true_iff in H as [Hc _];
             vm_compute in Hc; discriminate Hc ]
         | push_append in H; rewrite prefix_cons in H;
           apply andb_true_iff in H as [Hc H]; apply Ascii.eqb_eq in Hc as <- ]).
  apply Hfree. by exists ""%string, u.
Qed.

Lemma replace_from_here (old new : string) (c : ascii) (s : string) :
  replace_from old new 0 (String c s)
  = if String.prefix old (String c s)
    then new +:+ replace_from old new (String.length old - 1) s
    else String c (replace_from old new 0 s).
Proof. reflexivity. Qed.

Lemma replace_from_skip (old new : string) (k : nat) (c : ascii) (s : string) :
  replace_from old new (S k) (String c s) = replace_from old new k s.
Proof. reflexivity. Qed.

Lemma replace_free_app (bucket_name u rest : string) :
  placeholder_free u →
  rest = "" ∨ (∃ v, rest = placeholder +:+ v) →
  replace_from placeholder bucket_name 0 (u +:+ rest)
  = u +:+ replace_from placeholder bucket_name 0 rest.
Proof.
  intros Hfree Hrest. induction u as [|c u IH]; [done |].
  rewrite append_cons, replace_from_here, <- append_cons.
  rewrite (no_early_match c u rest Hfree Hrest). push_append.
  f_equal. apply IH. by eapply placeholder_free_tail.
Qed.

Lemma replace_at_placeholder (bucket_name v : string) :
  replace_from placeholder bucket_name 0 (placeholder +:+ v)
  = bucket_name +:+ replace_from placeholder bucket_name 0 v.
Proof.
  unfold placeholder. push_append. rewrite replace_from_here.
  replace (String.prefix _ _) with true
    by (symmetry; apply (prefix_append placeholder v)).
  change (String.length "${bucket_name}" - 1) with 13.
  by rewrite !replace_from_skip.
Qed.

Lemma replace_join_tail (bucket_name : string) (rest : list string) :
  Forall placeholder_free rest →
  replace_from placeholder bucket_name 0 (join_tail placeholder rest)
  = join_tail bucket_name rest.
Proof.
  induction 1 as [|q rest Hq _ IH]; [done |].
  cbn [join_tail]. rewrite replace_at_placeholder. f_equal.
  rewrite replace_free_app; [by rewrite IH | done |].
  destruct rest; cbn [join_tail]; eauto.
Qed.

(** Every occurrence of the placeholder is replaced, and nothing else. *)
Lemma str_replace_join (bucket_name : string) (pieces : list string) :
  Forall placeholder_free pieces →
  str_replace (join placeholder pieces) placeholder bucket_name
  = join bucket_name pieces.
Proof.
  unfold str_replace. destruct 1 as [|p rest Hp Hrest]; [done |].
  cbn [join]. rewrite replace_free_app; [| done |].
  - by rewrite replace_join_tail.
  - destruct rest; cbn [join_tail]; eauto.
Qed.

(** Every string is cut into such pieces. *)
Lemma pieces_exist (s : string) :
  ∃ p rest, Forall placeholder_free (p :: rest) ∧ s = join placeholder (p :: rest).
Proof.
  induction s as [|c s (p & rest & Hfree & ->)].
  - exists ""%string, []. split; [| done].
    constructor; [apply placeholder_free_empty | constructor].
  - apply Forall_cons in Hfree as [Hp Hrest].
    destruct (String.prefix placeholder (String c p)) eqn:Hpre.
    + destruct (prefix_split _ _ Hpre) as [v Hv].
      exists ""%string, (v :: rest). split.
      * constructor; [apply placeholder_free_empty |].
        constructor; [| done].
        unfold placeholder in Hv. push_append in Hv. injection Hv as _ Hv.
        apply (placeholder_free_suffix "{bucket_name}"). push_append.
        by rewrite <- Hv.
      * cbn [join join_tail]. rewrite <- append_cons, Hv.
        by rewrite append_nil, append_assoc.
    + exists (String c p), rest. split; [| done].
      constructor; [| done]. by apply placeholder_free_cons.
Qed.


(** ** The substitution of the template loader *)

Lemma replace_placeholders_substituted (bucket_name : string) (j : json) :
  substituted bucket_name j (replace_placeholders bucket_name j).
Proof.
  induction j as [| b | q | s | items IH | fields IH] using json_nested_ind;
    cbn [replace_placeholders]; try by constructor.
  - destruct (pieces_exist s) as (p & rest & Hfree & ->).
    rewrite str_replace_join by done. by constructor.
  - constructor. induction IH; constructor; auto.
  - constructor. induction IH as [| [k v] fields Hv _ IHf]; constructor; auto.
Qed.

Lemma substituted_unique (bucket_name : string) (j j' : json) :
  substituted bucket_name j j' → j' = replace_placeholders bucket_name j.
Proof.
  revert j'.
  induction j as [| b | q | s | items IH | fields IH] using json_nested_ind;
    intros j' H; inversion H; subst; cbn [replace_placeholders]; try done.
  - by rewrite str_replace_join.
  - f_equal. match goal with H : Forall2 _ _ _ |- _ => revert H end.
    clear H. revert ys. induction IH as [| x items Hx _ IHi]; intros ys Hys;
      inversion Hys; subst; cbn [map]; [done |].
    f_equal; auto.
  - f_equal. match goal with H : Forall2 _ _ _ |- _ => revert H end.
    clear H. revert fy. induction IH as [| [k v] fields Hv _ IHf]; intros fy Hfy;
      inversion Hfy as [| ? [k' v'] ? ? [Hk Hkv] Hrest]; subst; cbn [map]; [done |].
    cbn in Hk, Hkv. subst k'. f_equal; [| auto]. f_equal. by apply Hv.
Qed.

(** C3.  Template placeholder substitution.  Loading a template that is
    in place gives, without a change to the world, the one document that
    the template is in the relation [substituted] with: every occurrence
    of [${bucket_name}] in every string value, at any depth of lists and
    objects, is replaced by the bucket name; the keys of objects, [null],
    booleans and numbers are as they were. *)
Theorem load_policy_template_substitutes
    (template_name bucket_name : string) (template : json) (w : world) :
  files w !! template_path template_name = Some (Parses template) →
  ∃ doc, load_policy_template template_name bucket_name w = (Ret doc, w)
         ∧ ∀ doc', substituted bucket_name template doc' ↔ doc' = doc.
Proof.
  intros Hfile. exists (replace_placeholders bucket_name template). split.
  - unfold load_policy_template, ensure_policy_templates_directory, try_except,
      bind, ret, read_file.
    fold (template_path template_name). by rewrite Hfile.
  - intros doc'. split; [apply substituted_unique |].
    intros ->. apply replace_placeholders_substituted.
Qed.


(** ** Running the S3 client and the file operations *)

Lemma get_current_policy_run (bucket_name : string) (w : world) :
  get_current_policy bucket_name w =
  (match faults w with
   | Some e :: _ =>
       match e with
       | ClientError code =>
           if String.eqb code "NoSuchBucketPolicy" then Ret JNull else Raise e
       | _ => Raise e
       end
   | _ =>
       match policies w !! bucket_name with
       | Some (Parses doc) => Ret doc
       | Some Unparsable => Raise JSONDecodeError
       | Some Undecodable => Raise UnicodeDecodeError
       | None => Ret JNull
       end
   end, issue (GetBucketPolicy bucket_name) w).
Proof.
  unfold get_current_policy, get_bucket_policy, request, try_except, bind, lift.
  destruct (faults w) as [| [e |] fs]; cbn.
  - destruct (policies w !! bucket_name) as [[doc | |] |]; reflexivity.
  - destruct e as [code | | | | | | | |]; try reflexivity.
    destruct (String.eqb code "NoSuchBucketPolicy"); reflexivity.
  - destruct (policies w !! bucket_name) as [[doc | |] |]; reflexivity.
Qed.

Lemma put_bucket_policy_run (bucket_name : string) (policy : text) (w : world) :
  faults w = [] →
  put_bucket_policy bucket_name policy w =
  (Ret tt, set_policies (insert bucket_name policy)
             (issue (PutBucketPolicy bucket_name policy) w)).
Proof.
  intros Hf. unfold put_bucket_policy, bind, request. by rewrite Hf.
Qed.

Lemma delete_bucket_policy_run (bucket_name : string) (w : world) :
  faults w = [] →
  delete_bucket_policy bucket_name w =
  (Ret tt, set_policies (delete bucket_name)
             (issue (DeleteBucketPolicy bucket_name) w)).
Proof.
  intros Hf. unfold delete_bucket_policy, bind, request. by rewrite Hf.
Qed.

Lemma put_bucket_policy_any (bucket_name : string) (policy : text) (w : world) :
  put_bucket_policy bucket_name policy w =
  match faults w with
  | Some e :: _ => (Raise e, issue (PutBucketPolicy bucket_name policy) w)
  | _ => (Ret tt, set_policies (insert bucket_name policy)
             (issue (PutBucketPolicy bucket_name policy) w))
  end.
Proof.
  unfold put_bucket_policy, bind, request. by destruct (faults w) as [|[e|] ?].
Qed.

Lemma delete_bucket_policy_any (bucket_name : string) (w : world) :
  delete_bucket_policy bucket_name w =
  match faults w with
  | Some e :: _ => (Raise e, issue (DeleteBucketPolicy bucket_name) w)
  | _ => (Ret tt, set_policies (delete bucket_name)
             (issue (DeleteBucketPolicy bucket_name) w))
  end.
Proof.
  unfold delete_bucket_policy, bind, request. by destruct (faults w) as [|[e|] ?].
Qed.

Lemma load_policy_template_run (template_name bucket_name : string) (w : world) :
  load_policy_template template_name bucket_name w =
  (match files w !! template_path template_name with
   | Some (Parses template) => Ret (replace_placeholders bucket_name template)
   | Some Undecodable => Raise UnicodeDecodeError
   | _ => Exit 1
   end, w).
Proof.
  unfold load_policy_template, ensure_policy_templates_directory, try_except,
    bind, ret, read_file, lift.
  fold (template_path template_name).
  by destruct (files w !! template_path template_name) as [[doc | |] |].
Qed.

Lemma backup_policy_run (policy : json) (bucket_name account_id : string) (w : world) :
  backup_policy policy bucket_name account_id w =
  if truthy policy
  then (Ret (Some (backup_path account_id bucket_name (clock w (ticks w)))),
        set_files (insert (backup_path account_id bucket_name (clock w (ticks w)))
                     (Parses policy)) (tick w))
  else (Ret None, w).
Proof. unfold backup_policy. by destruct (truthy policy). Qed.

(** ** Backup files and templates have different paths *)

Lemma backup_path_is_backup (account_id bucket_name : string) (now : datetime) :
  is_backup_file (backup_path account_id bucket_name now) = true.
Proof.
  unfold is_backup_file, backup_path, path_join.
  assert (String.prefix "/" (backup_filename bucket_name (strftime now)) = false)
    as ->.
  { unfold backup_filename. push_append. by rewrite prefix_cons. }
  destruct (_ || _); rewrite ?append_assoc; apply prefix_append.
Qed.

Lemma template_path_not_backup (template_name : string) :
  is_backup_file (template_path template_name) = false.
Proof.
  unfold is_backup_file, template_path, path_join.
  destruct (String.prefix "/" (template_name +:+ ".json")) eqn:Hp.
  - apply prefix_split in Hp as [v ->]. push_append. by rewrite prefix_cons.
  - replace (String.eqb "policy_templates" "" || ends_with_sep "policy_templates")
      with false by (by vm_compute).
    push_append. rewrite !prefix_cons.
    replace (Ascii.eqb "b" "t") with false by (by vm_compute).
    by rewrite !andb_false_r.
Qed.

Lemma backup_path_not_template (account_id bucket_name template_name : string)
    (now : datetime) :
  backup_path account_id bucket_name now ≠ template_path template_name.
Proof.
  intros H. pose proof (backup_path_is_backup account_id bucket_name now) as Hb.
  rewrite H, template_path_not_backup in Hb. discriminate.
Qed.

(** ** Processing one bucket, when no request runs into a fault *)

Ltac no_faults H := cbn [faults set_files set_policies tick issue]; by rewrite H.

Lemma apply_body_run (template_name : string) (backup : bool)
    (account_id bucket_name : string) (template current_policy : json) (w : world) :
  faults w = [] →
  files w !! template_path template_name = Some (Parses template) →
  policies w !! bucket_name = Some (Parses current_policy)
  ∨ (policies w !! bucket_name = None ∧ current_policy = JNull) →
  let w1 := issue (GetBucketPolicy bucket_name) w in
  let path := backup_path account_id bucket_name (clock w (ticks w)) in
  let backed :=
    if backup && truthy current_policy
    then (Some path, set_files (insert path (Parses current_policy)) (tick w1))
    else (None, w1) in
  let new_policy_statement := replace_placeholders bucket_name template in
  let put doc :=
    (Ret (Applied backed.1),
     set_policies (insert bucket_name (Parses doc))
       (issue (PutBucketPolicy bucket_name (Parses doc)) backed.2)) in
  apply_body template_name backup account_id bucket_name w =
  if truthy current_policy then
    match policy_exists current_policy new_policy_statement with
    | Exc e => (Raise e, backed.2)
    | Val true =>
        match template_sid new_policy_statement with
        | Val sid => (Ret (Skipped (SidAlreadyExists sid)), backed.2)
        | Exc e => (Raise e, backed.2)
        end
    | Val false =>
        match extend_statements current_policy new_policy_statement with
        | Val final_policy => put final_policy
        | Exc e => (Raise e, backed.2)
        end
    end
  else put new_policy_statement.
Proof.
  intros Hfaults Htemplate Hpolicy. cbv zeta.
  assert (get_current_policy bucket_name w
          = (Ret current_policy, issue (GetBucketPolicy bucket_name) w)) as Hget.
  { rewrite get_current_policy_run, Hfaults.
    by destruct Hpolicy as [-> | [-> ->]]. }
  unfold apply_body, bind at 1. rewrite Hget. cbv beta iota.
  unfold bind at 1.
  assert (∀ w2 : world,
            files w2 !! template_path template_name = Some (Parses template) →
            load_policy_template template_name bucket_name w2
            = (Ret (replace_placeholders bucket_name template), w2)) as Hload.
  { intros w2 H2. by rewrite load_policy_template_run, H2. }
  destruct (backup && truthy current_policy) eqn:Hbackup.
  - rewrite backup_policy_run.
    apply andb_true_iff in Hbackup as [_ Htruthy]. rewrite Htruthy.
    cbv beta iota. unfold bind at 1. rewrite Hload.
    2:{ cbn [files set_files tick]. rewrite lookup_insert_ne; [done |].
        apply backup_path_not_template. }
    cbv beta iota. unfold bind, lift, ret, raise.
    destruct (policy_exists _ _) as [[|] | e]; [| | done].
    + by destruct (template_sid _).
    + destruct (extend_statements _ _); [| done].
      by rewrite put_bucket_policy_run by no_faults Hfaults.
  - unfold ret at 1. cbv beta iota. unfold bind at 1. rewrite Hload by done.
    cbv beta iota. unfold bind, lift, ret, raise.
    destruct (truthy current_policy).
    + destruct (policy_exists _ _) as [[|] | e]; [| | done].
      * by destruct (template_sid _).
      * destruct (extend_statements _ _); [| done].
        by rewrite put_bucket_policy_run by no_faults Hfaults.
    + by rewrite put_bucket_policy_run by no_faults Hfaults.
Qed.

Lemma remove_body_run (sid bucket_name : string) (current_policy : json) (w : world) :
  faults w = [] →
  policies w !! bucket_name = Some (Parses current_policy)
  ∨ (policies w !! bucket_name = None ∧ current_policy = JNull) →
  let w1 := issue (GetBucketPolicy bucket_name) w in
  remove_body sid bucket_name w =
  if truthy current_policy then
    match strip_sid sid current_policy with
    | Exc e => (Raise e, w1)
    | Val (original_count, kept, current_policy') =>
        if Nat.eqb (length kept) original_count
        then (Ret (Skipped (SidNotFound sid)), w1)
        else if truthy (JArr kept)
        then (Ret Succeeded,
              set_policies (insert bucket_name (Parses current_policy'))
                (issue (PutBucketPolicy bucket_name (Parses current_policy')) w1))
        else (Ret Succeeded,
              set_policies (delete bucket_name)
                (issue (DeleteBucketPolicy bucket_name) w1))
    end
  else (Ret (Skipped NoPolicyExists), w1).
Proof.
  intros Hfaults Hpolicy. cbv zeta.
  assert (get_current_policy bucket_name w
          = (Ret current_policy, issue (GetBucketPolicy bucket_name) w)) as Hget.
  { rewrite get_current_policy_run, Hfaults.
    by destruct Hpolicy as [-> | [-> ->]]. }
  unfold remove_body, bind at 1. rewrite Hget. cbv beta iota.
  destruct (truthy current_policy); [| done].
  unfold bind at 1, lift.
  destruct (strip_sid sid current_policy) as [[[n kept] doc] | e]; [| done].
  unfold ret at 1. cbv beta iota.
  destruct (Nat.eqb (length kept) n); [done |].
  unfold bind, ret. destruct (truthy (JArr kept)).
  - by rewrite put_bucket_policy_run by no_faults Hfaults.
  - by rewrite delete_bucket_policy_run by no_faults Hfaults.
Qed.


(** ** Documents and statement lists *)

Lemma string_eqb_refl (s : string) : String.eqb s s = true.
Proof. by apply String.eqb_eq. Qed.

Lemma py_eq_str_r (v : json) (s : string) : py_eq v (JStr s) = true ↔ v = JStr s.
Proof.
  destruct v; cbn; try (split; [discriminate | intros; discriminate]).
  rewrite String.eqb_eq. split; congruence.
Qed.

Lemma py_eq_str_l (v : json) (s : string) : py_eq (JStr s) v = true ↔ v = JStr s.
Proof.
  destruct v; cbn; try (split; [discriminate | intros; discriminate]).
  rewrite String.eqb_eq. split; congruence.
Qed.

Lemma dict_lookup_set (k : string) (v : json) (fields : list (string * json)) :
  dict_lookup k (dict_set k v fields) = Some v.
Proof.
  induction fields as [| [k' v'] fields IH]; cbn.
  - by rewrite string_eqb_refl.
  - destruct (String.eqb k k') eqn:E; cbn; [by rewrite string_eqb_refl |].
    by rewrite E.
Qed.

Lemma dict_set_same (k : string) (v : json) (fields : list (string * json)) :
  dict_lookup k fields = Some v → dict_set k v fields = fields.
Proof.
  induction fields as [| [k' v'] fields IH]; cbn; [done |].
  destruct (String.eqb k k') eqn:E.
  - apply String.eqb_eq in E as ->. by intros [= ->].
  - intros H. by rewrite IH.
Qed.

Lemma dict_lookup_replace (bucket_name k : string) (fields : list (string * json)) :
  dict_lookup k
    (map (λ kv : string * json,
            let (k, v) := kv in (k, replace_placeholders bucket_name v)) fields)
  = replace_placeholders bucket_name <$> dict_lookup k fields.
Proof.
  induction fields as [| [k' v'] fields IH]; cbn; [done |].
  by destruct (String.eqb k k').
Qed.

Lemma statements_of_truthy (policy : json) (stmts : list json) :
  statements_of policy = Some stmts → truthy policy = true.
Proof. destruct policy as [| | | | |[|]]; done. Qed.

Lemma statements_of_with (policy : json) (stmts stmts' : list json) :
  statements_of policy = Some stmts →
  statements_of (with_statements policy stmts') = Some stmts'.
Proof.
  destruct policy; try done. intros _. cbn. by rewrite dict_lookup_set.
Qed.

Lemma with_statements_same (policy : json) (stmts : list json) :
  statements_of policy = Some stmts → with_statements policy stmts = policy.
Proof.
  destruct policy as [| | | | | fields]; try done. cbn.
  destruct (dict_lookup "Statement" fields) as [[| | | | items |] |] eqn:E; try done.
  intros [= ->]. by rewrite dict_set_same.
Qed.

Lemma get_method_object (stmt : json) :
  is_object stmt = true → get_method stmt "Sid" = Val (sid_of stmt).
Proof. destruct stmt; try done. intros _. cbn. by destruct (dict_lookup _ _). Qed.

(** ** The skip test of apply *)

Lemma policy_exists_statements (policy new_policy_statement : json)
    (stmts : list json) :
  statements_of policy = Some stmts →
  policy_exists policy new_policy_statement
  = any_sid_match stmts new_policy_statement.
Proof.
  destruct policy as [| | | | | fields]; try done. unfold policy_exists. cbn.
  by destruct (dict_lookup "Statement" fields) as [[| | | | items |] |]; intros [= ->].
Qed.

(** On statements that are objects the test is [existsb]. *)
Lemma any_sid_match_objects (stmts : list json) (new_policy_statement wanted : json) :
  template_sid new_policy_statement = Val wanted →
  Forall (λ s, is_object s = true) stmts →
  any_sid_match stmts new_policy_statement
  = Val (existsb (λ s, py_eq (sid_of s) wanted) stmts).
Proof.
  intros Hsid. induction 1 as [| stmt stmts Hobj _ IH]; [done |].
  cbn [any_sid_match existsb]. rewrite (get_method_object _ Hobj), Hsid. cbn.
  destruct (py_eq (sid_of stmt) wanted); [done | by rewrite IH].
Qed.

(** The statements after the first match are not looked at. *)
Lemma any_sid_match_first (before after : list json)
    (stmt new_policy_statement wanted : json) :
  template_sid new_policy_statement = Val wanted →
  Forall (λ s, is_object s = true ∧ py_eq (sid_of s) wanted = false) before →
  is_object stmt = true →
  py_eq (sid_of stmt) wanted = true →
  any_sid_match (before ++ stmt :: after) new_policy_statement = Val true.
Proof.
  intros Hsid Hbefore Hobj Hmatch.
  induction Hbefore as [| s before [Hs Hne] _ IH]; cbn [app any_sid_match].
  - rewrite (get_method_object _ Hobj), Hsid. cbn. by rewrite Hmatch.
  - rewrite (get_method_object _ Hs), Hsid. cbn. by rewrite Hne.
Qed.

Lemma any_sid_match_app (stmts more : list json) (new_policy_statement : json) :
  any_sid_match stmts new_policy_statement = Val false →
  any_sid_match (stmts ++ more) new_policy_statement
  = any_sid_match more new_policy_statement.
Proof.
  induction stmts as [| stmt stmts IH]; [done |]. cbn [app any_sid_match].
  destruct (get_method stmt "Sid") as [sid |]; [| done]. cbn.
  destruct (template_sid new_policy_statement) as [wanted |]; [| done]. cbn.
  destruct (py_eq sid wanted); [done | apply IH].
Qed.

(** ** The filter of remove *)

Lemma without_sid_objects (sid : string) (stmts : list json) :
  Forall (λ s, is_object s = true) stmts →
  without_sid sid stmts = Val (List.filter (λ s, negb (has_sid sid s)) stmts).
Proof.
  induction 1 as [| stmt stmts Hobj _ IH]; [done |].
  cbn [without_sid List.filter]. rewrite (get_method_object _ Hobj), IH. done.
Qed.

Lemma strip_sid_objects (sid : string) (policy : json) (stmts : list json) :
  statements_of policy = Some stmts →
  Forall (λ s, is_object s = true) stmts →
  let kept := List.filter (λ s, negb (has_sid sid s)) stmts in
  strip_sid sid policy = Val (length stmts, kept, with_statements policy kept).
Proof.
  intros Hst Hobj. destruct policy as [| | | | | fields]; try done.
  unfold strip_sid. cbn in *.
  destruct (dict_lookup "Statement" fields) as [[| | | | items |] |]; try done.
  injection Hst as ->. cbn. by rewrite without_sid_objects.
Qed.

Lemma filter_length_existsb {A} (f : A → bool) (l : list A) :
  (length (List.filter (λ x, negb (f x)) l) =? length l) = negb (existsb f l).
Proof.
  assert (length (List.filter (λ x, negb (f x)) l) ≤ length l) as Hle
    by apply List.filter_length_le.
  induction l as [| x l IH]; [done |]. cbn.
  destruct (f x); cbn.
  - apply Nat.eqb_neq.
    pose proof (List.filter_length_le (λ x, negb (f x)) l). lia.
  - apply IH. apply List.filter_length_le.
Qed.

Lemma filter_none_left {A} (f : A → bool) (l : list A) :
  existsb f l = false → List.filter (λ x, negb (f x)) l = l.
Proof.
  induction l as [| x l IH]; [done |]. cbn.
  destruct (f x); cbn; [done |]. intros H. by rewrite IH.
Qed.

Lemma filter_all_gone {A} (f : A → bool) (l : list A) :
  forallb f l = true → List.filter (λ x, negb (f x)) l = [].
Proof.
  induction l as [| x l IH]; [done |]. cbn.
  destruct (f x); cbn; [apply IH | done].
Qed.

(** ** The merge of apply *)

Lemma extend_statements_lists (policy new_policy_statement : json)
    (stmts more : list json) :
  statements_of policy = Some stmts →
  statements_of new_policy_statement = Some more →
  extend_statements policy new_policy_statement
  = Val (with_statements policy (stmts ++ more)).
Proof.
  destruct policy as [| | | | | fields]; try done.
  destruct new_policy_statement as [| | | | | fields']; try done.
  unfold extend_statements. cbn.
  destruct (dict_lookup "Statement" fields) as [[| | | | items |] |]; try done.
  destruct (dict_lookup "Statement" fields') as [[| | | | items' |] |]; try done.
  by intros [= ->] [= ->].
Qed.

(** A merge that goes through was a merge into a statement list. *)
Lemma extend_statements_inv (policy new_policy_statement final : json) :
  extend_statements policy new_policy_statement = Val final →
  ∃ stmts added more,
    statements_of policy = Some stmts
    ∧ subscript new_policy_statement "Statement" = Val added
    ∧ py_iter added = Val more
    ∧ final = with_statements policy (stmts ++ more).
Proof.
  destruct policy as [| | | | | fields]; try done.
  unfold extend_statements. cbn.
  destruct (dict_lookup "Statement" fields) as [[| | | | items |] |]; try done.
  cbn. destruct (subscript new_policy_statement "Statement") as [added |]; [| done].
  cbn. destruct (py_iter added) as [more |] eqn:E; [| done]. cbn.
  intros [= <-]. by exists items, added, more.
Qed.


(** ** What processing a bucket may change *)

Lemma effect_refl (b : string) (w : world) : effect b w w.
Proof.
  repeat split; try done. exists []. by rewrite app_nil_r.
Qed.

Lemma effect_trans (b : string) (w1 w2 w3 : world) :
  effect b w1 w2 → effect b w2 w3 → effect b w1 w3.
Proof.
  intros (Hp1 & Hf1 & Hx1 & n1 & Hc1 & Hn1) (Hp2 & Hf2 & Hx2 & n2 & Hc2 & Hn2).
  repeat split.
  - intros b' Hb. by rewrite Hp2, Hp1.
  - intros p Hp. by rewrite Hf2, Hf1.
  - auto.
  - exists (n1 ++ n2). split; [by rewrite Hc2, Hc1, app_assoc |].
    by apply Forall_app.
Qed.

Section within.
Context (b : string).

Lemma within_ret {A} (a : A) : within b (ret a).
Proof. intros w. apply effect_refl. Qed.

Lemma within_raise {A} (e : exn) : within b (@raise A e).
Proof. intros w. apply effect_refl. Qed.

Lemma within_exit {A} (c : nat) : within b (@sys_exit A c).
Proof. intros w. apply effect_refl. Qed.

Lemma within_lift {A} (r : py A) : within b (lift r).
Proof. destruct r; [apply within_ret | apply within_raise]. Qed.

Lemma within_bind {A B} (m : M A) (k : A → M B) :
  within b m → (∀ a, within b (k a)) → within b (bind m k).
Proof.
  intros Hm Hk w. unfold bind. specialize (Hm w).
  destruct (m w) as [[a | e | c] w1]; [| done | done].
  eapply effect_trans; [exact Hm | apply Hk].
Qed.

Lemma within_try {A} (m : M A) (h : exn → M A) :
  within b m → (∀ e, within b (h e)) → within b (try_except m h).
Proof.
  intros Hm Hh w. unfold try_except. specialize (Hm w).
  destruct (m w) as [[a | e | c] w1]; [done | | done].
  eapply effect_trans; [exact Hm | apply Hh].
Qed.

Lemma within_request (c : s3_call) : bucket_of c = b → within b (request c).
Proof.
  intros Hc w. unfold request.
  assert (effect b w (issue c w)) as H.
  { repeat split; try done.
    - cbn. by intros ->.
    - exists [c]. split; [done | by constructor]. }
  by destruct (faults w) as [| [e |] fs].
Qed.

Lemma within_get_bucket_policy : within b (get_bucket_policy b).
Proof.
  apply within_bind; [by apply within_request |].
  intros _ w. destruct (policies w !! b); apply effect_refl.
Qed.

Lemma within_put_bucket_policy (policy : text) :
  within b (put_bucket_policy b policy).
Proof.
  apply within_bind; [by apply within_request |].
  intros _ w. repeat split; try done.
  - intros b' Hb. cbn. by rewrite lookup_insert_ne.
  - exists []. by rewrite app_nil_r.
Qed.

Lemma within_delete_bucket_policy : within b (delete_bucket_policy b).
Proof.
  apply within_bind; [by apply within_request |].
  intros _ w. repeat split; try done.
  - intros b' Hb. cbn. by rewrite lookup_delete_ne.
  - exists []. by rewrite app_nil_r.
Qed.

Lemma within_get_current_policy : within b (get_current_policy b).
Proof.
  apply within_try.
  - apply within_bind; [apply within_get_bucket_policy |].
    intros t. apply within_lift.
  - intros [code | | | | | | | |]; try apply within_raise.
    destruct (String.eqb code _); [apply within_ret | apply within_raise].
Qed.

Lemma within_load_policy_template (template_name bucket_name : string) :
  within b (load_policy_template template_name bucket_name).
Proof.
  intros w. rewrite load_policy_template_run. apply effect_refl.
Qed.

Lemma within_backup_policy (policy : json) (bucket_name account_id : string) :
  within b (backup_policy policy bucket_name account_id).
Proof.
  intros w. rewrite backup_policy_run.
  destruct (truthy policy); [| apply effect_refl].
  repeat split; try done.
  - intros p Hp. cbn. rewrite lookup_insert_ne; [done |].
    intros <-. by rewrite backup_path_is_backup in Hp.
  - exists []. by rewrite app_nil_r.
Qed.

Lemma within_apply_body (template_name : string) (backup : bool)
    (account_id : string) :
  within b (apply_body template_name backup account_id b).
Proof.
  unfold apply_body.
  apply within_bind; [apply within_get_current_policy | intros current_policy].
  apply within_bind.
  { destruct (_ && _); [apply within_backup_policy | apply within_ret]. }
  intros backup_file.
  apply within_bind; [apply within_load_policy_template | intros new].
  destruct (truthy current_policy).
  - apply within_bind; [apply within_lift | intros [|]].
    + apply within_bind; [apply within_lift | intros; apply within_ret].
    + apply within_bind; [apply within_lift | intros final].
      apply within_bind; [apply within_put_bucket_policy | intros; apply within_ret].
  - apply within_bind; [apply within_put_bucket_policy | intros; apply within_ret].
Qed.

Lemma within_remove_body (sid : string) : within b (remove_body sid b).
Proof.
  unfold remove_body.
  apply within_bind; [apply within_get_current_policy | intros current_policy].
  destruct (truthy current_policy); [| apply within_ret].
  apply within_bind; [apply within_lift | intros [[n kept] doc]].
  destruct (Nat.eqb _ _); [apply within_ret |].
  apply within_bind; [| intros; apply within_ret].
  destruct (truthy _);
    [apply within_put_bucket_policy | apply within_delete_bucket_policy].
Qed.
End within.

(** ** Leaving through [sys.exit] *)

Lemma safe_ret {A} (a : A) : safe (ret a).
Proof. by intros w c. Qed.

Lemma safe_raise {A} (e : exn) : safe (@raise A e).
Proof. by intros w c. Qed.

Lemma safe_lift {A} (r : py A) : safe (lift r).
Proof. destruct r; [apply safe_ret | apply safe_raise]. Qed.

Lemma safe_bind {A B} (m : M A) (k : A → M B) :
  safe m → (∀ a, safe (k a)) → safe (bind m k).
Proof.
  intros Hm Hk w c. unfold bind. specialize (Hm w).
  destruct (m w) as [[a | e | c'] w1]; [apply Hk | done | by destruct (Hm c')].
Qed.

Lemma safe_put_bucket_policy (b : string) (policy : text) :
  safe (put_bucket_policy b policy).
Proof.
  intros w c. rewrite put_bucket_policy_any. by destruct (faults w) as [| [e |] fs].
Qed.

Lemma safe_delete_bucket_policy (b : string) : safe (delete_bucket_policy b).
Proof.
  intros w c. rewrite delete_bucket_policy_any.
  by destruct (faults w) as [| [e |] fs].
Qed.

Lemma safe_get_current_policy (b : string) : safe (get_current_policy b).
Proof.
  intros w c. rewrite get_current_policy_run.
  destruct (faults w) as [| [[code | | | | | | | |] |] fs]; try done;
    try (by destruct (policies w !! b) as [[doc | |] |]).
  cbn. by destruct (String.eqb code _).
Qed.

Lemma safe_backup_policy (policy : json) (bucket_name account_id : string) :
  safe (backup_policy policy bucket_name account_id).
Proof. intros w c. rewrite backup_policy_run. by destruct (truthy policy). Qed.

Lemma safe_remove_body (sid b : string) : safe (remove_body sid b).
Proof.
  unfold remove_body.
  apply safe_bind; [apply safe_get_current_policy | intros current_policy].
  destruct (truthy current_policy); [| apply safe_ret].
  apply safe_bind; [apply safe_lift | intros [[n kept] doc]].
  destruct (Nat.eqb _ _); [apply safe_ret |].
  apply safe_bind; [| intros; apply safe_ret].
  destruct (truthy _);
    [apply safe_put_bucket_policy | apply safe_delete_bucket_policy].
Qed.

(** With the template in place, the body of apply does not exit either. *)
Lemma apply_body_no_exit (template_name : string) (backup : bool)
    (account_id b : string) (template : json) (w : world) (c : nat) :
  files w !! template_path template_name = Some (Parses template) →
  (apply_body template_name backup account_id b w).1 ≠ Exit c.
Proof.
  intros Htemplate. unfold apply_body, bind at 1.
  pose proof (within_get_current_policy b w) as (_ & Hf1 & _).
  pose proof (safe_get_current_policy b w) as Hs1.
  destruct (get_current_policy b w) as [[current_policy | e | c1] w1];
    [| done | by destruct (Hs1 c1)].
  unfold bind at 1.
  set (backing := if backup && truthy current_policy
                  then backup_policy current_policy b account_id else ret None).
  assert (within b backing ∧ safe backing) as [Hw2 Hs2].
  { subst backing. destruct (_ && _).
    - split; [apply within_backup_policy | apply safe_backup_policy].
    - split; [apply within_ret | apply safe_ret]. }
  specialize (Hw2 w1) as (_ & Hf2 & _). specialize (Hs2 w1).
  destruct (backing w1) as [[backup_file | e | c2] w2];
    [| done | by destruct (Hs2 c2)].
  unfold bind at 1. rewrite load_policy_template_run.
  cbn [fst snd] in *.
  rewrite Hf2, Hf1, Htemplate by apply template_path_not_backup.
  cbv beta iota.
  match goal with |- (?m w2).1 ≠ Exit c => cut (safe m); [by intros H | ] end.
  destruct (truthy current_policy).
  - apply safe_bind; [apply safe_lift | intros [|]].
    + apply safe_bind; [apply safe_lift | intros; apply safe_ret].
    + apply safe_bind; [apply safe_lift | intros final].
      apply safe_bind; [apply safe_put_bucket_policy | intros; apply safe_ret].
  - apply safe_bind; [apply safe_put_bucket_policy | intros; apply safe_ret].
Qed.

(** ** The loop over the buckets *)

Lemma step_run (body : string → M result) (b : string) (w : world) :
  try_except (body b) (λ e, ret (Failed e)) w
  = (match (body b w).1 with
     | Ret r => Ret r
     | Raise e => Ret (Failed e)
     | Exit c => Exit c
     end, (body b w).2).
Proof. unfold try_except. by destruct (body b w) as [[r | e | c] w1]. Qed.

Lemma for_each_bucket_cons (body : string → M result) (b : string)
    (rest : list string) (results : gmap string result) (w : world) (r : result) :
  entry_of (body b w).1 = Some r →
  for_each_bucket body (b :: rest) results w
  = for_each_bucket body rest (<[b := r]> results) (body b w).2.
Proof.
  intros Hr. cbn [for_each_bucket]. unfold bind. rewrite step_run.
  destruct (body b w) as [[r' | e | c] w1]; cbn in *; by simplify_eq.
Qed.

(** A loop whose bodies do not exit runs to its end, and [Inv] holds
    there if every round keeps it. *)
Lemma for_each_bucket_invariant (body : string → M result)
    (Inv : gmap string result → world → Prop) (bucket_list : list string) :
  (∀ b results w, b ∈ bucket_list → Inv results w →
     ∃ r, entry_of (body b w).1 = Some r ∧ Inv (<[b := r]> results) (body b w).2) →
  ∀ results w, Inv results w →
  ∃ results' w', for_each_bucket body bucket_list results w = (Ret results', w')
                 ∧ Inv results' w'.
Proof.
  induction bucket_list as [| b rest IH]; intros Hstep results w HInv.
  - by exists results, w.
  - destruct (Hstep b results w) as (r & Hr & HInv'); [left | done |].
    rewrite (for_each_bucket_cons _ _ _ _ _ _ Hr).
    apply IH; [| done]. intros b' results' w' Hb'. apply Hstep. by right.
Qed.

(** The entries of the buckets that are not in the list stay. *)
Lemma for_each_bucket_other (body : string → M result) (bucket_list : list string)
    (b : string) (results results' : gmap string result) (w w' : world) :
  b ∉ bucket_list →
  for_each_bucket body bucket_list results w = (Ret results', w') →
  results' !! b = results !! b.
Proof.
  revert results w. induction bucket_list as [| b' rest IH]; intros results w Hb.
  - by intros [= -> ->].
  - apply not_elem_of_cons in Hb as [Hne Hb]. cbn [for_each_bucket].
    unfold bind. rewrite step_run.
    destruct (body b' w) as [[r | e | c] w1]; cbn; [| | done].
    + intros H. rewrite (IH _ _ Hb H). by rewrite lookup_insert_ne.
    + intros H. rewrite (IH _ _ Hb H). by rewrite lookup_insert_ne.
Qed.



(** ** Failures stay with their bucket *)

Lemma for_each_bucket_entries (body : string → M result) (bucket_list : list string)
    (results results' : gmap string result) (w w' : world) :
  for_each_bucket body bucket_list results w = (Ret results', w') →
  ∀ b, is_Some (results' !! b) ↔ b ∈ bucket_list ∨ is_Some (results !! b).
Proof.
  revert results w. induction bucket_list as [| b' rest IH]; intros results w.
  - intros [= -> ->] b. rewrite elem_of_nil. tauto.
  - cbn [for_each_bucket]. unfold bind. rewrite step_run.
    assert (∀ r b, is_Some (<[b' := r]> results !! b)
                   ↔ b = b' ∨ is_Some (results !! b)) as Hins.
    { intros r b. rewrite lookup_insert_is_Some. split.
      - intros [-> | [_ H]]; [by left | by right].
      - intros [-> | H]; [by left |].
        destruct (decide (b' = b)); [by left | by right]. }
    destruct (body b' w) as [[r | e | c] w1]; cbn; [| | done];
      intros H b; rewrite (IH _ _ H b), Hins, elem_of_cons; tauto.
Qed.

Lemma for_each_bucket_total (body : string → M result) (P : world → Prop)
    (bucket_list : list string) (results : gmap string result) (w : world) :
  (∀ b w, P w → (∀ c, (body b w).1 ≠ Exit c) ∧ P (body b w).2) →
  P w →
  ∃ results' w', for_each_bucket body bucket_list results w = (Ret results', w')
                 ∧ P w'.
Proof.
  intros Hbody HP.
  apply (for_each_bucket_invariant body (λ _ w, P w)); [| done].
  intros b res w0 _ HP0. destruct (Hbody b w0 HP0) as [Hsafe HP1].
  destruct (body b w0) as [[r | e | c] w1]; cbn in *; eauto.
  by destruct (Hsafe c).
Qed.




(** ** Apply *)

Lemma writes_policy_of_other (b : string) (c : s3_call) :
  bucket_of c ≠ b → writes_policy_of b c = false.
Proof.
  destruct c as [b' | b' t | b']; cbn; [done | |];
    intros H; apply String.eqb_neq; congruence.
Qed.

(** The round of a bucket whose policy passes the skip test. *)
Lemma apply_body_skips (template_name : string) (backup : bool)
    (account_id b : string) (template current_policy wanted : json) (w : world) :
  faults w = [] →
  files w !! template_path template_name = Some (Parses template) →
  policies w !! b = Some (Parses current_policy) →
  truthy current_policy = true →
  policy_exists current_policy (replace_placeholders b template) = Val true →
  template_sid (replace_placeholders b template) = Val wanted →
  ∃ w', apply_body template_name backup account_id b w
        = (Ret (Skipped (SidAlreadyExists wanted)), w')
        ∧ policies w' = policies w
        ∧ faults w' = []
        ∧ files w' !! template_path template_name = Some (Parses template)
        ∧ calls w' = calls w ++ [GetBucketPolicy b].
Proof.
  intros Hfaults Htemplate Hpolicy Htruthy Hexists Hsid.
  rewrite (apply_body_run _ _ _ _ template current_policy) by auto.
  rewrite Htruthy, Hexists, Hsid.
  eexists. split; [reflexivity |].
  destruct (backup && true); cbn [snd policies faults files calls set_files tick issue];
    rewrite ?Hfaults; repeat split; try done.
  rewrite lookup_insert_ne; [done | apply backup_path_not_template].
Qed.

(** C9.  Apply skip does not mutate.  When the policy stored for a bucket
    of the list has a statement with the Sid of the template's statement,
    apply issues no request that writes the policy of that bucket, the
    stored policy is after the run what it was before, and the entry of
    the bucket says skipped.  (No request runs into a fault, the template
    is in place and the statements of the stored policy are objects.) *)
Theorem apply_skip_does_not_mutate
    (bucket_list : list string) (template_name : string) (backup : bool)
    (account_id b : string) (template current_policy wanted : json)
    (stmts : list json) (w : world) :
  faults w = [] →
  files w !! template_path template_name = Some (Parses template) →
  template_sid (replace_placeholders b template) = Val wanted →
  policies w !! b = Some (Parses current_policy) →
  statements_of current_policy = Some stmts →
  Forall (λ s, is_object s = true) stmts →
  existsb (λ s, py_eq (sid_of s) wanted) stmts = true →
  b ∈ bucket_list →
  ∃ results w',
    apply_policy bucket_list template_name backup account_id w = (Ret results, w')
    ∧ status_of <$> results !! b = Some skipped
    ∧ policies w' !! b = policies w !! b
    ∧ ∃ new, calls w' = calls w ++ new
             ∧ Forall (λ c, writes_policy_of b c = false) new.
Proof.
  intros Hfaults Htemplate Hsid Hpolicy Hstmts Hobj Hmatch Hin.
  set (Inv := λ (results : gmap string result) (w0 : world),
         faults w0 = []
         ∧ files w0 !! template_path template_name = Some (Parses template)
         ∧ policies w0 !! b = Some (Parses current_policy)
         ∧ (∃ new, calls w0 = calls w ++ new
                   ∧ Forall (λ c, writes_policy_of b c = false) new)
         ∧ (∀ r, results !! b = Some r → status_of r = skipped)).
  destruct (for_each_bucket_invariant
              (apply_body template_name backup account_id) Inv bucket_list)
    with (results := (∅ : gmap string result)) (w := w)
    as (results & w' & Hrun & Hf & Ht & Hp & Hc & Hr).
  - intros b' res w0 _ (Hf0 & Ht0 & Hp0 & (new & Hc0 & Hn0) & Hr0).
    destruct (decide (b' = b)) as [-> | Hne].
    + destruct (apply_body_skips template_name backup account_id b template
                  current_policy wanted w0)
        as (w1 & Hbody & Hp1 & Hf1 & Ht1 & Hc1); try done.
      { by eapply statements_of_truthy. }
      { rewrite (policy_exists_statements _ _ _ Hstmts).
        by rewrite (any_sid_match_objects _ _ _ Hsid Hobj), Hmatch. }
      rewrite Hbody. eexists. split; [reflexivity |]. cbn [snd].
      repeat split; try done.
      * by rewrite Hp1.
      * exists (new ++ [GetBucketPolicy b]). rewrite Hc1, Hc0, app_assoc.
        split; [done |]. apply Forall_app. split; [done | by repeat constructor].
      * intros r. rewrite lookup_insert_eq. by intros [= <-].
    + destruct (within_apply_body b' template_name backup account_id w0)
        as (Hp1 & Hf1 & Hx1 & new1 & Hc1 & Hn1).
      pose proof (apply_body_no_exit template_name backup account_id b' template
                    w0) as Hsafe.
      destruct (apply_body template_name backup account_id b' w0)
        as [[r | e | c] w1]; cbn [fst snd] in *;
        [exists r | exists (Failed e) | by destruct (Hsafe c Ht0)].
      all: split; [done |]; repeat split; auto.
      all: try (by rewrite Hf1 by apply template_path_not_backup).
      all: try (by rewrite Hp1).
      all: try (exists (new ++ new1); rewrite Hc1, Hc0, app_assoc; split; [done |];
                apply Forall_app; split; [done |];
                eapply Forall_impl; [exact Hn1 |];
                intros c Hc; apply writes_policy_of_other; congruence).
      all: intros r'; rewrite lookup_insert_ne by done; apply Hr0.
  - repeat split; try done. exists []. by rewrite app_nil_r.
  - exists results, w'. repeat split; try done.
    + assert (is_Some (results !! b)) as [r Hsome].
      { apply (for_each_bucket_entries _ _ _ _ _ _ Hrun). by left. }
      rewrite Hsome. cbn. f_equal. by apply Hr.
    + by rewrite Hp, Hpolicy.
Qed.

(** ** A run on one bucket *)

Lemma for_each_bucket_single (body : string → M result) (b : string) (w : world) :
  for_each_bucket body [b] ∅ w
  = (match entry_of (body b w).1 with
     | Some r => Ret (<[b := r]> ∅)
     | None => match (body b w).1 with Exit c => Exit c | _ => Exit 0 end
     end, (body b w).2).
Proof.
  cbn [for_each_bucket]. unfold bind. rewrite step_run.
  by destruct (body b w) as [[r | e | c] w1].
Qed.

Lemma apply_body_unparsable (template_name : string) (backup : bool)
    (account_id b : string) (w : world) :
  faults w = [] →
  policies w !! b = Some Unparsable →
  (apply_body template_name backup account_id b w).1 = Raise JSONDecodeError.
Proof.
  intros Hfaults Hpolicy. unfold apply_body, bind at 1.
  by rewrite get_current_policy_run, Hfaults, Hpolicy.
Qed.

Lemma apply_body_undecodable (template_name : string) (backup : bool)
    (account_id b : string) (w : world) :
  faults w = [] →
  policies w !! b = Some Undecodable →
  (apply_body template_name backup account_id b w).1 = Raise UnicodeDecodeError.
Proof.
  intros Hfaults Hpolicy. unfold apply_body, bind at 1.
  by rewrite get_current_policy_run, Hfaults, Hpolicy.
Qed.

(** The template with one statement that has a Sid, once loaded. *)
Lemma loaded_template_sid (b sid : string) (template : json)
    (fields : list (string * json)) :
  statements_of template = Some [JObj fields] →
  dict_lookup "Sid" fields = Some (JStr sid) →
  let new := replace_placeholders b template in
  let wanted := JStr (str_replace sid placeholder b) in
  ∃ stmt, statements_of new = Some [stmt]
          ∧ template_sid new = Val wanted
          ∧ subscript new "Statement" = Val (JArr [stmt])
          ∧ any_sid_match [stmt] new = Val true.
Proof.
  intros Hstmts Hsid. cbv zeta.
  destruct template as [| | | | | tfields]; try done. cbn in Hstmts.
  destruct (dict_lookup "Statement" tfields) as [[| | | | items |] |] eqn:Hlook;
    try done.
  injection Hstmts as ->.
  set (new := replace_placeholders b (JObj tfields)).
  set (stmt := replace_placeholders b (JObj fields)).
  assert (subscript new "Statement" = Val (JArr [stmt])) as Hsub.
  { subst new. cbn [replace_placeholders subscript].
    by rewrite dict_lookup_replace, Hlook. }
  assert (get_method stmt "Sid" = Val (JStr (str_replace sid placeholder b)))
    as Hget.
  { subst stmt. cbn [replace_placeholders get_method].
    by rewrite dict_lookup_replace, Hsid. }
  assert (template_sid new = Val (JStr (str_replace sid placeholder b))) as Hwanted.
  { unfold template_sid. rewrite Hsub. cbn [py_bind subscript0].
    subst stmt. cbn [replace_placeholders subscript].
    by rewrite dict_lookup_replace, Hsid. }
  exists stmt. repeat split; try done.
  - subst new. cbn [replace_placeholders statements_of].
    by rewrite dict_lookup_replace, Hlook.
  - cbn [any_sid_match]. rewrite Hget, Hwanted. cbn. by rewrite string_eqb_refl.
Qed.

(** C1.  Merge-skip idempotence.  The template has exactly one statement,
    with a Sid.  Once the template has been applied to a bucket (the
    first run did not report an error for it), applying it a second time
    reports skipped for the bucket and leaves the stored policies as the
    first run left them, so the statement count of the bucket's policy is
    unchanged by the second run.  (No request runs into a fault.) *)
Theorem merge_skip_idempotent
    (template_name : string) (backup : bool) (account_id b sid : string)
    (template : json) (fields : list (string * json))
    (w w1 : world) (results1 : gmap string result) :
  faults w = [] →
  files w !! template_path template_name = Some (Parses template) →
  statements_of template = Some [JObj fields] →
  dict_lookup "Sid" fields = Some (JStr sid) →
  apply_policy [b] template_name backup account_id w = (Ret results1, w1) →
  status_of <$> results1 !! b ≠ Some error →
  ∃ results2 w2,
    apply_policy [b] template_name backup account_id w1 = (Ret results2, w2)
    ∧ status_of <$> results2 !! b = Some skipped
    ∧ policies w2 = policies w1
    ∧ statement_count w2 b = statement_count w1 b.
Proof.
  intros Hfaults Htemplate Hstmts Hsid Hrun1 Hok.
  destruct (loaded_template_sid b sid template fields Hstmts Hsid)
    as (stmt & Hnew & Hwanted & Hsub & Hself).
  set (new := replace_placeholders b template) in *.
  set (wanted := JStr (str_replace sid placeholder b)) in *.
  (* what the first run left *)
  assert (∃ doc, faults w1 = []
                 ∧ files w1 !! template_path template_name = Some (Parses template)
                 ∧ policies w1 !! b = Some (Parses doc)
                 ∧ truthy doc = true
                 ∧ policy_exists doc new = Val true) as (doc & Hf1 & Ht1 & Hp1 & Hd1 & He1).
  { unfold apply_policy in Hrun1. rewrite for_each_bucket_single in Hrun1.
    destruct (policies w !! b) as [[current_policy | |] |] eqn:Hpolicy.
    - (* a policy is stored *)
      rewrite (apply_body_run _ _ _ _ template current_policy) in Hrun1 by auto.
      fold new in Hrun1.
      destruct (truthy current_policy) eqn:Htruthy.
      + destruct (policy_exists current_policy new) as [[|] | e] eqn:Hexists.
        * rewrite Hwanted in Hrun1. cbn in Hrun1. injection Hrun1 as <- <-.
          exists current_policy.
          destruct (backup && true);
            cbn [snd policies faults files set_files tick issue];
            rewrite ?Hfaults; repeat split; try done.
          rewrite lookup_insert_ne; [done | apply backup_path_not_template].
        * destruct (extend_statements current_policy new) as [final |] eqn:Hext.
          -- cbn in Hrun1. injection Hrun1 as <- <-.
             destruct (extend_statements_inv _ _ _ Hext)
               as (stmts & added & more & Hcur & Hadded & Hmore & ->).
             rewrite Hsub in Hadded. injection Hadded as <-.
             cbn in Hmore. injection Hmore as <-.
             exists (with_statements current_policy (stmts ++ [stmt])).
             assert (statements_of (with_statements current_policy (stmts ++ [stmt]))
                     = Some (stmts ++ [stmt])) as Hfinal
               by (by eapply statements_of_with).
             rewrite (policy_exists_statements _ _ _ Hcur) in Hexists.
             repeat split.
             ++ destruct (backup && true);
                  cbn [snd faults set_policies set_files tick issue];
                  by rewrite Hfaults.
             ++ destruct (backup && true);
                  cbn [snd files set_policies set_files tick issue]; [| done].
                rewrite lookup_insert_ne; [done | apply backup_path_not_template].
             ++ cbn [policies set_policies]. apply lookup_insert_eq.
             ++ by eapply statements_of_truthy.
             ++ rewrite (policy_exists_statements _ _ _ Hfinal).
                by rewrite (any_sid_match_app _ _ _ Hexists).
          -- cbn in Hrun1. injection Hrun1 as <- <-.
             rewrite lookup_insert_eq in Hok. by destruct Hok.
        * cbn in Hrun1. injection Hrun1 as <- <-.
          rewrite lookup_insert_eq in Hok. by destruct Hok.
      + rewrite andb_false_r in Hrun1. cbn in Hrun1. injection Hrun1 as <- <-.
        exists new. repeat split.
        * cbn. by rewrite Hfaults.
        * done.
        * cbn [policies set_policies]. apply lookup_insert_eq.
        * by eapply statements_of_truthy.
        * by rewrite (policy_exists_statements _ _ _ Hnew).
    - (* the stored text is no JSON *)
      pose proof (apply_body_unparsable template_name backup account_id b w
                    Hfaults Hpolicy) as Hraise.
      rewrite Hraise in Hrun1. cbn in Hrun1. injection Hrun1 as <- <-.
      rewrite lookup_insert_eq in Hok. by destruct Hok.
    - (* the stored bytes are no text *)
      pose proof (apply_body_undecodable template_name backup account_id b w
                    Hfaults Hpolicy) as Hraise.
      rewrite Hraise in Hrun1. cbn in Hrun1. injection Hrun1 as <- <-.
      rewrite lookup_insert_eq in Hok. by destruct Hok.
    - (* no policy is stored *)
      rewrite (apply_body_run _ _ _ _ template JNull) in Hrun1 by auto.
      rewrite andb_false_r in Hrun1. cbn in Hrun1. injection Hrun1 as <- <-.
      exists new. repeat split.
      + cbn. by rewrite Hfaults.
      + done.
      + cbn [policies set_policies]. apply lookup_insert_eq.
      + by eapply statements_of_truthy.
      + by rewrite (policy_exists_statements _ _ _ Hnew). }
  (* the second run *)
  destruct (apply_body_skips template_name backup account_id b template doc wanted
              w1 Hf1 Ht1 Hp1 Hd1 He1 Hwanted)
    as (w2 & Hbody & Hp2 & _).
  exists (<[b := Skipped (SidAlreadyExists wanted)]> ∅), w2.
  unfold apply_policy. rewrite for_each_bucket_single, Hbody. cbn [fst snd entry_of].
  repeat split; try done.
  - by rewrite lookup_insert_eq.
  - unfold statement_count, stored_policy. by rewrite Hp2.
Qed.

(** A run on one bucket ends, with an entry for the bucket. *)
Lemma apply_policy_single (template_name : string) (backup : bool)
    (account_id b : string) (template : json) (w : world) :
  files w !! template_path template_name = Some (Parses template) →
  ∃ r, entry_of (apply_body template_name backup account_id b w).1 = Some r
       ∧ apply_policy [b] template_name backup account_id w
         = (Ret (<[b := r]> ∅), (apply_body template_name backup account_id b w).2).
Proof.
  intros Htemplate. unfold apply_policy. rewrite for_each_bucket_single.
  pose proof (apply_body_no_exit template_name backup account_id b template w)
    as Hsafe.
  destruct (apply_body template_name backup account_id b w) as [[r | e | c] w1];
    cbn in *; eauto.
  by destruct (Hsafe c).
Qed.




(** ** The backup is taken before the merge *)

(** With backups on and a non-empty policy stored, the file written for
    the bucket holds the policy as it was fetched, whatever apply then
    does with it, and a success entry names the file. *)
Lemma apply_backs_up_first (template_name account_id b : string)
    (template current_policy : json) (w : world) :
  faults w = [] →
  files w !! template_path template_name = Some (Parses template) →
  policies w !! b = Some (Parses current_policy) →
  truthy current_policy = true →
  let path := backup_path account_id b (clock w (ticks w)) in
  ∃ results w',
    apply_policy [b] template_name true account_id w = (Ret results, w')
    ∧ files w' !! path = Some (Parses current_policy)
    ∧ (status_of <$> results !! b = Some success →
       results !! b = Some (Applied (Some path))).
Proof.
  intros Hfaults Htemplate Hpolicy Htruthy path.
  destruct (apply_policy_single template_name true account_id b template w
              Htemplate) as (r & Hr & Hrun).
  eexists _, _. split; [exact Hrun |]. rewrite lookup_insert_eq.
  rewrite (apply_body_run _ _ _ _ template current_policy) in Hr |- * by auto.
  rewrite Htruthy in Hr |- *. cbn [andb fst snd] in Hr |- *. fold path in Hr |- *.
  destruct (policy_exists current_policy _) as [[|] | e].
  - destruct (template_sid _); cbn in Hr |- *; injection Hr as <-;
      (split; [apply lookup_insert_eq | done]).
  - destruct (extend_statements current_policy _); cbn in Hr |- *;
      injection Hr as <-; (split; [apply lookup_insert_eq | done]).
  - cbn in Hr |- *. injection Hr as <-. split; [apply lookup_insert_eq | done].
Qed.


(** ** Remove *)

Lemma remove_policy_single (sid b : string) (w : world) :
  ∃ r, entry_of (remove_body sid b w).1 = Some r
       ∧ remove_policy [b] sid w = (Ret (<[b := r]> ∅), (remove_body sid b w).2).
Proof.
  unfold remove_policy. rewrite for_each_bucket_single.
  pose proof (safe_remove_body sid b w) as Hsafe.
  destruct (remove_body sid b w) as [[r | e | c] w1]; cbn in *; eauto.
  by destruct (Hsafe c).
Qed.

(** The round of a bucket whose policy is a list of statement objects. *)
Lemma remove_body_objects (sid b : string) (current_policy : json)
    (stmts : list json) (w : world) :
  faults w = [] →
  policies w !! b = Some (Parses current_policy) →
  statements_of current_policy = Some stmts →
  Forall (λ s, is_object s = true) stmts →
  let kept := List.filter (λ s, negb (has_sid sid s)) stmts in
  let w1 := issue (GetBucketPolicy b) w in
  let filtered := Parses (with_statements current_policy kept) in
  remove_body sid b w =
  if existsb (has_sid sid) stmts then
    match kept with
    | [] => (Ret Succeeded,
             set_policies (delete b) (issue (DeleteBucketPolicy b) w1))
    | _ :: _ => (Ret Succeeded,
                 set_policies (insert b filtered)
                   (issue (PutBucketPolicy b filtered) w1))
    end
  else (Ret (Skipped (SidNotFound sid)), w1).
Proof.
  intros Hfaults Hpolicy Hstmts Hobj. cbv zeta.
  rewrite (remove_body_run _ _ current_policy) by auto.
  rewrite (statements_of_truthy _ _ Hstmts).
  rewrite (strip_sid_objects sid _ _ Hstmts Hobj).
  rewrite (filter_length_existsb (has_sid sid)).
  destruct (existsb (has_sid sid) stmts); [| done]. cbn [negb].
  by destruct (List.filter _ stmts).
Qed.

Lemma filter_shorter {A} (f : A → bool) (l : list A) :
  existsb f l = true → length (List.filter (λ x, negb (f x)) l) < length l.
Proof.
  intros H. pose proof (filter_length_existsb f l) as Heq.
  rewrite H in Heq. apply Nat.eqb_neq in Heq.
  pose proof (List.filter_length_le (λ x, negb (f x)) l). lia.
Qed.

Lemma filter_without {A} (f : A → bool) (l : list A) :
  Forall (λ x, f x = false) (List.filter (λ x, negb (f x)) l).
Proof.
  apply Forall_forall. intros x Hx. apply list_elem_of_In, List.filter_In in Hx.
  destruct Hx as [_ Hx]. by apply negb_true_iff.
Qed.

(** A run of remove on one bucket whose policy is a list of statement
    objects. *)
Lemma remove_policy_objects
    (b sid : string) (current_policy : json) (stmts : list json) (w : world) :
  faults w = [] →
  policies w !! b = Some (Parses current_policy) →
  statements_of current_policy = Some stmts →
  Forall (λ s, is_object s = true) stmts →
  let kept := List.filter (λ s, negb (has_sid sid s)) stmts in
  let w1 := issue (GetBucketPolicy b) w in
  let filtered := Parses (with_statements current_policy kept) in
  remove_policy [b] sid w =
  if existsb (has_sid sid) stmts then
    match kept with
    | [] => (Ret (<[b := Succeeded]> ∅),
             set_policies (delete b) (issue (DeleteBucketPolicy b) w1))
    | _ :: _ => (Ret (<[b := Succeeded]> ∅),
                 set_policies (insert b filtered)
                   (issue (PutBucketPolicy b filtered) w1))
    end
  else (Ret (<[b := Skipped (SidNotFound sid)]> ∅), w1).
Proof.
  intros Hfaults Hpolicy Hstmts Hobj. cbv zeta.
  unfold remove_policy. rewrite for_each_bucket_single.
  rewrite (remove_body_objects sid b current_policy stmts) by done.
  destruct (existsb (has_sid sid) stmts); [| done].
  by destruct (List.filter _ stmts).
Qed.

(** C2, as amended.  Remove correctness.  The stored policy is a list of
    statement objects.  When some statement has the target Sid, remove
    takes out every statement that has it, so the count goes down by at
    least one, and reports success; it uploads the filtered document when
    a statement is left, and deletes the policy of the bucket when none
    is.  When no statement has the target Sid the count is unchanged, no
    policy is written and the entry says skipped, not found.  (No request
    runs into a fault.) *)
Theorem remove_correct
    (b sid : string) (current_policy : json) (stmts : list json) (w : world) :
  faults w = [] →
  policies w !! b = Some (Parses current_policy) →
  statements_of current_policy = Some stmts →
  Forall (λ s, is_object s = true) stmts →
  let kept := List.filter (λ s, negb (has_sid sid s)) stmts in
  let filtered := Parses (with_statements current_policy kept) in
  ∃ results w',
    remove_policy [b] sid w = (Ret results, w')
    ∧ (existsb (has_sid sid) stmts = true →
       results !! b = Some Succeeded
       ∧ length kept < length stmts
       ∧ Forall (λ s, has_sid sid s = false) kept
       ∧ (kept ≠ [] →
          calls w' = calls w ++ [GetBucketPolicy b; PutBucketPolicy b filtered]
          ∧ policies w' = <[b := filtered]> (policies w)
          ∧ statement_count w' b = Some (length kept))
       ∧ (kept = [] →
          calls w' = calls w ++ [GetBucketPolicy b; DeleteBucketPolicy b]
          ∧ policies w' = delete b (policies w)))
    ∧ (existsb (has_sid sid) stmts = false →
       results !! b = Some (Skipped (SidNotFound sid))
       ∧ kept = stmts
       ∧ calls w' = calls w ++ [GetBucketPolicy b]
       ∧ policies w' = policies w).
Proof.
  intros Hfaults Hpolicy Hstmts Hobj kept filtered.
  rewrite (remove_policy_objects b sid current_policy stmts) by done.
  fold kept. fold filtered.
  destruct (existsb (has_sid sid) stmts) eqn:Hex.
  - pose proof (filter_shorter (has_sid sid) stmts Hex) as Hshorter.
    pose proof (filter_without (has_sid sid) stmts) as Hwithout.
    fold kept in Hshorter, Hwithout.
    destruct kept as [| stmt rest] eqn:Hkept;
      (eexists _, _; split; [reflexivity |]; split; [| done]);
      intros _; rewrite lookup_insert_eq; repeat split; try done.
    + cbn. by rewrite <- app_assoc.
    + cbn. by rewrite <- app_assoc.
    + unfold statement_count, stored_policy.
      cbn [policies set_policies]. rewrite lookup_insert_eq. cbn.
      subst filtered. by rewrite (statements_of_with _ _ _ Hstmts).
  - eexists _, _. split; [reflexivity |]. split; [done |].
    intros _. rewrite lookup_insert_eq. repeat split.
    by apply filter_none_left.
Qed.

Lemma filter_nil_forallb {A} (f : A → bool) (l : list A) :
  List.filter (λ x, negb (f x)) l = [] ↔ forallb f l = true.
Proof.
  split; [| apply filter_all_gone].
  induction l as [| x l IH]; [done |]. cbn.
  destruct (f x); cbn; [exact IH | done].
Qed.

(** C4.  Full removal triggers deletion.  The stored policy is a list of
    statement objects and the target Sid is on some statement.  When all
    the statements have it, remove issues a delete of the bucket policy
    and no upload, and the bucket has no policy afterwards.  When a
    statement is left, the one write issued is the upload of the filtered
    document, whose statement list is the non-empty list of the
    statements left.  (No request runs into a fault.) *)
Theorem full_removal_deletes
    (b sid : string) (current_policy : json) (stmts : list json) (w : world) :
  faults w = [] →
  policies w !! b = Some (Parses current_policy) →
  statements_of current_policy = Some stmts →
  Forall (λ s, is_object s = true) stmts →
  existsb (has_sid sid) stmts = true →
  let kept := List.filter (λ s, negb (has_sid sid s)) stmts in
  let filtered := with_statements current_policy kept in
  ∃ results w',
    remove_policy [b] sid w = (Ret results, w')
    ∧ results !! b = Some Succeeded
    ∧ (forallb (has_sid sid) stmts = true →
       calls w' = calls w ++ [GetBucketPolicy b; DeleteBucketPolicy b]
       ∧ policies w' = delete b (policies w)
       ∧ policies w' !! b = None)
    ∧ (forallb (has_sid sid) stmts = false →
       calls w' = calls w ++ [GetBucketPolicy b; PutBucketPolicy b (Parses filtered)]
       ∧ policies w' !! b = Some (Parses filtered)
       ∧ statements_of filtered = Some kept
       ∧ kept ≠ []).
Proof.
  intros Hfaults Hpolicy Hstmts Hobj Hex kept filtered.
  rewrite (remove_policy_objects b sid current_policy stmts) by done.
  rewrite Hex. fold kept. fold filtered.
  pose proof (filter_nil_forallb (has_sid sid) stmts) as Hnil. fold kept in Hnil.
  assert (statements_of filtered = Some kept) as Hfiltered
    by (by eapply statements_of_with).
  destruct kept as [| stmt rest] eqn:Hkept;
    (eexists _, _; split; [reflexivity |]); rewrite lookup_insert_eq;
    (split; [done |]); split; intros Hall.
  - repeat split.
    + cbn. by rewrite <- app_assoc.
    + cbn. apply lookup_delete_eq.
  - destruct Hnil as [Hnil _]. by rewrite Hnil in Hall.
  - destruct Hnil as [_ Hnil]. by specialize (Hnil Hall).
  - repeat split; try done.
    + cbn. by rewrite <- app_assoc.
    + cbn. apply lookup_insert_eq.
Qed.

Lemma filter_app_first {A} (f : A → bool) (before after : list A) (x : A) :
  Forall (λ y, f y = false) before →
  f x = true →
  List.filter (λ y, negb (f y)) (before ++ x :: after)
  = before ++ List.filter (λ y, negb (f y)) after.
Proof.
  intros Hbefore Hx. rewrite List.filter_app. cbn. rewrite Hx. cbn. f_equal.
  induction Hbefore as [| y before Hy _ IH]; [done |]. cbn. by rewrite Hy, IH.
Qed.

(** C5, as amended.  Duplicate Sids.  The stored policy has a first
    statement with the Sid, and whatever statements after it, with the
    same Sid or not.  Apply does not reject the document: it skips on the
    first match, without a look at the statements after it.  Remove does
    not reject it either (the statements being objects): it takes out
    every statement with the Sid, the first and each later one, and
    writes what is left.  (No request runs into a fault.) *)
Theorem duplicate_sid_handling
    (template_name : string) (backup : bool) (account_id b sid : string)
    (template current_policy first : json) (before after : list json) (w : world) :
  faults w = [] →
  files w !! template_path template_name = Some (Parses template) →
  template_sid (replace_placeholders b template) = Val (JStr sid) →
  policies w !! b = Some (Parses current_policy) →
  statements_of current_policy = Some (before ++ first :: after) →
  Forall (λ s, is_object s = true ∧ has_sid sid s = false) before →
  is_object first = true →
  has_sid sid first = true →
  (∃ results w',
     apply_policy [b] template_name backup account_id w = (Ret results, w')
     ∧ results !! b = Some (Skipped (SidAlreadyExists (JStr sid)))
     ∧ policies w' = policies w)
  ∧ (Forall (λ s, is_object s = true) after →
     let kept := before ++ List.filter (λ s, negb (has_sid sid s)) after in
     ∃ results w',
       remove_policy [b] sid w = (Ret results, w')
       ∧ results !! b = Some Succeeded
       ∧ Forall (λ s, has_sid sid s = false) kept
       ∧ (kept ≠ [] →
          policies w' !! b = Some (Parses (with_statements current_policy kept)))
       ∧ (kept = [] → policies w' !! b = None)).
Proof.
  intros Hfaults Htemplate Hwanted Hpolicy Hstmts Hbefore Hobj Hsid. split.
  - destruct (apply_body_skips template_name backup account_id b template
                current_policy (JStr sid) w) as (w' & Hbody & Hp & _); try done.
    { by eapply statements_of_truthy. }
    { rewrite (policy_exists_statements _ _ _ Hstmts).
      by apply (any_sid_match_first _ _ _ _ (JStr sid)). }
    exists (<[b := Skipped (SidAlreadyExists (JStr sid))]> ∅), w'.
    unfold apply_policy. rewrite for_each_bucket_single, Hbody.
    by rewrite lookup_insert_eq.
  - intros Hafter kept.
    assert (Forall (λ s, is_object s = true) (before ++ first :: after)) as Hall.
    { apply Forall_app. split; [| by constructor].
      eapply Forall_impl; [exact Hbefore | by intros s [? _]]. }
    assert (existsb (has_sid sid) (before ++ first :: after) = true) as Hex.
    { rewrite existsb_app. cbn. rewrite Hsid. by rewrite orb_true_r. }
    assert (List.filter (λ s, negb (has_sid sid s)) (before ++ first :: after)
            = kept) as Hkept.
    { apply filter_app_first; [| done].
      eapply Forall_impl; [exact Hbefore | by intros s [_ ?]]. }
    rewrite (remove_policy_objects b sid current_policy _ w Hfaults Hpolicy Hstmts
               Hall).
    rewrite Hex, Hkept.
    assert (Forall (λ s, has_sid sid s = false) kept) as Hnone.
    { rewrite <- Hkept. apply filter_without. }
    destruct kept as [| stmt rest] eqn:Hk;
      (eexists _, _; split; [reflexivity |]); rewrite lookup_insert_eq;
      repeat split; try done.
    + intros _. cbn. apply lookup_delete_eq.
    + intros _. cbn. apply lookup_insert_eq.
Qed.

(** ** No upload of an empty statement list *)

Lemma strip_sid_statements (sid : string) (policy policy' : json) (n : nat)
    (kept : list json) :
  strip_sid sid policy = Val (n, kept, policy') → statements_of policy' = Some kept.
Proof.
  unfold strip_sid. destruct policy as [| | | | | fields]; try done. cbn.
  destruct (dict_lookup "Statement" fields) as [statements |]; [| done]. cbn.
  destruct (py_len statements) as [count |]; [| done]. cbn.
  destruct (py_iter statements) as [stmts |]; [| done]. cbn.
  destruct (without_sid sid stmts) as [kept' |]; [| done]. cbn.
  intros [= _ <- <-]. cbn. by rewrite dict_lookup_set.
Qed.

(** Whatever the stored policy and whatever the faults, the requests of a
    round of remove upload no document without statements. *)
Lemma remove_body_uploads (sid b : string) (w : world) :
  ∃ new, calls (remove_body sid b w).2 = calls w ++ new
         ∧ Forall uploads_statements new.
Proof.
  unfold remove_body, bind at 1. rewrite get_current_policy_run.
  set (w1 := issue (GetBucketPolicy b) w).
  assert (calls w1 = calls w ++ [GetBucketPolicy b]) as Hw1 by done.
  assert (∃ new, calls w1 = calls w ++ new ∧ Forall uploads_statements new)
    as Hdone.
  { exists [GetBucketPolicy b]. split; [done | by repeat constructor]. }
  assert (∀ current_policy,
            ∃ new,
              calls ((if truthy current_policy
                      then stripped <- lift (strip_sid sid current_policy) ;;
                           let '(original_count, kept, current_policy') := stripped in
                           if Nat.eqb (length kept) original_count
                           then ret (Skipped (SidNotFound sid))
                           else (if truthy (JArr kept)
                                 then put_bucket_policy b (json_dumps current_policy')
                                 else delete_bucket_policy b) ;;;
                                ret Succeeded
                      else ret (Skipped NoPolicyExists)) w1).2
              = calls w ++ new
              ∧ Forall uploads_statements new) as Hrest.
  { intros current_policy. destruct (truthy current_policy); [| exact Hdone].
    unfold bind at 1, lift.
    destruct (strip_sid sid current_policy) as [[[n kept] doc] |] eqn:Hstrip;
      [| exact Hdone].
    unfold ret at 1. cbv beta iota.
    destruct (Nat.eqb (length kept) n); [exact Hdone |].
    unfold bind, ret. destruct kept as [| stmt kept]; cbn [truthy].
    - rewrite delete_bucket_policy_any.
      exists [GetBucketPolicy b; DeleteBucketPolicy b].
      split; [| by repeat constructor].
      destruct (faults w1) as [| [e |] fs]; cbn; by rewrite <- app_assoc.
    - rewrite put_bucket_policy_any.
      exists [GetBucketPolicy b; PutBucketPolicy b (json_dumps doc)].
      split.
      + destruct (faults w1) as [| [e |] fs]; cbn; by rewrite <- app_assoc.
      + repeat constructor. cbn. exists stmt, kept.
        by eapply strip_sid_statements. }
  destruct (faults w) as [| [e |] fs].
  - destruct (policies w !! b) as [[doc | |] |]; [apply Hrest | exact Hdone | exact Hdone | apply Hrest].
  - destruct e as [code | | | | | | | |]; try exact Hdone.
    destruct (String.eqb code _); [apply Hrest | exact Hdone].
  - destruct (policies w !! b) as [[doc | |] |]; [apply Hrest | exact Hdone | exact Hdone | apply Hrest].
Qed.

(** Remove never uploads a document with an empty statement list, on any
    bucket list, in any world. *)
Lemma remove_never_uploads_empty (bucket_list : list string) (sid : string)
    (w : world) :
  ∃ results w' new,
    remove_policy bucket_list sid w = (Ret results, w')
    ∧ calls w' = calls w ++ new
    ∧ Forall uploads_statements new.
Proof.
  destruct (for_each_bucket_invariant (remove_body sid)
              (λ _ w0, ∃ new, calls w0 = calls w ++ new
                              ∧ Forall uploads_statements new)
              bucket_list)
    with (results := (∅ : gmap string result)) (w := w)
    as (results & w' & Hrun & new & Hcalls & Hnew).
  - intros b results w0 _ (new0 & Hc0 & Hn0).
    pose proof (safe_remove_body sid b w0) as Hsafe.
    destruct (remove_body_uploads sid b w0) as (new1 & Hc1 & Hn1).
    destruct (remove_body sid b w0) as [[r | e | c] w1]; cbn [fst snd] in *;
      [exists r | exists (Failed e) | by destruct (Hsafe c)].
    all: split; [done |]; exists (new0 ++ new1).
    all: rewrite Hc1, Hc0, app_assoc; split; [done | by apply Forall_app].
  - exists []. by rewrite app_nil_r.
  - by exists results, w', new.
Qed.


(** ** Backup files *)

Lemma is_digit_digit (n : nat) : is_digit (digit n) = true.
Proof.
  unfold is_digit, digit.
  assert (n mod 10 < 10) as H by (apply Nat.mod_upper_bound; lia).
  rewrite nat_ascii_embedding by lia.
  apply andb_true_iff. split; apply Nat.leb_le; lia.
Qed.

Lemma all_digits_pad2 (n : nat) : all_digits (pad2 n) = true.
Proof. unfold pad2. cbn. by rewrite !is_digit_digit. Qed.

Lemma all_digits_pad4 (n : nat) : all_digits (pad4 n) = true.
Proof. unfold pad4, pad2. cbn. by rewrite !is_digit_digit. Qed.

Lemma all_digits_app (s t : string) :
  all_digits (s +:+ t) = all_digits s && all_digits t.
Proof.
  induction s as [| c s IH]; push_append; [done |]. cbn.
  by rewrite IH, andb_assoc.
Qed.

Lemma length_app (s t : string) :
  String.length (s +:+ t) = String.length s + String.length t.
Proof. induction s as [| c s IH]; push_append; [done |]. cbn. by rewrite IH. Qed.

(** The time stamp: eight digits of the date, an underscore, six digits
    of the time. *)
Lemma strftime_shape (dt : datetime) :
  ∃ date time,
    strftime dt = date +:+ "_" +:+ time
    ∧ String.length date = 8 ∧ all_digits date = true
    ∧ String.length time = 6 ∧ all_digits time = true.
Proof.
  exists (pad4 (year dt) +:+ pad2 (month dt) +:+ pad2 (day dt)),
         (pad2 (hour dt) +:+ pad2 (minute dt) +:+ pad2 (second dt)).
  split; [unfold strftime; by rewrite !append_assoc |].
  split; [reflexivity |].
  split; [by rewrite !all_digits_app, all_digits_pad4, !all_digits_pad2 |].
  split; [reflexivity |].
  by rewrite !all_digits_app, !all_digits_pad2.
Qed.

Lemma ends_with_sep_app (s t : string) :
  ends_with_sep (s +:+ t) = if String.eqb t "" then ends_with_sep s else ends_with_sep t.
Proof.
  induction s as [| c s IH]; push_append.
  - by destruct t.
  - destruct t as [| d t]; [by rewrite append_empty_r |].
    cbn [ends_with_sep]. rewrite IH.
    destruct (s +:+ String d t) eqn:E; [by destruct s | done].
Qed.

Lemma backup_path_shape (account_id bucket_name : string) (now : datetime) :
  ends_with_sep account_id = false →
  backup_path account_id bucket_name now
  = "policy_backups_" +:+ account_id +:+ "/bucket_policy_backup_" +:+ bucket_name
    +:+ "_" +:+ strftime now +:+ ".json".
Proof.
  intros Hsep. unfold backup_path, path_join.
  assert (String.prefix "/" (backup_filename bucket_name (strftime now)) = false)
    as ->.
  { unfold backup_filename. push_append. by rewrite prefix_cons. }
  assert (String.eqb ("policy_backups_" +:+ account_id) "" = false) as ->.
  { push_append. done. }
  rewrite ends_with_sep_app, Hsep.
  assert (ends_with_sep "policy_backups_" = false) as -> by (by vm_compute).
  rewrite Tauto.if_same. cbn [orb]. unfold backup_filename.
  rewrite !append_assoc. by push_append.
Qed.

(** C7.  Backup naming and fidelity.  For a bucket [b], an account [a]
    (an identifier that does not end in a slash) and a non-empty policy,
    the backup is written to
    [policy_backups_a/bucket_policy_backup_b_<time stamp>.json], where
    the time stamp has fourteen digits, eight for the date and six for
    the time with an underscore between them; the file holds the policy
    that was passed, and the path is returned.  For an empty policy no
    file is written and [None] is returned. *)
Theorem backup_naming_and_fidelity
    (policy : json) (b a : string) (w : world) :
  ends_with_sep a = false →
  datetime_valid (clock w (ticks w)) →
  (truthy policy = true →
   ∃ date time w',
     let path := "policy_backups_" +:+ a +:+ "/bucket_policy_backup_" +:+ b
                 +:+ "_" +:+ (date +:+ "_" +:+ time) +:+ ".json" in
     backup_policy policy b a w = (Ret (Some path), w')
     ∧ strftime (clock w (ticks w)) = date +:+ "_" +:+ time
     ∧ String.length date = 8 ∧ all_digits date = true
     ∧ String.length time = 6 ∧ all_digits time = true
     ∧ files w' !! path = Some (Parses policy)
     ∧ (∀ p, p ≠ path → files w' !! p = files w !! p)
     ∧ policies w' = policies w)
  ∧ (truthy policy = false → backup_policy policy b a w = (Ret None, w)).
Proof.
  intros Hsep _. rewrite backup_policy_run. split; intros ->; [| done].
  destruct (strftime_shape (clock w (ticks w)))
    as (date & time & Hts & Hd1 & Hd2 & Ht1 & Ht2).
  exists date, time. eexists. cbv zeta.
  rewrite (backup_path_shape _ _ _ Hsep), Hts.
  split; [reflexivity |]. repeat split; try done.
  - cbn. apply lookup_insert_eq.
  - intros p Hp. cbn. by rewrite lookup_insert_ne.
Qed.

(** ** Restore *)

Lemma restore_policy_run (bucket_name backup_file : string) (policy : json)
    (w : world) :
  faults w = [] →
  files w !! backup_file = Some (Parses policy) →
  restore_policy bucket_name backup_file w
  = (Ret Succeeded,
     set_policies (insert bucket_name (Parses policy))
       (issue (PutBucketPolicy bucket_name (Parses policy)) w)).
Proof.
  intros Hfaults Hfile.
  unfold restore_policy, try_except, bind at 1, read_file. rewrite Hfile.
  unfold bind at 1, lift, json_loads, ret at 1. unfold bind.
  by rewrite put_bucket_policy_run.
Qed.

(** C6.  Restore round-trip.  A non-empty policy is backed up and the
    file produced is restored to a bucket: the restore reports success
    and the policy stored for that bucket is then the backed-up document,
    whatever policy the bucket had before; the one request issued is the
    upload of that document.  (The upload does not run into a fault.) *)
Theorem restore_round_trip
    (policy : json) (b a target : string) (w : world) :
  faults w = [] →
  truthy policy = true →
  ∃ path w1 w2,
    backup_policy policy b a w = (Ret (Some path), w1)
    ∧ restore_policy target path w1 = (Ret Succeeded, w2)
    ∧ policies w2 = <[target := Parses policy]> (policies w)
    ∧ stored_policy w2 target = Some policy
    ∧ calls w2 = calls w ++ [PutBucketPolicy target (Parses policy)].
Proof.
  intros Hfaults Htruthy. rewrite backup_policy_run, Htruthy.
  eexists _, _, _. split; [reflexivity |].
  rewrite (restore_policy_run _ _ policy).
  - split; [reflexivity |]. repeat split.
    unfold stored_policy. cbn. by rewrite lookup_insert_eq.
  - done.
  - cbn. apply lookup_insert_eq.
Qed.


(** ** The theorems at work *)

Lemma run_returns {A} (run : outcome A * world) (a : A) :
  run.1 = Ret a → run = (Ret a, run.2).
Proof. destruct run as [o w]. cbn. by intros ->. Qed.

(** The example of the specification: the template applied to
    [my-bucket] names the objects of that bucket. *)
Example read_template_for_my_bucket :
  replace_placeholders "my-bucket" read_template
  = JObj [("Statement", JArr [allow_read "arn:aws:s3:::my-bucket/*"])].
Proof. vm_compute. reflexivity. Qed.

Lemma load_policy_template_substitutes_witness :
  ∃ doc, load_policy_template "read" "my-bucket" (sample_world [] [])
         = (Ret doc, sample_world [] [])
         ∧ ∀ doc', substituted "my-bucket" read_template doc' ↔ doc' = doc.
Proof.
  apply (load_policy_template_substitutes "read" "my-bucket" read_template
           (sample_world [] [])).
  vm_compute. reflexivity.
Defined.

Lemma apply_skip_does_not_mutate_witness :
  let w := sample_world
             [("logs", Parses (policy_of [deny_delete "arn:aws:s3:::logs/*"]));
              ("my-bucket",
               Parses (policy_of [deny_delete "arn:aws:s3:::my-bucket/*";
                                  allow_read "arn:aws:s3:::my-bucket/public/*"]))]
             [] in
  ∃ results w',
    apply_policy ["logs"; "my-bucket"] "read" true "123456789012" w
    = (Ret results, w')
    ∧ status_of <$> results !! "my-bucket" = Some skipped
    ∧ policies w' !! "my-bucket" = policies w !! "my-bucket"
    ∧ ∃ new, calls w' = calls w ++ new
             ∧ Forall (λ c, writes_policy_of "my-bucket" c = false) new.
Proof.
  apply (apply_skip_does_not_mutate ["logs"; "my-bucket"] "read" true
           "123456789012" "my-bucket" read_template
           (policy_of [deny_delete "arn:aws:s3:::my-bucket/*";
                       allow_read "arn:aws:s3:::my-bucket/public/*"])
           (JStr "AllowRead")
           [deny_delete "arn:aws:s3:::my-bucket/*";
            allow_read "arn:aws:s3:::my-bucket/public/*"]).
  - reflexivity.
  - vm_compute. reflexivity.
  - vm_compute. reflexivity.
  - vm_compute. reflexivity.
  - reflexivity.
  - repeat constructor.
  - vm_compute. reflexivity.
  - repeat constructor.
Defined.

Lemma merge_skip_idempotent_witness :
  let w := sample_world
             [("my-bucket", Parses (policy_of [deny_delete "arn:aws:s3:::my-bucket/*"]))]
             [] in
  let first := apply_policy ["my-bucket"] "read" true "123456789012" w in
  ∃ results2 w2,
    apply_policy ["my-bucket"] "read" true "123456789012" first.2 = (Ret results2, w2)
    ∧ status_of <$> results2 !! "my-bucket" = Some skipped
    ∧ policies w2 = policies first.2
    ∧ statement_count w2 "my-bucket" = statement_count first.2 "my-bucket".
Proof.
  intros w first.
  apply (merge_skip_idempotent "read" true "123456789012" "my-bucket" "AllowRead"
           read_template
           [("Sid", JStr "AllowRead"); ("Effect", JStr "Allow");
            ("Principal", JStr "*"); ("Action", JStr "s3:GetObject");
            ("Resource", JStr "arn:aws:s3:::${bucket_name}/*")]
           w first.2
           (match first.1 with Ret results => results | _ => ∅ end)).
  - reflexivity.
  - vm_compute. reflexivity.
  - reflexivity.
  - reflexivity.
  - apply (run_returns first). vm_compute. reflexivity.
  - vm_compute. discriminate.
Defined.

Lemma remove_correct_witness :
  let stmts := [allow_read "arn:aws:s3:::my-bucket/*";
                deny_delete "arn:aws:s3:::my-bucket/*"] in
  let w := sample_world [("my-bucket", Parses (policy_of stmts))] [] in
  ∃ results w',
    remove_policy ["my-bucket"] "AllowRead" w = (Ret results, w')
    ∧ results !! "my-bucket" = Some Succeeded
    ∧ statement_count w' "my-bucket" = Some 1.
Proof.
  intros stmts w.
  destruct (remove_correct "my-bucket" "AllowRead" (policy_of stmts) stmts w)
    as (results & w' & Hrun & Hpresent & _).
  - reflexivity.
  - vm_compute. reflexivity.
  - reflexivity.
  - repeat constructor.
  - exists results, w'. split; [exact Hrun |].
    destruct Hpresent as (Hres & _ & _ & Hleft & _); [vm_compute; reflexivity |].
    split; [exact Hres |]. apply Hleft. vm_compute. discriminate.
Defined.

(** Against C2 as it was stated: the one statement of the policy has the
    target Sid, and remove issues no upload at all; it deletes the policy
    of the bucket. *)
Lemma remove_only_statement_deletes :
  let w := sample_world
             [("my-bucket", Parses (policy_of [allow_read "arn:aws:s3:::my-bucket/*"]))]
             [] in
  let run := remove_policy ["my-bucket"] "AllowRead" w in
  (∃ results, run.1 = Ret results ∧ results !! "my-bucket" = Some Succeeded)
  ∧ calls run.2 = [GetBucketPolicy "my-bucket"; DeleteBucketPolicy "my-bucket"]
  ∧ (∀ policy, PutBucketPolicy "my-bucket" policy ∉ calls run.2)
  ∧ policies run.2 !! "my-bucket" = None.
Proof.
  intros w run.
  assert (calls run.2 = [GetBucketPolicy "my-bucket"; DeleteBucketPolicy "my-bucket"])
    as Hcalls by (vm_compute; reflexivity).
  split; [| split; [exact Hcalls | split]].
  - eexists. split; vm_compute; reflexivity.
  - intros policy Hin. rewrite Hcalls in Hin.
    apply elem_of_cons in Hin as [? | Hin]; [done |].
    apply elem_of_cons in Hin as [? | Hin]; [done |].
    by apply elem_of_nil in Hin.
  - vm_compute. reflexivity.
Qed.

Lemma full_removal_deletes_witness :
  let stmts := [allow_read "arn:aws:s3:::my-bucket/*";
                deny_read "arn:aws:s3:::my-bucket/private/*"] in
  let w := sample_world [("my-bucket", Parses (policy_of stmts))] [] in
  ∃ results w',
    remove_policy ["my-bucket"] "AllowRead" w = (Ret results, w')
    ∧ results !! "my-bucket" = Some Succeeded
    ∧ calls w' = [GetBucketPolicy "my-bucket"; DeleteBucketPolicy "my-bucket"]
    ∧ policies w' !! "my-bucket" = None.
Proof.
  intros stmts w.
  destruct (full_removal_deletes "my-bucket" "AllowRead" (policy_of stmts) stmts w)
    as (results & w' & Hrun & Hres & Hall & _).
  - reflexivity.
  - vm_compute. reflexivity.
  - reflexivity.
  - repeat constructor.
  - vm_compute. reflexivity.
  - exists results, w'. split; [exact Hrun |]. split; [exact Hres |].
    destruct Hall as (Hcalls & _ & Hgone); [vm_compute; reflexivity |]. by split.
Defined.

Lemma duplicate_sid_handling_witness :
  let stmts := [deny_delete "arn:aws:s3:::my-bucket/*";
                allow_read "arn:aws:s3:::my-bucket/*";
                deny_read "arn:aws:s3:::my-bucket/private/*"] in
  let w := sample_world [("my-bucket", Parses (policy_of stmts))] [] in
  (∃ results w',
     apply_policy ["my-bucket"] "read" false "123456789012" w = (Ret results, w')
     ∧ results !! "my-bucket" = Some (Skipped (SidAlreadyExists (JStr "AllowRead")))
     ∧ policies w' = policies w)
  ∧ (∃ results w',
       remove_policy ["my-bucket"] "AllowRead" w = (Ret results, w')
       ∧ results !! "my-bucket" = Some Succeeded
       ∧ policies w' !! "my-bucket"
         = Some (Parses (policy_of [deny_delete "arn:aws:s3:::my-bucket/*"]))).
Proof.
  intros stmts w.
  destruct (duplicate_sid_handling "read" false "123456789012" "my-bucket"
              "AllowRead" read_template (policy_of stmts)
              (allow_read "arn:aws:s3:::my-bucket/*")
              [deny_delete "arn:aws:s3:::my-bucket/*"]
              [deny_read "arn:aws:s3:::my-bucket/private/*"] w)
    as [Happly Hremove].
  - reflexivity.
  - vm_compute. reflexivity.
  - vm_compute. reflexivity.
  - vm_compute. reflexivity.
  - reflexivity.
  - repeat constructor.
  - reflexivity.
  - vm_compute. reflexivity.
  - split; [exact Happly |].
    destruct Hremove as (results & w' & Hrun & Hres & _ & Hleft & _);
      [repeat constructor |].
    exists results, w'. split; [exact Hrun |]. split; [exact Hres |].
    apply Hleft. vm_compute. discriminate.
Defined.

(** Against C5 as it was stated: two statements have the Sid, and remove
    takes both out, so that the policy is deleted; a removal that used the
    first match only would have left the second statement. *)
Lemma remove_takes_every_match :
  let stmts := [allow_read "arn:aws:s3:::my-bucket/*";
                deny_read "arn:aws:s3:::my-bucket/private/*"] in
  let w := sample_world [("my-bucket", Parses (policy_of stmts))] [] in
  let run := remove_policy ["my-bucket"] "AllowRead" w in
  (∃ results, run.1 = Ret results ∧ results !! "my-bucket" = Some Succeeded)
  ∧ calls run.2 = [GetBucketPolicy "my-bucket"; DeleteBucketPolicy "my-bucket"]
  ∧ stored_policy run.2 "my-bucket" = None
  ∧ remove_first_match "AllowRead" stmts
    = [deny_read "arn:aws:s3:::my-bucket/private/*"]
  ∧ stored_policy run.2 "my-bucket"
    ≠ Some (with_statements (policy_of stmts) (remove_first_match "AllowRead" stmts)).
Proof.
  intros stmts w run.
  assert (stored_policy run.2 "my-bucket" = None) as Hgone
    by (vm_compute; reflexivity).
  split; [eexists; split; vm_compute; reflexivity |].
  split; [vm_compute; reflexivity |]. split; [exact Hgone |].
  split; [vm_compute; reflexivity |]. by rewrite Hgone.
Qed.

Lemma restore_round_trip_witness :
  let policy := policy_of [allow_read "arn:aws:s3:::my-bucket/*"] in
  let w := sample_world [("other", Parses (policy_of [deny_delete "arn:aws:s3:::other/*"]))]
             [] in
  ∃ path w1 w2,
    backup_policy policy "my-bucket" "123456789012" w = (Ret (Some path), w1)
    ∧ restore_policy "other" path w1 = (Ret Succeeded, w2)
    ∧ policies w2 = <["other" := Parses policy]> (policies w)
    ∧ stored_policy w2 "other" = Some policy
    ∧ calls w2 = calls w ++ [PutBucketPolicy "other" (Parses policy)].
Proof.
  intros policy w.
  apply (restore_round_trip policy "my-bucket" "123456789012" "other" w);
    reflexivity.
Defined.

Lemma backup_naming_and_fidelity_witness :
  let policy := policy_of [allow_read "arn:aws:s3:::my-bucket/*"] in
  let w := sample_world [] [] in
  ∃ w',
    backup_policy policy "my-bucket" "123456789012" w
    = (Ret (Some "policy_backups_123456789012/bucket_policy_backup_my-bucket_20240309_170430.json"),
       w')
    ∧ files w' !! "policy_backups_123456789012/bucket_policy_backup_my-bucket_20240309_170430.json"
      = Some (Parses policy).
Proof.
  intros policy w.
  destruct (backup_naming_and_fidelity policy "my-bucket" "123456789012" w)
    as [Hsome _].
  - reflexivity.
  - unfold datetime_valid. cbn. lia.
  - destruct Hsome as (date & time & w' & Hrun & Hts & _ & _ & _ & _ & Hfile & _);
      [reflexivity |].
    exists w'.
    assert (date +:+ "_" +:+ time = "20240309_170430") as Heq
      by (rewrite <- Hts; vm_compute; reflexivity).
    rewrite Heq in Hrun, Hfile. by split.
Defined.

(** A run entry by entry: the first bucket is denied, the policy of the
    second is no JSON, and the third is processed all the same. *)
Example isolation_at_work :
  let w := sample_world
             [("logs", Parses (policy_of [deny_delete "arn:aws:s3:::logs/*"]));
              ("media", Unparsable);
              ("site", Parses (policy_of [deny_delete "arn:aws:s3:::site/*"]))]
             [Some (ClientError "AccessDenied")] in
  let run := apply_policy ["logs"; "media"; "site"] "read" false "123456789012" w in
  ∃ results,
    run.1 = Ret results
    ∧ results !! "logs" = Some (Failed (ClientError "AccessDenied"))
    ∧ results !! "media" = Some (Failed JSONDecodeError)
    ∧ results !! "site" = Some (Applied None).
Proof.
  eexists. split; [vm_compute; reflexivity |].
  repeat split; vm_compute; reflexivity.
Qed.




(** ** What the runs leave alone *)

Section preserves.
Context {B : Type} (f : world → B).
Hypothesis f_issue : ∀ c w, f (issue c w) = f w.

Lemma preserves_ret {A} (a : A) : preserves f (ret a).
Proof. by intros w. Qed.

Lemma preserves_raise {A} (e : exn) : preserves f (@raise A e).
Proof. by intros w. Qed.

Lemma preserves_lift {A} (r : py A) : preserves f (lift r).
Proof. destruct r; [apply preserves_ret | apply preserves_raise]. Qed.

Lemma preserves_bind {A C} (m : M A) (k : A → M C) :
  preserves f m → (∀ a, preserves f (k a)) → preserves f (bind m k).
Proof.
  intros Hm Hk w. unfold bind. specialize (Hm w).
  destruct (m w) as [[a | e | c] w1]; [| done | done].
  cbn in Hm. by rewrite Hk.
Qed.

Lemma preserves_try {A} (m : M A) (h : exn → M A) :
  preserves f m → (∀ e, preserves f (h e)) → preserves f (try_except m h).
Proof.
  intros Hm Hh w. unfold try_except. specialize (Hm w).
  destruct (m w) as [[a | e | c] w1]; [done | | done].
  cbn in Hm. by rewrite Hh.
Qed.

Lemma preserves_request (c : s3_call) : preserves f (request c).
Proof.
  intros w. unfold request. by destruct (faults w) as [| [e |] fs]; cbn.
Qed.

Lemma preserves_get_current_policy (b : string) :
  preserves f (get_current_policy b).
Proof.
  intros w. rewrite get_current_policy_run. apply f_issue.
Qed.

Lemma preserves_load_policy_template (template_name bucket_name : string) :
  preserves f (load_policy_template template_name bucket_name).
Proof. intros w. by rewrite load_policy_template_run. Qed.

Lemma preserves_for_each_bucket (body : string → M result)
    (bucket_list : list string) (results : gmap string result) :
  (∀ b, preserves f (body b)) →
  preserves f (for_each_bucket body bucket_list results).
Proof.
  intros Hbody. revert results.
  induction bucket_list as [| b rest IH]; intros results; [apply preserves_ret |].
  cbn [for_each_bucket]. apply preserves_bind; [| intros r; apply IH].
  apply preserves_try; [apply Hbody | intros e; apply preserves_ret].
Qed.
End preserves.

Lemma files_issue (c : s3_call) (w : world) : files (issue c w) = files w.
Proof. done. Qed.

Lemma policies_issue (c : s3_call) (w : world) : policies (issue c w) = policies w.
Proof. done. Qed.

Lemma put_keeps_files (b : string) (policy : text) :
  preserves files (put_bucket_policy b policy).
Proof.
  intros w. rewrite put_bucket_policy_any. by destruct (faults w) as [| [e |] fs].
Qed.

Lemma delete_keeps_files (b : string) : preserves files (delete_bucket_policy b).
Proof.
  intros w. rewrite delete_bucket_policy_any. by destruct (faults w) as [| [e |] fs].
Qed.

Lemma backup_keeps_policies (policy : json) (bucket_name account_id : string) :
  preserves policies (backup_policy policy bucket_name account_id).
Proof. intros w. rewrite backup_policy_run. by destruct (truthy policy). Qed.

Lemma remove_body_keeps_files (sid b : string) : preserves files (remove_body sid b).
Proof.
  unfold remove_body.
  apply preserves_bind;
    [apply preserves_get_current_policy, files_issue | intros current_policy].
  destruct (truthy current_policy); [| apply preserves_ret].
  apply preserves_bind; [apply preserves_lift | intros [[n kept] doc]].
  destruct (Nat.eqb _ _); [apply preserves_ret |].
  apply preserves_bind; [| intros; apply preserves_ret].
  destruct (truthy _); [apply put_keeps_files | apply delete_keeps_files].
Qed.

Lemma apply_body_keeps_files (template_name account_id b : string) :
  preserves files (apply_body template_name false account_id b).
Proof.
  unfold apply_body.
  apply preserves_bind;
    [apply preserves_get_current_policy, files_issue | intros current_policy].
  cbn [andb].
  apply preserves_bind; [apply preserves_ret | intros backup_file].
  apply preserves_bind; [apply preserves_load_policy_template | intros new].
  destruct (truthy current_policy).
  - apply preserves_bind; [apply preserves_lift | intros [|]].
    + apply preserves_bind; [apply preserves_lift | intros; apply preserves_ret].
    + apply preserves_bind; [apply preserves_lift | intros final].
      apply preserves_bind; [apply put_keeps_files | intros; apply preserves_ret].
  - apply preserves_bind; [apply put_keeps_files | intros; apply preserves_ret].
Qed.

(** The loop, bucket by bucket: the policies of the buckets that are not
    in the list stay, the files that are no backups stay, and the
    requests are about buckets of the list. *)
Lemma for_each_bucket_effect (body : string → M result) (bucket_list : list string)
    (results : gmap string result) (w : world) :
  (∀ b, within b (body b)) →
  let w' := (for_each_bucket body bucket_list results w).2 in
  (∀ b, b ∉ bucket_list → policies w' !! b = policies w !! b)
  ∧ (∀ p, is_backup_file p = false → files w' !! p = files w !! p)
  ∧ ∃ new, calls w' = calls w ++ new
           ∧ Forall (λ c, bucket_of c ∈ bucket_list) new.
Proof.
  intros Hbody. revert results w.
  induction bucket_list as [| b rest IH]; intros results w; cbv zeta.
  - repeat split; try done. exists []. by rewrite app_nil_r.
  - cbn [for_each_bucket]. unfold bind. rewrite step_run.
    destruct (Hbody b w) as (Hp & Hf & _ & new & Hc & Hn).
    assert (Forall (λ c, bucket_of c ∈ b :: rest) new) as Hn'.
    { eapply Forall_impl; [exact Hn |]. intros c ->. by left. }
    assert (∀ results1 w1,
              (∀ b', b' ≠ b → policies w1 !! b' = policies w !! b') →
              (∀ p, is_backup_file p = false → files w1 !! p = files w !! p) →
              calls w1 = calls w ++ new →
              let w' := (for_each_bucket body rest results1 w1).2 in
              (∀ b', b' ∉ b :: rest → policies w' !! b' = policies w !! b')
              ∧ (∀ p, is_backup_file p = false → files w' !! p = files w !! p)
              ∧ ∃ new', calls w' = calls w ++ new'
                        ∧ Forall (λ c, bucket_of c ∈ b :: rest) new') as Hrest.
    { intros results1 w1 Hp1 Hf1 Hc1. cbv zeta.
      destruct (IH results1 w1) as (Hp2 & Hf2 & new2 & Hc2 & Hn2).
      repeat split.
      - intros b' Hb'. apply not_elem_of_cons in Hb' as [Hne Hb'].
        rewrite Hp2 by done. by apply Hp1.
      - intros p Hpath. by rewrite Hf2, Hf1.
      - exists (new ++ new2). rewrite Hc2, Hc1, app_assoc. split; [done |].
        apply Forall_app. split; [done |].
        eapply Forall_impl; [exact Hn2 |]. intros c Hc'. by right. }
    destruct (body b w) as [[r | e | c] w1]; cbn [fst snd] in *.
    + by apply Hrest.
    + by apply Hrest.
    + repeat split; [| done | by exists new].
      intros b' Hb'. apply Hp. intros ->. apply Hb'. by left.
Qed.

(** X8.  Remove and restore write no file: no backup is taken before a
    statement is removed or a policy is restored, whatever the stored
    policies and the faults. *)
Theorem remove_and_restore_write_no_file
    (bucket_list : list string) (sid bucket_name backup_file : string) (w : world) :
  files (remove_policy bucket_list sid w).2 = files w
  ∧ files (restore_policy bucket_name backup_file w).2 = files w.
Proof.
  split.
  - apply (preserves_for_each_bucket files).
    intros b. apply remove_body_keeps_files.
  - unfold restore_policy.
    apply (preserves_try files); [| intros e; apply preserves_ret].
    apply preserves_bind.
    { intros w0. unfold read_file. by destruct (files w0 !! backup_file) as [[doc | |] |]. }
    intros t. apply preserves_bind; [apply preserves_lift | intros policy].
    apply preserves_bind; [apply put_keeps_files | intros; apply preserves_ret].
Qed.

(** X7.  Apply writes backup files only, and none at all when backups are
    switched off: the templates and every other file are what they were,
    on any bucket list, with any stored policies and faults. *)
Theorem apply_writes_backups_only
    (bucket_list : list string) (template_name : string) (backup : bool)
    (account_id : string) (w : world) :
  let w' := (apply_policy bucket_list template_name backup account_id w).2 in
  (∀ p, is_backup_file p = false → files w' !! p = files w !! p)
  ∧ (∀ name, files w' !! template_path name = files w !! template_path name)
  ∧ (backup = false → files w' = files w).
Proof.
  cbv zeta.
  destruct (for_each_bucket_effect (apply_body template_name backup account_id)
              bucket_list ∅ w) as (_ & Hfiles & _).
  { intros b. apply within_apply_body. }
  split; [exact Hfiles |]. split.
  - intros name. apply Hfiles, template_path_not_backup.
  - intros ->. apply (preserves_for_each_bucket files).
    intros b. apply apply_body_keeps_files.
Qed.

(** X5.  A bucket that is not in the list is left alone by apply and by
    remove: its policy is what it was and no request is about it,
    whatever happens to the buckets of the list. *)
Theorem unlisted_buckets_untouched
    (bucket_list : list string) (template_name : string) (backup : bool)
    (account_id sid b : string) (w : world) :
  b ∉ bucket_list →
  let applied := (apply_policy bucket_list template_name backup account_id w).2 in
  let removed := (remove_policy bucket_list sid w).2 in
  policies applied !! b = policies w !! b
  ∧ policies removed !! b = policies w !! b
  ∧ (∃ new, calls applied = calls w ++ new ∧ Forall (λ c, bucket_of c ≠ b) new)
  ∧ (∃ new, calls removed = calls w ++ new ∧ Forall (λ c, bucket_of c ≠ b) new).
Proof.
  intros Hb. cbv zeta.
  destruct (for_each_bucket_effect (apply_body template_name backup account_id)
              bucket_list ∅ w) as (Hp1 & _ & new1 & Hc1 & Hn1).
  { intros b0. apply within_apply_body. }
  destruct (for_each_bucket_effect (remove_body sid) bucket_list ∅ w)
    as (Hp2 & _ & new2 & Hc2 & Hn2).
  { intros b0. apply within_remove_body. }
  split; [by apply Hp1 |]. split; [by apply Hp2 |]. split.
  - exists new1. split; [done |]. eapply Forall_impl; [exact Hn1 |].
    intros c Hc Heq. cbv beta in Hc. by rewrite Heq in Hc.
  - exists new2. split; [done |]. eapply Forall_impl; [exact Hn2 |].
    intros c Hc Heq. cbv beta in Hc. by rewrite Heq in Hc.
Qed.


(** ** More on apply *)

Lemma dict_lookup_set_ne (k k' : string) (v : json) (fields : list (string * json)) :
  k ≠ k' → dict_lookup k (dict_set k' v fields) = dict_lookup k fields.
Proof.
  intros Hne. induction fields as [| [k0 v0] fields IH]; cbn.
  - by apply String.eqb_neq in Hne as ->.
  - destruct (String.eqb k' k0) eqn:E; cbn.
    + apply String.eqb_eq in E as <-. by apply String.eqb_neq in Hne as ->.
    + by rewrite IH.
Qed.

Lemma subscript_with_statements (policy : json) (stmts : list json) (k : string) :
  k ≠ "Statement" →
  subscript (with_statements policy stmts) k = subscript policy k.
Proof.
  intros Hne. destruct policy; try done. cbn. by rewrite dict_lookup_set_ne.
Qed.

Lemma fetch_fails_run (w : world) (b : string) (e : exn) :
  fetch_fails w b e →
  get_current_policy b w = (Raise e, issue (GetBucketPolicy b) w).
Proof.
  rewrite get_current_policy_run. unfold fetch_fails, next_fault.
  intros [[Hnext Hno] | [(Hnext & Hpolicy & ->) | (Hnext & Hpolicy & ->)]].
  - destruct (faults w) as [| [e' |] fs]; try done. injection Hnext as ->.
    destruct e as [code | | | | | | | |]; try done. cbn in Hno. by rewrite Hno.
  - rewrite Hpolicy. by destruct (faults w) as [| [e' |] fs].
  - rewrite Hpolicy. by destruct (faults w) as [| [e' |] fs].
Qed.

(** X4.  A fetch that fails is never taken for a bucket without a policy.
    When the fetch of the bucket's policy runs into a fault other than
    [NoSuchBucketPolicy] (access denied, a network fault) or the stored
    text is no JSON, apply and remove report that exception as the
    bucket's error, issue no further request and change no policy and no
    file: in particular apply does not upload the template over the
    policy it could not read, and does not even load the template. *)
Theorem failed_fetch_changes_nothing
    (template_name : string) (backup : bool) (account_id sid b : string)
    (e : exn) (w : world) :
  fetch_fails w b e →
  apply_policy [b] template_name backup account_id w
  = (Ret (<[b := Failed e]> ∅), issue (GetBucketPolicy b) w)
  ∧ remove_policy [b] sid w
    = (Ret (<[b := Failed e]> ∅), issue (GetBucketPolicy b) w)
  ∧ policies (issue (GetBucketPolicy b) w) = policies w
  ∧ files (issue (GetBucketPolicy b) w) = files w.
Proof.
  intros Hfetch. pose proof (fetch_fails_run w b e Hfetch) as Hget.
  assert (apply_body template_name backup account_id b w
          = (Raise e, issue (GetBucketPolicy b) w)) as Happly
    by (unfold apply_body, bind at 1; by rewrite Hget).
  assert (remove_body sid b w = (Raise e, issue (GetBucketPolicy b) w)) as Hremove
    by (unfold remove_body, bind at 1; by rewrite Hget).
  repeat split.
  - unfold apply_policy. by rewrite for_each_bucket_single, Happly.
  - unfold remove_policy. by rewrite for_each_bucket_single, Hremove.
Qed.

(** X1.  The merge of apply.  The stored policy is a list of statement
    objects none of which has the Sid of the template's first statement.
    Apply then uploads the stored document with the statements of the
    template, all of them, appended after its own: the statements that
    were there keep their place, the other keys of the document
    ([Version], [Id]) are as they were, and the entry names the backup
    when backups are on.  (No request runs into a fault.) *)
Theorem apply_appends_statements
    (template_name : string) (backup : bool) (account_id b : string)
    (template current_policy wanted : json) (stmts more : list json) (w : world) :
  faults w = [] →
  files w !! template_path template_name = Some (Parses template) →
  policies w !! b = Some (Parses current_policy) →
  statements_of current_policy = Some stmts →
  Forall (λ s, is_object s = true) stmts →
  statements_of (replace_placeholders b template) = Some more →
  template_sid (replace_placeholders b template) = Val wanted →
  existsb (λ s, py_eq (sid_of s) wanted) stmts = false →
  let final := with_statements current_policy (stmts ++ more) in
  let path := backup_path account_id b (clock w (ticks w)) in
  ∃ results w',
    apply_policy [b] template_name backup account_id w = (Ret results, w')
    ∧ results !! b = Some (Applied (if backup then Some path else None))
    ∧ policies w' = <[b := Parses final]> (policies w)
    ∧ calls w' = calls w ++ [GetBucketPolicy b; PutBucketPolicy b (Parses final)]
    ∧ statements_of final = Some (stmts ++ more)
    ∧ statement_count w' b = Some (length stmts + length more)
    ∧ (∀ k, k ≠ "Statement" → subscript final k = subscript current_policy k).
Proof.
  intros Hfaults Htemplate Hpolicy Hstmts Hobj Hmore Hwanted Hnone final path.
  assert (statements_of final = Some (stmts ++ more)) as Hfinal
    by (by eapply statements_of_with).
  unfold apply_policy. rewrite for_each_bucket_single.
  rewrite (apply_body_run _ _ _ _ template current_policy) by auto.
  rewrite (statements_of_truthy _ _ Hstmts), andb_true_r.
  rewrite (policy_exists_statements _ _ _ Hstmts).
  rewrite (any_sid_match_objects _ _ _ Hwanted Hobj), Hnone.
  rewrite (extend_statements_lists _ _ _ _ Hstmts Hmore). fold final. fold path.
  eexists _, _. split; [reflexivity |]. cbn [fst snd entry_of].
  rewrite lookup_insert_eq. repeat split; try done.
  - by destruct backup.
  - by destruct backup.
  - destruct backup; cbn; by rewrite <- app_assoc.
  - unfold statement_count, stored_policy. cbn [policies set_policies].
    rewrite lookup_insert_eq. cbn. rewrite Hfinal. cbn.
    by rewrite List.length_app.
  - intros k Hk. by apply subscript_with_statements.
Qed.

(** X2.  Apply to a bucket without a usable policy.  When the bucket has
    no policy, or the stored document is empty ([{}], [[]], [null]: what
    [if current_policy] takes for false), apply uploads the loaded
    template as it is, whatever the template holds, replaces what was
    stored, writes no backup even when backups are on, and reports
    success without a backup file.  (No request runs into a fault.) *)
Theorem apply_to_empty_uploads_template
    (template_name : string) (backup : bool) (account_id b : string)
    (template : json) (w : world) :
  faults w = [] →
  files w !! template_path template_name = Some (Parses template) →
  policies w !! b = None
  ∨ (∃ stored, policies w !! b = Some (Parses stored) ∧ truthy stored = false) →
  let new := replace_placeholders b template in
  apply_policy [b] template_name backup account_id w
  = (Ret (<[b := Applied None]> ∅),
     set_policies (insert b (Parses new))
       (issue (PutBucketPolicy b (Parses new)) (issue (GetBucketPolicy b) w)))
  ∧ files (apply_policy [b] template_name backup account_id w).2 = files w.
Proof.
  intros Hfaults Htemplate Hstored new.
  assert (∃ stored, (policies w !! b = Some (Parses stored)
                     ∨ (policies w !! b = None ∧ stored = JNull))
                    ∧ truthy stored = false) as (stored & Hcase & Hfalsy).
  { destruct Hstored as [Hnone | (stored & Hsome & Hfalsy)].
    - exists JNull. split; [by right | done].
    - exists stored. split; [by left | done]. }
  unfold apply_policy. rewrite for_each_bucket_single.
  rewrite (apply_body_run _ _ _ _ template stored) by auto.
  rewrite Hfalsy, andb_false_r. done.
Qed.

(** The fetch gives a document or fails as [fetch_fails] says. *)
Lemma fetch_cases (b : string) (w : world) :
  (∃ doc, get_current_policy b w = (Ret doc, issue (GetBucketPolicy b) w))
  ∨ (∃ e, fetch_fails w b e
          ∧ get_current_policy b w = (Raise e, issue (GetBucketPolicy b) w)).
Proof.
  rewrite get_current_policy_run. unfold fetch_fails, next_fault.
  destruct (faults w) as [| [e |] fs].
  - destruct (policies w !! b) as [[doc | |] |]; eauto.
    + right. exists JSONDecodeError. split; [| done]. right; left. eauto.
    + right. exists UnicodeDecodeError. split; [| done]. right; right. eauto.
  - destruct e as [code | | | | | | | |];
      try (right; eexists; split; [left; split; [reflexivity | done] | done]).
    destruct (String.eqb code "NoSuchBucketPolicy") eqn:E; [eauto |].
    right. eexists. split; [left; split; [reflexivity | done] | done].
  - destruct (policies w !! b) as [[doc | |] |]; eauto.
    + right. exists JSONDecodeError. split; [| done]. right; left. eauto.
    + right. exists UnicodeDecodeError. split; [| done]. right; right. eauto.
Qed.

(** The round of a bucket when the template cannot be loaded: the file
    is missing or no JSON, and the loader ends the script, or its bytes
    are no text, and the loader lets [UnicodeDecodeError] through. *)
Lemma apply_body_without_template (template_name : string) (backup : bool)
    (account_id b : string) (w : world) :
  (∀ template, files w !! template_path template_name ≠ Some (Parses template)) →
  let run := apply_body template_name backup account_id b w in
  policies run.2 = policies w
  ∧ files run.2 !! template_path template_name
    = files w !! template_path template_name
  ∧ calls run.2 = calls w ++ [GetBucketPolicy b]
  ∧ ((∃ e, fetch_fails w b e ∧ run.1 = Raise e)
     ∨ (files w !! template_path template_name = Some Undecodable
        ∧ run.1 = Raise UnicodeDecodeError)
     ∨ (files w !! template_path template_name ≠ Some Undecodable
        ∧ run.1 = Exit 1)).
Proof.
  intros Hmissing. cbv zeta.
  remember (apply_body template_name backup account_id b w) as run eqn:Hrun.
  unfold apply_body in Hrun. unfold bind at 1 in Hrun.
  destruct (fetch_cases b w) as [[doc Hget] | (e & Hfails & Hget)];
    rewrite Hget in Hrun; cbv beta iota in Hrun.
  2: { subst run. cbn. do 3 (split; [done |]). left. eauto. }
  set (backing := if backup && truthy doc
                  then backup_policy doc b account_id else ret None) in Hrun.
  assert (∃ backup_file w2,
            backing (issue (GetBucketPolicy b) w) = (Ret backup_file, w2)
            ∧ policies w2 = policies w
            ∧ calls w2 = calls w ++ [GetBucketPolicy b]
            ∧ files w2 !! template_path template_name
              = files w !! template_path template_name)
    as (backup_file & w2 & Hbacking & Hp2 & Hc2 & Hf2).
  { subst backing. destruct (backup && truthy doc) eqn:E.
    - rewrite backup_policy_run.
      apply andb_true_iff in E as [_ ->]. eexists _, _. split; [reflexivity |].
      repeat split. cbn. rewrite lookup_insert_ne; [done |].
      apply backup_path_not_template.
    - eexists _, _. split; [reflexivity |]. done. }
  unfold bind at 1 in Hrun. rewrite Hbacking in Hrun. cbv beta iota in Hrun.
  unfold bind at 1 in Hrun. rewrite load_policy_template_run, Hf2 in Hrun.
  destruct (files w !! template_path template_name) as [[template | |] |] eqn:E.
  - by destruct (Hmissing template).
  - subst run. cbn [fst snd]. do 3 (split; [done |]). right; right. by split.
  - subst run. cbn [fst snd]. do 3 (split; [done |]). right; left. by split.
  - subst run. cbn [fst snd]. do 3 (split; [done |]). right; right. by split.
Qed.

Lemma for_each_bucket_without_template (template_name : string) (backup : bool)
    (account_id : string) (bucket_list : list string)
    (results : gmap string result) (w : world) :
  (∀ template, files w !! template_path template_name ≠ Some (Parses template)) →
  (∀ b r, results !! b = Some r → status_of r = error) →
  let run := for_each_bucket (apply_body template_name backup account_id)
               bucket_list results w in
  policies run.2 = policies w
  ∧ (∃ new, calls run.2 = calls w ++ new ∧ Forall (λ c, is_write c = false) new)
  ∧ (run.1 = Exit 1
     ∨ ∃ results', run.1 = Ret results'
                   ∧ ∀ b r, results' !! b = Some r → status_of r = error).
Proof.
  revert results w. induction bucket_list as [| b rest IH];
    intros results w Hmissing Herrors; cbv zeta.
  - cbn. repeat split; [| right; eauto]. exists []. by rewrite app_nil_r.
  - cbn [for_each_bucket]. unfold bind. rewrite step_run.
    destruct (apply_body_without_template template_name backup account_id b w
                Hmissing) as (Hp & Hf & Hc & Hout).
    assert ((∃ e, (apply_body template_name backup account_id b w).1 = Raise e)
            ∨ (apply_body template_name backup account_id b w).1 = Exit 1)
      as [[e Hraise] | Hexit].
    { destruct Hout as [(e & _ & Hraise) | [[_ Hraise] | [_ Hexit]]]; eauto. }
    + rewrite Hraise.
      destruct (IH (<[b := Failed e]> results)
                  (apply_body template_name backup account_id b w).2)
        as (Hp2 & (new2 & Hc2 & Hn2) & Hout2).
      * intros template. rewrite Hf. apply Hmissing.
      * intros b' r. rewrite lookup_insert. case_decide; [| apply Herrors].
        by intros [= <-].
      * split; [by rewrite Hp2 |]. split; [| exact Hout2].
        exists (GetBucketPolicy b :: new2). rewrite Hc2, Hc, <- app_assoc.
        split; [done | by constructor].
    + rewrite Hexit. cbn [fst snd]. split; [done |]. split; [| by left].
      exists [GetBucketPolicy b]. split; [done | by repeat constructor].
Qed.

(** With a template whose bytes are no text, every bucket fails and the
    run goes through the whole list. *)
Lemma for_each_bucket_undecodable (template_name : string) (backup : bool)
    (account_id : string) (bucket_list : list string)
    (results : gmap string result) (w : world) :
  files w !! template_path template_name = Some Undecodable →
  ∃ results' w',
    for_each_bucket (apply_body template_name backup account_id)
      bucket_list results w = (Ret results', w')
    ∧ calls w' = calls w ++ map GetBucketPolicy bucket_list
    ∧ ∀ b, b ∈ bucket_list → ∃ e, results' !! b = Some (Failed e).
Proof.
  revert results w. induction bucket_list as [| b rest IH]; intros results w Hfile.
  - exists results, w. cbn. rewrite app_nil_r. repeat split.
    intros b Hb. by apply elem_of_nil in Hb.
  - destruct (apply_body_without_template template_name backup account_id b w)
      as (_ & Hf & Hc & Hout); [intros template; by rewrite Hfile |].
    assert (∃ e, (apply_body template_name backup account_id b w).1 = Raise e)
      as [e Hraise].
    { destruct Hout as [(e & _ & Hraise) | [[_ Hraise] | [Hno _]]]; eauto.
      by destruct Hno. }
    rewrite (for_each_bucket_cons _ _ _ _ _ (Failed e)) by (by rewrite Hraise).
    destruct (IH (<[b := Failed e]> results)
                (apply_body template_name backup account_id b w).2)
      as (results' & w' & Hrun & Hcalls & Hfailed); [by rewrite Hf |].
    exists results', w'. split; [done |]. split.
    + rewrite Hcalls, Hc. cbn. by rewrite <- app_assoc.
    + intros b' Hb'. destruct (decide (b' ∈ rest)) as [Hin | Hout'];
        [by apply Hfailed |].
      apply elem_of_cons in Hb' as [-> | Hin]; [| done].
      rewrite (for_each_bucket_other _ _ _ _ _ _ _ Hout' Hrun), lookup_insert_eq.
      eauto.
Qed.

(** X3.  Apply without a template.  When the template file is missing,
    is no JSON or is no UTF-8 text, apply changes no policy and issues no
    write, whatever the bucket list, the stored policies and the faults;
    the run ends with exit code 1, or it returns results that are all
    errors.  A file that is missing or no JSON ends the run: when the
    policy of the first bucket can be fetched, the run ends with exit
    code 1 right after that fetch.  A file whose bytes are no text does
    not: the loader does not catch [UnicodeDecodeError], so the run goes
    through the whole list, fetches every policy and returns an error
    for every bucket. *)
Theorem apply_without_template_changes_nothing
    (bucket_list : list string) (template_name : string) (backup : bool)
    (account_id : string) (w : world) :
  (∀ template, files w !! template_path template_name ≠ Some (Parses template)) →
  let run := apply_policy bucket_list template_name backup account_id w in
  policies run.2 = policies w
  ∧ (∃ new, calls run.2 = calls w ++ new ∧ Forall (λ c, is_write c = false) new)
  ∧ (run.1 = Exit 1
     ∨ ∃ results, run.1 = Ret results
                  ∧ ∀ b r, results !! b = Some r → status_of r = error)
  ∧ (files w !! template_path template_name ≠ Some Undecodable →
     ∀ b rest, bucket_list = b :: rest → (∀ e, ¬ fetch_fails w b e) →
               run.1 = Exit 1 ∧ calls run.2 = calls w ++ [GetBucketPolicy b])
  ∧ (files w !! template_path template_name = Some Undecodable →
     (∃ results, run.1 = Ret results
                 ∧ ∀ b, b ∈ bucket_list → ∃ e, results !! b = Some (Failed e))
     ∧ calls run.2 = calls w ++ map GetBucketPolicy bucket_list).
Proof.
  intros Hmissing. cbv zeta.
  destruct (for_each_bucket_without_template template_name backup account_id
              bucket_list ∅ w Hmissing) as (Hp & Hc & Hout).
  { intros b r. by rewrite lookup_empty. }
  split; [exact Hp |]. split; [exact Hc |]. split; [exact Hout |]. split.
  - intros Htext b rest -> Hfetch. unfold apply_policy. cbn [for_each_bucket].
    unfold bind. rewrite step_run.
    destruct (apply_body_without_template template_name backup account_id b w
                Hmissing) as (_ & _ & Hcalls & Hcase).
    destruct Hcase as [(e & Hfails & _) | [[Hno _] | [_ Hexit]]].
    + by destruct (Hfetch e).
    + by destruct Htext.
    + rewrite Hexit. cbn [fst snd]. by split.
  - intros Hbytes. unfold apply_policy.
    destruct (for_each_bucket_undecodable template_name backup account_id
                bucket_list ∅ w Hbytes) as (results & w' & Hrun & Hcalls & Hfailed).
    rewrite Hrun. cbn [fst snd]. split; [eauto | done].
Qed.


(** ** Remove after remove, remove after apply *)

Lemma forallb_Forall_true {A} (f : A → bool) (l : list A) :
  forallb f l = true ↔ Forall (λ x, f x = true) l.
Proof. rewrite List.forallb_forall, Forall_forall. by setoid_rewrite list_elem_of_In. Qed.

Lemma forallb_filter {A} (f g : A → bool) (l : list A) :
  forallb f l = true → forallb f (List.filter g l) = true.
Proof.
  rewrite !List.forallb_forall. intros H x Hx. apply H.
  by apply List.filter_In in Hx as [Hx _].
Qed.

Lemma existsb_filter_without {A} (f : A → bool) (l : list A) :
  existsb f (List.filter (λ x, negb (f x)) l) = false.
Proof.
  induction l as [| x l IH]; [done |]. cbn.
  destruct (f x) eqn:E; cbn; [done | by rewrite E].
Qed.

Lemma dict_set_twice (k : string) (v v' : json) (fields : list (string * json)) :
  dict_set k v (dict_set k v' fields) = dict_set k v fields.
Proof.
  induction fields as [| [k0 v0] fields IH]; cbn.
  - by rewrite string_eqb_refl.
  - destruct (String.eqb k k0) eqn:E; cbn.
    + by rewrite string_eqb_refl.
    + by rewrite E, IH.
Qed.

Lemma with_statements_twice (policy : json) (stmts stmts' : list json) :
  with_statements (with_statements policy stmts') stmts = with_statements policy stmts.
Proof. destruct policy; try done. cbn. by rewrite dict_set_twice. Qed.

Lemma free_of_well_formed (sid : string) (w : world) (b : string) :
  free_of sid w b = true → well_formed w b = true.
Proof.
  unfold free_of, well_formed.
  destruct (policies w !! b) as [[doc | |] |]; try done.
  destruct (statements_of doc); try done. by intros [? _]%andb_true_iff.
Qed.

(** The round of remove on a bucket that has no policy or a list of
    statement objects leaves no statement with the Sid. *)
Lemma remove_body_frees (sid b : string) (w : world) :
  faults w = [] →
  well_formed w b = true →
  let run := remove_body sid b w in
  (∃ r, run.1 = Ret r)
  ∧ faults run.2 = []
  ∧ free_of sid run.2 b = true.
Proof.
  intros Hfaults Hwf. cbv zeta. unfold well_formed in Hwf.
  destruct (policies w !! b) as [[doc | |] |] eqn:Hpolicy; try done.
  - destruct (statements_of doc) as [stmts |] eqn:Hstmts; try done.
    pose proof Hwf as Hobj. apply forallb_Forall_true in Hobj.
    rewrite (remove_body_objects sid b doc stmts w Hfaults Hpolicy Hstmts Hobj).
    destruct (existsb (has_sid sid) stmts) eqn:Hany.
    + destruct (List.filter (λ s, negb (has_sid sid s)) stmts) as [| s kept] eqn:Hkept.
      * cbn. split; [eauto |]. rewrite Hfaults. split; [done |].
        unfold free_of. cbn. by rewrite lookup_delete_eq.
      * cbn. split; [eauto |]. rewrite Hfaults. split; [done |].
        unfold free_of. cbn. rewrite lookup_insert_eq.
        rewrite (statements_of_with _ _ _ Hstmts), <- Hkept.
        by rewrite (forallb_filter _ _ _ Hwf), existsb_filter_without.
    + cbn. split; [eauto |]. rewrite Hfaults. split; [done |].
      unfold free_of. cbn. by rewrite Hpolicy, Hstmts, Hwf, Hany.
  - rewrite (remove_body_run sid b JNull w Hfaults) by (by right).
    cbn. split; [eauto |]. rewrite Hfaults. split; [done |].
    unfold free_of. cbn. by rewrite Hpolicy.
Qed.

(** The round of remove on a bucket without a statement of the Sid. *)
Lemma remove_body_free (sid b : string) (w : world) :
  faults w = [] →
  free_of sid w b = true →
  ∃ reason, remove_body sid b w
            = (Ret (Skipped reason), issue (GetBucketPolicy b) w).
Proof.
  intros Hfaults Hfree. unfold free_of in Hfree.
  destruct (policies w !! b) as [[doc | |] |] eqn:Hpolicy; try done.
  - destruct (statements_of doc) as [stmts |] eqn:Hstmts; try done.
    apply andb_true_iff in Hfree as [Hobj Hnone].
    apply forallb_Forall_true in Hobj. apply negb_true_iff in Hnone.
    rewrite (remove_body_objects sid b doc stmts w Hfaults Hpolicy Hstmts Hobj).
    rewrite Hnone. eauto.
  - rewrite (remove_body_run sid b JNull w Hfaults) by (by right). cbn. eauto.
Qed.

Lemma for_each_bucket_frees (sid : string) (bucket_list : list string) (w : world) :
  faults w = [] →
  (∀ b, b ∈ bucket_list → well_formed w b = true) →
  ∃ results w',
    for_each_bucket (remove_body sid) bucket_list ∅ w = (Ret results, w')
    ∧ faults w' = []
    ∧ ∀ b, b ∈ bucket_list → free_of sid w' b = true.
Proof.
  intros Hfaults Hwf.
  destruct (for_each_bucket_invariant (remove_body sid)
              (λ results w, faults w = []
                            ∧ (∀ b, b ∈ bucket_list → well_formed w b = true)
                            ∧ (∀ b, is_Some (results !! b) → free_of sid w b = true))
              bucket_list) with (results := (∅ : gmap string result)) (w := w)
    as (results & w' & Hrun & Hf' & _ & Hfree).
  - intros b results0 w0 Hb (Hf0 & Hwf0 & Hfree0).
    destruct (remove_body_frees sid b w0 Hf0 (Hwf0 b Hb)) as ([r Hr] & Hf1 & Hfree1).
    exists r. split; [by rewrite Hr |].
    pose proof (within_remove_body b sid w0) as (Hother & _).
    assert (∀ b', b' ≠ b →
              free_of sid (remove_body sid b w0).2 b' = free_of sid w0 b') as Hsame.
    { intros b' Hne. unfold free_of. by rewrite Hother. }
    split; [done |]. split.
    + intros b' Hb'. destruct (decide (b' = b)) as [-> | Hne].
      * by eapply free_of_well_formed.
      * specialize (Hsame b' Hne). specialize (Hwf0 b' Hb').
        unfold free_of in Hsame. unfold well_formed in *.
        by rewrite Hother.
    + intros b' Hsome. destruct (decide (b' = b)) as [-> | Hne]; [done |].
      rewrite Hsame by done. apply Hfree0. by rewrite lookup_insert_ne in Hsome.
  - split; [done |]. split; [done |]. intros b [r Hr]. by rewrite lookup_empty in Hr.
  - exists results, w'. split; [done |]. split; [done |].
    intros b Hb. apply Hfree.
    apply (for_each_bucket_entries _ _ _ _ _ _ Hrun). by left.
Qed.

Lemma for_each_bucket_free (sid : string) (bucket_list : list string)
    (results : gmap string result) (w : world) :
  faults w = [] →
  (∀ b, b ∈ bucket_list → free_of sid w b = true) →
  ∃ results' w',
    for_each_bucket (remove_body sid) bucket_list results w = (Ret results', w')
    ∧ policies w' = policies w
    ∧ calls w' = calls w ++ map GetBucketPolicy bucket_list
    ∧ ∀ b, b ∈ bucket_list → ∃ reason, results' !! b = Some (Skipped reason).
Proof.
  revert results w. induction bucket_list as [| b rest IH]; intros results w Hfaults Hfree.
  - exists results, w. cbn. rewrite app_nil_r. repeat split; try done.
    intros b Hb. by apply elem_of_nil in Hb.
  - destruct (remove_body_free sid b w Hfaults) as [reason Hbody];
      [apply Hfree; by left |].
    rewrite (for_each_bucket_cons _ _ _ _ _ (Skipped reason))
      by (by rewrite Hbody).
    rewrite Hbody. cbn [snd].
    destruct (IH (<[b := Skipped reason]> results) (issue (GetBucketPolicy b) w))
      as (results' & w' & Hrun & Hp & Hc & Hskipped).
    { cbn. by rewrite Hfaults. }
    { intros b' Hb'. unfold free_of. cbn. apply Hfree. by right. }
    exists results', w'. split; [done |]. split; [done |]. split.
    + rewrite Hc. cbn. by rewrite <- app_assoc.
    + intros b' Hb'. destruct (decide (b' ∈ rest)) as [Hin | Hout]; [by apply Hskipped |].
      apply elem_of_cons in Hb' as [-> | Hin]; [| done].
      rewrite (for_each_bucket_other _ _ _ _ _ _ _ Hout Hrun), lookup_insert_eq.
      eauto.
Qed.

(** X9.  Remove is idempotent.  Every listed bucket has no policy or a
    policy whose [Statement] is a list of objects, and no request runs
    into a fault.  After one remove of the Sid, none of the listed
    buckets has a statement with the Sid; a second remove of the same Sid
    from the same buckets only fetches each policy, in the order of the
    list, reports every bucket as skipped and leaves all policies as the
    first remove left them. *)
Theorem remove_twice_skips
    (bucket_list : list string) (sid : string) (w : world) :
  faults w = [] →
  (∀ b, b ∈ bucket_list → well_formed w b = true) →
  ∃ results1 w1 results2 w2,
    remove_policy bucket_list sid w = (Ret results1, w1)
    ∧ (∀ b, b ∈ bucket_list → free_of sid w1 b = true)
    ∧ remove_policy bucket_list sid w1 = (Ret results2, w2)
    ∧ policies w2 = policies w1
    ∧ calls w2 = calls w1 ++ map GetBucketPolicy bucket_list
    ∧ ∀ b, b ∈ bucket_list → ∃ reason, results2 !! b = Some (Skipped reason).
Proof.
  intros Hfaults Hwf. unfold remove_policy.
  destruct (for_each_bucket_frees sid bucket_list w Hfaults Hwf)
    as (results1 & w1 & Hrun1 & Hfaults1 & Hfree).
  destruct (for_each_bucket_free sid bucket_list ∅ w1 Hfaults1 Hfree)
    as (results2 & w2 & Hrun2 & Hp & Hc & Hskipped).
  by exists results1, w1, results2, w2.
Qed.

(** The Sid that apply compares with is the one of the first statement. *)
Lemma template_sid_first (sid : string) (doc first : json) (rest : list json) :
  statements_of doc = Some (first :: rest) →
  is_object first = true →
  has_sid sid first = true →
  template_sid doc = Val (JStr sid).
Proof.
  intros Hstmts Hobj Hsid. destruct doc as [| | | | | fields]; try done.
  cbn in Hstmts. unfold template_sid. cbn.
  destruct (dict_lookup "Statement" fields) as [[| | | | items |] |]; try done.
  injection Hstmts as ->. cbn.
  destruct first as [| | | | | fields']; try done.
  apply py_eq_str_r in Hsid. cbn in Hsid. cbn.
  by destruct (dict_lookup "Sid" fields') as [v |]; cbn in Hsid; subst.
Qed.

Lemma existsb_of_forallb {A} (f : A → bool) (x : A) (l : list A) :
  forallb f (x :: l) = true → existsb f (x :: l) = true.
Proof. cbn. by intros [-> _]%andb_true_iff. Qed.

(** An apply to one bucket that uploads a document. *)
Lemma apply_policy_uploads (template_name : string) (backup : bool)
    (account_id b : string) (template current_policy final : json) (w : world) :
  faults w = [] →
  files w !! template_path template_name = Some (Parses template) →
  policies w !! b = Some (Parses current_policy)
  ∨ (policies w !! b = None ∧ current_policy = JNull) →
  (if truthy current_policy
   then policy_exists current_policy (replace_placeholders b template) = Val false
        ∧ extend_statements current_policy (replace_placeholders b template)
          = Val final
   else final = replace_placeholders b template) →
  ∃ backup_file w1,
    apply_policy [b] template_name backup account_id w
    = (Ret (<[b := Applied backup_file]> ∅), w1)
    ∧ faults w1 = []
    ∧ policies w1 = <[b := Parses final]> (policies w).
Proof.
  intros Hfaults Htemplate Hpolicy Hfinal.
  unfold apply_policy. rewrite for_each_bucket_single.
  rewrite (apply_body_run _ _ _ _ template current_policy) by auto.
  destruct (truthy current_policy).
  - destruct Hfinal as [-> ->]. cbn [fst snd entry_of].
    eexists _, _. split; [reflexivity |].
    destruct backup; cbn; by rewrite Hfaults.
  - subst final. rewrite andb_false_r. cbn [fst snd entry_of].
    eexists _, _. split; [reflexivity |]. cbn. by rewrite Hfaults.
Qed.

(** X10.  Remove undoes apply.  The template's statements are objects that
    all carry the Sid [sid], and the bucket has either no policy or a
    policy with at least one statement, all objects, none with that Sid.
    An apply of the template followed by a remove of [sid] succeeds twice
    and leaves the policies of all buckets exactly as they were before
    the apply: the stored document is the old one again, and a bucket
    that had no policy has none again.  (No request runs into a fault.) *)
Theorem remove_undoes_apply
    (template_name : string) (backup : bool) (account_id sid b : string)
    (template first : json) (more : list json) (w : world) :
  faults w = [] →
  files w !! template_path template_name = Some (Parses template) →
  statements_of (replace_placeholders b template) = Some (first :: more) →
  forallb is_object (first :: more) = true →
  forallb (has_sid sid) (first :: more) = true →
  policies w !! b = None
  ∨ (∃ doc stmts, policies w !! b = Some (Parses doc)
                  ∧ statements_of doc = Some stmts
                  ∧ stmts ≠ []
                  ∧ forallb is_object stmts = true
                  ∧ existsb (has_sid sid) stmts = false) →
  ∃ backup_file w1 w2,
    apply_policy [b] template_name backup account_id w
    = (Ret (<[b := Applied backup_file]> ∅), w1)
    ∧ remove_policy [b] sid w1 = (Ret (<[b := Succeeded]> ∅), w2)
    ∧ policies w2 = policies w.
Proof.
  intros Hfaults Htemplate Hmore Hobj' Hall Hstored.
  set (new := replace_placeholders b template) in *.
  assert (template_sid new = Val (JStr sid)) as Hsid.
  { apply (template_sid_first sid new first more Hmore).
    - cbn in Hobj'. by apply andb_true_iff in Hobj' as [? _].
    - cbn in Hall. by apply andb_true_iff in Hall as [? _]. }
  pose proof (existsb_of_forallb _ _ _ Hall) as Hany.
  pose proof Hobj' as Hobjs. apply forallb_Forall_true in Hobjs.
  destruct Hstored as [Hnone | (doc & stmts & Hpolicy & Hstmts & Hsome & Hobj & Hfree)].
  - destruct (apply_policy_uploads template_name backup account_id b template
                JNull new w Hfaults Htemplate) as (backup_file & w1 & Hrun & Hf1 & Hp1);
      [by right | done |].
    exists backup_file, w1. 
    assert (policies w1 !! b = Some (Parses new)) as Hnow
      by (by rewrite Hp1, lookup_insert_eq).
    unfold remove_policy. rewrite for_each_bucket_single.
    rewrite (remove_body_objects sid b new (first :: more) w1 Hf1 Hnow Hmore Hobjs).
    rewrite Hany, (filter_all_gone _ _ Hall). cbn [fst snd entry_of].
    eexists. split; [done |]. split; [reflexivity |].
    cbn. by rewrite Hp1, delete_insert_eq, delete_id.
  - apply forallb_Forall_true in Hobj.
    set (final := with_statements doc (stmts ++ first :: more)).
    destruct (apply_policy_uploads template_name backup account_id b template
                doc final w Hfaults Htemplate) as (backup_file & w1 & Hrun & Hf1 & Hp1);
      [by left | |].
    { rewrite (statements_of_truthy _ _ Hstmts). fold new. split.
      - rewrite (policy_exists_statements _ _ _ Hstmts).
        rewrite (any_sid_match_objects _ _ _ Hsid Hobj). f_equal. exact Hfree.
      - by apply extend_statements_lists. }
    exists backup_file, w1.
    assert (policies w1 !! b = Some (Parses final)) as Hnow
      by (by rewrite Hp1, lookup_insert_eq).
    assert (statements_of final = Some (stmts ++ first :: more)) as Hfinal
      by (by eapply statements_of_with).
    assert (Forall (λ s, is_object s = true) (stmts ++ first :: more)) as Hboth
      by (by apply Forall_app).
    unfold remove_policy. rewrite for_each_bucket_single.
    rewrite (remove_body_objects sid b final _ w1 Hf1 Hnow Hfinal Hboth).
    rewrite List.existsb_app, Hany, orb_true_r.
    rewrite List.filter_app, (filter_none_left _ _ Hfree), (filter_all_gone _ _ Hall).
    rewrite app_nil_r. destruct stmts as [| s stmts]; [done |].
    cbn [fst snd entry_of]. eexists. split; [done |]. split; [reflexivity |].
    cbn. unfold final. rewrite with_statements_twice.
    rewrite (with_statements_same _ _ Hstmts).
    by rewrite Hp1, insert_insert_eq, insert_id.
Qed.

(** A run of restore, whatever the file and the faults. *)
Lemma restore_policy_any (bucket_name backup_file : string) (w : world) :
  restore_policy bucket_name backup_file w
  = match files w !! backup_file with
    | None => (Ret (Failed FileNotFoundError), w)
    | Some Undecodable => (Ret (Failed UnicodeDecodeError), w)
    | Some Unparsable => (Ret (Failed JSONDecodeError), w)
    | Some (Parses doc) =>
        let w1 := issue (PutBucketPolicy bucket_name (Parses doc)) w in
        match next_fault w with
        | Some e => (Ret (Failed e), w1)
        | None => (Ret Succeeded,
                   set_policies (insert bucket_name (Parses doc)) w1)
        end
    end.
Proof.
  unfold restore_policy, try_except, bind at 1, read_file.
  destruct (files w !! backup_file) as [[doc | |] |]; try done.
  unfold bind at 1, lift, json_loads, ret at 1. unfold bind.
  rewrite put_bucket_policy_any. unfold next_fault.
  by destruct (faults w) as [| [e |] fs].
Qed.

(** X11.  Restore reads the file before it asks S3 for anything.  A
    backup file that does not exist gives the error
    [FileNotFoundError], one whose bytes are no text
    [UnicodeDecodeError] and one that is no JSON [JSONDecodeError]: in
    each case no request is issued and nothing is changed.  With a file
    that parses, the one request is the upload of the file's document to
    the bucket, whatever the document is (it is not checked to be a
    policy); the result is success when the upload runs into no fault,
    the document then being the stored policy, and the error of the
    fault otherwise. *)
Theorem restore_checks_the_file_first
    (bucket_name backup_file : string) (w : world) :
  let run := restore_policy bucket_name backup_file w in
  (files w !! backup_file = None → run = (Ret (Failed FileNotFoundError), w))
  ∧ (files w !! backup_file = Some Undecodable
     → run = (Ret (Failed UnicodeDecodeError), w))
  ∧ (files w !! backup_file = Some Unparsable
     → run = (Ret (Failed JSONDecodeError), w))
  ∧ (∀ doc, files w !! backup_file = Some (Parses doc) →
       match next_fault w with
       | Some e => run.1 = Ret (Failed e)
       | None => run.1 = Ret Succeeded
                 ∧ policies run.2 = <[bucket_name := Parses doc]> (policies w)
       end
       ∧ calls run.2 = calls w ++ [PutBucketPolicy bucket_name (Parses doc)]).
Proof.
  cbv zeta. rewrite restore_policy_any.
  destruct (files w !! backup_file) as [[doc | |] |] eqn:Hfile.
  - do 3 (split; [done |]). intros doc' [= <-]. cbv zeta.
    by destruct (next_fault w) as [e |].
  - by repeat split.
  - by repeat split.
  - by repeat split.
Qed.


(** ** The requests of a run *)

Lemma in_rounds_cons (b : string) (rest : list string) (tail new : list s3_call) :
  one_write b tail = true →
  in_rounds rest new = true →
  in_rounds (b :: rest) (GetBucketPolicy b :: tail ++ new) = true.
Proof.
  intros Htail Hnew. cbn [in_rounds]. rewrite string_eqb_refl. cbn [andb].
  destruct tail as [| c [| c' tail]]; try done.
  - cbn [app]. destruct new as [| c new]; [done |].
    destruct rest as [| b' rest]; [done |].
    by destruct c as [b'' | |].
  - cbn in Htail. cbn [app]. by rewrite Htail.
Qed.

Lemma remove_body_round (sid b : string) (w : world) :
  ∃ tail, calls (remove_body sid b w).2 = calls w ++ GetBucketPolicy b :: tail
          ∧ one_write b tail = true.
Proof.
  remember (remove_body sid b w) as run eqn:Hrun.
  unfold remove_body in Hrun. unfold bind at 1 in Hrun.
  destruct (fetch_cases b w) as [[doc Hget] | (e & _ & Hget)];
    rewrite Hget in Hrun; cbv beta iota in Hrun.
  2: { subst run. by exists []. }
  destruct (truthy doc); [| subst run; by exists []].
  unfold bind at 1 in Hrun.
  destruct (strip_sid sid doc) as [[[n kept] doc'] | e]; cbn in Hrun;
    [| subst run; by exists []].
  destruct (Nat.eqb _ _); [subst run; by exists [] |].
  unfold bind in Hrun. destruct kept as [| s kept]; cbn [truthy] in Hrun.
  - rewrite delete_bucket_policy_any in Hrun.
    exists [DeleteBucketPolicy b]. cbn. rewrite string_eqb_refl.
    destruct (faults (issue (GetBucketPolicy b) w)) as [| [e |] fs];
      subst run; cbn; by rewrite <- app_assoc.
  - rewrite put_bucket_policy_any in Hrun.
    exists [PutBucketPolicy b (json_dumps doc')]. cbn. rewrite string_eqb_refl.
    destruct (faults (issue (GetBucketPolicy b) w)) as [| [e |] fs];
      subst run; cbn; by rewrite <- app_assoc.
Qed.

Lemma apply_body_round (template_name : string) (backup : bool)
    (account_id b : string) (w : world) :
  ∃ tail, calls (apply_body template_name backup account_id b w).2
          = calls w ++ GetBucketPolicy b :: tail
          ∧ one_write b tail = true.
Proof.
  remember (apply_body template_name backup account_id b w) as run eqn:Hrun.
  unfold apply_body in Hrun. unfold bind at 1 in Hrun.
  destruct (fetch_cases b w) as [[doc Hget] | (e & _ & Hget)];
    rewrite Hget in Hrun; cbv beta iota in Hrun.
  2: { subst run. by exists []. }
  set (backing := if backup && truthy doc
                  then backup_policy doc b account_id else ret None) in Hrun.
  assert (∃ backup_file w2,
            backing (issue (GetBucketPolicy b) w) = (Ret backup_file, w2)
            ∧ calls w2 = calls w ++ [GetBucketPolicy b])
    as (backup_file & w2 & Hbacking & Hc2).
  { subst backing. destruct (backup && truthy doc) eqn:E.
    - rewrite backup_policy_run. apply andb_true_iff in E as [_ ->]. by eexists _, _.
    - by eexists _, _. }
  unfold bind at 1 in Hrun. rewrite Hbacking in Hrun. cbv beta iota in Hrun.
  unfold bind at 1 in Hrun. rewrite load_policy_template_run in Hrun.
  destruct (match files w2 !! template_path template_name with
            | Some (Parses template) => Ret (replace_placeholders b template)
            | Some Undecodable => Raise UnicodeDecodeError
            | _ => Exit 1
            end : outcome json) as [new | e | c];
    [| subst run; by exists [] ..].
  cbv beta iota in Hrun.
  assert (∀ (policy : text) (r : result),
            ∃ tail, calls ((put_bucket_policy b policy ;;; ret r) w2).2
                    = calls w ++ GetBucketPolicy b :: tail
                    ∧ one_write b tail = true) as Hput.
  { intros policy r. exists [PutBucketPolicy b policy]. unfold bind.
    rewrite put_bucket_policy_any. cbn. rewrite string_eqb_refl.
    destruct (faults w2) as [| [e |] fs]; cbn; by rewrite Hc2, <- app_assoc. }
  destruct (truthy doc).
  - unfold bind at 1 in Hrun.
    destruct (policy_exists doc new) as [[|] | e]; cbn [lift] in Hrun;
      [| | subst run; by exists []].
    + unfold ret at 1 in Hrun. unfold bind in Hrun.
      destruct (template_sid new); subst run; by exists [].
    + unfold ret at 1 in Hrun. unfold bind at 1 in Hrun.
      destruct (extend_statements doc new) as [final | e]; cbn [lift] in Hrun;
        [| subst run; by exists []].
      unfold ret at 1 in Hrun. subst run. apply Hput.
  - subst run. apply Hput.
Qed.

(** The requests of the loop come in rounds. *)
Lemma for_each_bucket_rounds (body : string → M result) (bucket_list : list string)
    (results : gmap string result) (w : world) :
  (∀ b w, ∃ tail, calls (body b w).2 = calls w ++ GetBucketPolicy b :: tail
                  ∧ one_write b tail = true) →
  let run := for_each_bucket body bucket_list results w in
  ∃ done new,
    calls run.2 = calls w ++ new
    ∧ in_rounds done new = true
    ∧ done `prefix_of` bucket_list
    ∧ ((∃ results', run.1 = Ret results') → done = bucket_list).
Proof.
  intros Hbody. revert results w.
  induction bucket_list as [| b rest IH]; intros results w; cbv zeta.
  - exists [], []. cbn. by rewrite app_nil_r.
  - cbn [for_each_bucket]. unfold bind. rewrite step_run.
    destruct (Hbody b w) as (tail & Hcalls & Htail).
    destruct (body b w) as [[r | e | c] w1] eqn:Hrun; cbn [fst snd] in *.
    + destruct (IH (<[b := r]> results) w1) as (done & new & Hc & Hr & Hp & Hall).
      exists (b :: done), (GetBucketPolicy b :: tail ++ new).
      rewrite Hc, Hcalls, <- app_assoc. split; [done |].
      split; [by apply in_rounds_cons |]. split; [destruct Hp as [k ->]; by exists k |].
      intros Hret. by rewrite Hall.
    + destruct (IH (<[b := Failed e]> results) w1) as (done & new & Hc & Hr & Hp & Hall).
      exists (b :: done), (GetBucketPolicy b :: tail ++ new).
      rewrite Hc, Hcalls, <- app_assoc. split; [done |].
      split; [by apply in_rounds_cons |]. split; [destruct Hp as [k ->]; by exists k |].
      intros Hret. by rewrite Hall.
    + exists [b], (GetBucketPolicy b :: tail ++ []).
      rewrite app_nil_r. split; [done |]. rewrite <- (app_nil_r tail).
      split; [by apply in_rounds_cons |].
      split; [by exists rest |]. by intros [results' [=]].
Qed.

(** X6.  No write without a fetch.  The requests of apply and of remove
    come in rounds, one for each bucket and in the order of the list: the
    fetch of the bucket's policy, followed by at most one write, which is
    of that bucket's policy.  So no policy is written that was not
    fetched just before, and a bucket costs at most two requests.  This
    holds whatever the stored policies, the files and the faults; a run
    of apply that ends in [sys.exit] has done the rounds of the buckets up
    to the one it stopped at. *)
Theorem requests_come_in_rounds
    (bucket_list : list string) (template_name : string) (backup : bool)
    (account_id sid : string) (w : world) :
  (∃ new, calls (remove_policy bucket_list sid w).2 = calls w ++ new
          ∧ in_rounds bucket_list new = true
          ∧ length new ≤ 2 * length bucket_list)
  ∧ (let run := apply_policy bucket_list template_name backup account_id w in
     ∃ done new, calls run.2 = calls w ++ new
                 ∧ in_rounds done new = true
                 ∧ done `prefix_of` bucket_list
                 ∧ ((∃ results, run.1 = Ret results) → done = bucket_list)
                 ∧ length new ≤ 2 * length bucket_list).
Proof.
  assert (∀ done new, in_rounds done new = true → length new ≤ 2 * length done)
    as Hlength.
  { induction done as [| b done IH]; intros new Hr.
    - by destruct new.
    - destruct new as [| [b' | |] new]; try done. cbn [in_rounds] in Hr.
      apply andb_true_iff in Hr as [_ Hr].
      destruct new as [| c new].
      + cbn. lia.
      + destruct (writes_policy_of b c).
        * apply IH in Hr. cbn in *. lia.
        * apply IH in Hr. cbn in *. lia. }
  split.
  - unfold remove_policy.
    destruct (for_each_bucket_rounds (remove_body sid) bucket_list ∅ w)
      as (done & new & Hc & Hr & Hp & Hall); [intros; apply remove_body_round |].
    destruct (for_each_bucket_total (remove_body sid) (λ _, True) bucket_list ∅ w)
      as (results & w' & Hrun & _); [| done |].
    { intros b0 w0 _. split; [| done]. intros c. apply safe_remove_body. }
    rewrite Hall in Hr by (rewrite Hrun; eauto).
    exists new. split; [done |]. split; [done |]. by apply Hlength.
  - cbv zeta. unfold apply_policy.
    destruct (for_each_bucket_rounds (apply_body template_name backup account_id)
                bucket_list ∅ w)
      as (done & new & Hc & Hr & Hp & Hall); [intros; apply apply_body_round |].
    exists done, new. do 4 (split; [done |]).
    apply Hlength in Hr. apply prefix_length in Hp. lia.
Qed.

(** ** Backup files do not collide *)

Lemma digit_inj (n m : nat) : digit n = digit m → n mod 10 = m mod 10.
Proof.
  unfold digit. intros H. apply (f_equal nat_of_ascii) in H.
  pose proof (Nat.mod_upper_bound n 10). pose proof (Nat.mod_upper_bound m 10).
  rewrite !nat_ascii_embedding in H by lia. lia.
Qed.

Lemma pad2_inj (n m : nat) : n < 100 → m < 100 → pad2 n = pad2 m → n = m.
Proof.
  intros Hn Hm [= H1%digit_inj H0%digit_inj].
  pose proof (Nat.div_mod_eq n 10). pose proof (Nat.div_mod_eq m 10).
  assert (n / 10 < 10) by (apply Nat.Div0.div_lt_upper_bound; lia).
  assert (m / 10 < 10) by (apply Nat.Div0.div_lt_upper_bound; lia).
  rewrite (Nat.mod_small (n / 10)), (Nat.mod_small (m / 10)) in H1 by lia. lia.
Qed.

Lemma pad4_inj (n m : nat) :
  n < 10 * 1000 → m < 10 * 1000 → pad4 n = pad4 m → n = m.
Proof.
  intros Hn Hm [= H3%digit_inj H2%digit_inj H1%digit_inj H0%digit_inj].
  change ((n / 1000) mod 10 = (m / 1000) mod 10) in H3.
  change ((n / 100) mod 10 = (m / 100) mod 10) in H2.
  change ((n / 10) mod 10 = (m / 10) mod 10) in H1.
  assert (∀ k, k < 10 * 1000 →
            k = 1000 * ((k / 1000) mod 10) + 100 * ((k / 100) mod 10)
                + 10 * ((k / 10) mod 10) + k mod 10) as Hdigits.
  { intros k Hk.
    pose proof (Nat.div_mod_eq k 10) as E0.
    pose proof (Nat.div_mod_eq (k / 10) 10) as E1.
    pose proof (Nat.div_mod_eq (k / 100) 10) as E2.
    assert (k / 10 / 10 = k / 100) as D1 by (by rewrite Nat.Div0.div_div).
    assert (k / 100 / 10 = k / 1000) as D2 by (by rewrite Nat.Div0.div_div).
    rewrite D1 in E1. rewrite D2 in E2.
    assert (k / 1000 < 10) by (apply Nat.Div0.div_lt_upper_bound; lia).
    rewrite (Nat.mod_small (k / 1000)) by lia. lia. }
  rewrite (Hdigits n Hn), (Hdigits m Hm). lia.
Qed.

Lemma string_cons_inj (a b : ascii) (s t : string) :
  String a s = String b t → a = b ∧ s = t.
Proof. by intros [= -> ->]. Qed.

Lemma strftime_inj (t1 t2 : datetime) :
  datetime_valid t1 → datetime_valid t2 → strftime t1 = strftime t2 → t1 = t2.
Proof.
  intros (Hy1 & Hm1 & Hd1 & Hh1 & Hmi1 & Hs1) (Hy2 & Hm2 & Hd2 & Hh2 & Hmi2 & Hs2).
  destruct t1 as [y1 mo1 d1 h1 mi1 s1], t2 as [y2 mo2 d2 h2 mi2 s2]. cbn in *.
  unfold strftime. cbn [year month day hour minute second].
  intros H.
  assert (pad4 y1 = pad4 y2 ∧ pad2 mo1 = pad2 mo2 ∧ pad2 d1 = pad2 d2
          ∧ pad2 h1 = pad2 h2 ∧ pad2 mi1 = pad2 mi2 ∧ pad2 s1 = pad2 s2)
    as (Ey & Emo & Ed & Eh & Emi & Es).
  { unfold pad4, pad2 in *. push_append in H.
    repeat (apply string_cons_inj in H as [? H]). repeat split; congruence. }
  apply pad4_inj in Ey; [| lia ..]. apply pad2_inj in Emo; [| lia ..].
  apply pad2_inj in Ed; [| lia ..]. apply pad2_inj in Eh; [| lia ..].
  apply pad2_inj in Emi; [| lia ..]. apply pad2_inj in Es; [| lia ..].
  by subst.
Qed.

Lemma append_inv_head (p s t : string) : p +:+ s = p +:+ t → s = t.
Proof. induction p as [| c p IH]; push_append; [done |]. intros [= H]. by apply IH. Qed.

Lemma append_inv_equal_tails (s1 s2 t1 t2 : string) :
  String.length t1 = String.length t2 →
  s1 +:+ t1 = s2 +:+ t2 → s1 = s2 ∧ t1 = t2.
Proof.
  intros Hlen. revert s2. induction s1 as [| c s1 IH]; intros [| d s2]; push_append.
  - done.
  - intros H. apply (f_equal String.length) in H. cbn in H.
    rewrite length_app in H. lia.
  - intros H. apply (f_equal String.length) in H. cbn in H.
    rewrite length_app in H. lia.
  - intros [= -> H]. apply IH in H as [-> ->]. done.
Qed.

Lemma strftime_length (t : datetime) : String.length (strftime t) = 15.
Proof. unfold strftime, pad4, pad2. by push_append. Qed.

(** X12.  Backups do not collide.  In the directory of one account, the
    backup files of two buckets, or of one bucket at two different
    seconds, have different paths: a backup can only overwrite a backup
    of the same bucket taken within the same second.  (Bucket names may
    hold underscores; the time stamp has a fixed length.) *)
Theorem backup_path_injective
    (account_id b1 b2 : string) (t1 t2 : datetime) :
  datetime_valid t1 →
  datetime_valid t2 →
  backup_path account_id b1 t1 = backup_path account_id b2 t2 →
  b1 = b2 ∧ t1 = t2.
Proof.
  intros Hv1 Hv2. unfold backup_path, path_join.
  assert (∀ b t, String.prefix "/" (backup_filename b (strftime t)) = false) as Hrel.
  { intros b t. unfold backup_filename. push_append. by rewrite prefix_cons. }
  rewrite !Hrel.
  assert (backup_filename b1 (strftime t1) = backup_filename b2 (strftime t2)
          → b1 = b2 ∧ t1 = t2) as Hname.
  { unfold backup_filename. intros H. apply append_inv_head in H.
    apply append_inv_equal_tails in H as [-> H].
    - apply append_inv_head in H.
      apply append_inv_equal_tails in H as [H _]; [| done].
      split; [done |]. by apply strftime_inj.
    - push_append. cbn. by rewrite !length_app, !strftime_length. }
  destruct (_ || _).
  - intros H. apply append_inv_head in H. by apply Hname.
  - intros H. apply append_inv_head in H. push_append in H.
    apply string_cons_inj in H as [_ H]. by apply Hname.
Qed.


(** ** A failure is the bucket's own *)





(** ** The selection of the buckets *)

Lemma selected_buckets_of_listed (buckets : list string) (selected_indices : list Z)
    (selected : list string) :
  selected_buckets_of buckets selected_indices = Val selected →
  selected ⊆ buckets.
Proof.
  revert selected. induction selected_indices as [| idx rest IH]; intros selected.
  - intros [= <-]. apply list_subseteq_nil.
  - cbn [selected_buckets_of]. destruct (_ || _); [apply IH |].
    destruct (buckets !! Z.to_nat (idx - 1)) as [name |] eqn:Hname; [| done].
    destruct (selected_buckets_of buckets rest) as [more | e]; [| done].
    intros [= <-] b [-> | Hb]%elem_of_cons.
    + by eapply list_elem_of_lookup_2.
    + by apply (IH more).
Qed.

Section selection.

Context (strip lower : string → string) (split : string → list string)
        (int : string → option Z).

Lemma select_loop_listed (buckets : list string) (n : nat) :
  ∀ lines selected rest,
    length lines ≤ n →
    select_loop strip lower split int buckets lines = (selected, rest) →
    (∃ read, lines = read ++ rest)
    ∧ ∀ selected_buckets, selected = Some selected_buckets →
        selected_buckets = buckets
        ∨ (selected_buckets ≠ [] ∧ selected_buckets ⊆ buckets).
Proof.
  induction n as [| n IH]; intros [| line lines] selected rest Hn; cbn in Hn;
    try lia.
  - intros [= <- <-]. split; [by exists [] | done].
  - intros [= <- <-]. split; [by exists [] | done].
  - assert (select_loop strip lower split int buckets lines = (selected, rest) →
            (∃ read, line :: lines = read ++ rest)
            ∧ ∀ selected_buckets, selected = Some selected_buckets →
                selected_buckets = buckets
                ∨ (selected_buckets ≠ [] ∧ selected_buckets ⊆ buckets)) as Hagain.
    { intros Hrun. apply IH in Hrun as [[read ->] Hsel]; [| lia].
      split; [by exists (line :: read) | done]. }
    cbn [select_loop]. destruct (String.eqb _ "all").
    { intros [= <- <-]. split; [by exists [line] |]. intros ? [= <-]. by left. }
    destruct (mapM int _) as [selected_indices |]; [| exact Hagain].
    destruct (selected_buckets_of buckets selected_indices)
      as [[| name more] | e] eqn:Hselected; [exact Hagain | | exact Hagain].
    destruct lines as [| confirm lines].
    { intros [= <- <-]. split; [by exists [line] | done]. }
    destruct (String.eqb _ "y").
    + intros [= <- <-]. split; [by exists [line; confirm] |].
      intros ? [= <-]. right. split; [done |].
      by eapply selected_buckets_of_listed.
    + intros Hrun. apply IH in Hrun as [[read ->] Hsel]; [| cbn in Hn; lia].
      split; [by exists (line :: confirm :: read) | done].
Qed.

(** The loop gives up only when the input is used up. *)
Lemma select_loop_end (buckets : list string) (n : nat) :
  ∀ lines rest,
    length lines ≤ n →
    select_loop strip lower split int buckets lines = (None, rest) →
    rest = [].
Proof.
  induction n as [| n IH]; intros [| line lines] rest Hn; cbn in Hn; try lia.
  - by intros [= <-].
  - by intros [= <-].
  - assert (select_loop strip lower split int buckets lines = (None, rest) →
            rest = []) as Hagain by (apply IH; lia).
    cbn [select_loop]. destruct (String.eqb _ "all"); [done |].
    destruct (mapM int _) as [selected_indices |]; [| exact Hagain].
    destruct (selected_buckets_of buckets selected_indices)
      as [[| name more] | e]; [exact Hagain | | exact Hagain].
    destruct lines as [| confirm lines]; [by intros [= <-] |].
    destruct (String.eqb _ "y"); [done |]. apply IH. cbn in Hn. lia.
Qed.

(** The selection returns or ends the script with exit code 1. *)
Lemma list_and_select_buckets_outcome
    (list_buckets : py (list string)) (lines : list string) :
  let run := list_and_select_buckets strip lower split int list_buckets lines in
  run.1 = Exit 1 ∨ ∃ selected, run.1 = Ret selected.
Proof.
  cbv zeta. unfold list_and_select_buckets.
  destruct list_buckets as [[| b buckets] | e]; [by left | | by left].
  destruct (select_loop _ _ _ _ _ _) as [[selected |] rest]; cbn; eauto.
Qed.

(** X14.  What the selection gives.  [list_and_select_buckets] never
    raises: it returns a selection or ends the script with exit code 1.
    A selection that is returned is not empty and holds only buckets of
    the listing (all of them for [all]), so apply and remove never run on
    a name that was typed but is not a bucket of the account.  A failed
    or empty listing ends the script before any input is read; with a
    listing, the script is ended only when the input is used up before a
    selection is confirmed, so no line, however malformed, ends it.  The
    lines that are left are a tail of the input. *)
Theorem selection_is_listed
    (list_buckets : py (list string)) (lines : list string) :
  let run := list_and_select_buckets strip lower split int list_buckets lines in
  (run.1 = Exit 1
   ∨ ∃ selected buckets, run.1 = Ret selected ∧ list_buckets = Val buckets
                         ∧ selected ≠ [] ∧ selected ⊆ buckets)
  ∧ (∃ read, lines = read ++ run.2)
  ∧ (lines = [] → run.1 = Exit 1)
  ∧ (list_buckets = Val [] ∨ (∃ e, list_buckets = Exc e) → run = (Exit 1, lines))
  ∧ (run.1 = Exit 1 →
     list_buckets = Val [] ∨ (∃ e, list_buckets = Exc e) ∨ run.2 = []).
Proof.
  cbv zeta. unfold list_and_select_buckets.
  destruct list_buckets as [[| b buckets] | e].
  - cbn. split; [by left |]. split; [by exists [] |]. split; [done |].
    split; [done |]. by left.
  - destruct (select_loop strip lower split int (b :: buckets) lines)
      as [[selected |] rest] eqn:Hrun; cbn [fst snd].
    + destruct (select_loop_listed (b :: buckets) (length lines) lines _ _
                  (le_n _) Hrun) as [Hread Hsel].
      split; [| split; [done |]; split].
      * right. exists selected, (b :: buckets). split; [done |]. split; [done |].
        by destruct (Hsel selected eq_refl) as [-> | [? ?]].
      * intros ->. by cbn in Hrun.
      * split; [by intros [[=] | [e [=]]] | done].
    + destruct (select_loop_listed (b :: buckets) (length lines) lines _ _
                  (le_n _) Hrun) as [Hread _].
      split; [by left |]. split; [done |]. split; [done |].
      split; [by intros [[=] | [e [=]]] |].
      intros _. right; right.
      by apply (select_loop_end (b :: buckets) (length lines) lines).
  - cbn. split; [by left |]. split; [by exists [] |]. split; [done |].
    split; [done |]. right; left. eauto.
Qed.

End selection.

(** ** The script as a whole *)

Lemma get_aws_account_id_run (get_caller_identity : py string) (w : world) :
  get_aws_account_id get_caller_identity w
  = (match get_caller_identity with
     | Val account_id => Ret account_id
     | Exc _ => Exit 1
     end, w).
Proof. unfold get_aws_account_id, try_except. by destruct get_caller_identity. Qed.




Section script.

Context (strip lower : string → string) (split : string → list string)
        (int : string → option Z) (glob : string → list string).

(** X15.  What each action may touch.  When the account identifier
    cannot be had, the script leaves with exit code 1 and has read no
    input, requested nothing and changed nothing.  The two listings read
    no input, request nothing of S3 and change no policy and no file.  A
    restore reads no input and writes no file; it issues no request at
    all, or the one upload of the document of the backup file to the
    bucket it was given, and the policies of the other buckets stay as
    they are.  An apply without [--template] and a remove without
    [--sid] request nothing and change nothing, the selection of the
    buckets apart. *)
Theorem script_touches_by_action
    (get_caller_identity : py string) (list_buckets : py (list string))
    (args : arguments) (lines : list string) (w : world) :
  let run := main strip lower split int glob get_caller_identity list_buckets
               args lines w in
  ((∃ e, get_caller_identity = Exc e) → run = (Exit 1, w, lines))
  ∧ (args_action args = ActionListTemplates ∨ args_action args = ActionListBackups →
     run.1.2 = w ∧ run.2 = lines)
  ∧ (args_action args = ActionRestore →
     run.2 = lines
     ∧ files run.1.2 = files w
     ∧ (∀ b, b ≠ default "" (args_bucket args) →
             policies run.1.2 !! b = policies w !! b)
     ∧ (run.1.2 = w
        ∨ ∃ doc, files w !! default "" (args_backup_file args) = Some (Parses doc)
                 ∧ calls run.1.2
                   = calls w ++ [PutBucketPolicy (default "" (args_bucket args))
                                   (Parses doc)]))
  ∧ (args_action args = ActionApply → given (args_template args) = false →
     run.1.2 = w)
  ∧ (args_action args = ActionRemove → given (args_sid args) = false →
     run.1.2 = w).
Proof.
  cbv zeta. unfold main. rewrite get_aws_account_id_run.
  destruct get_caller_identity as [account_id | e].
  2: { split; [done |]. split; [done |].
       split; [intros _; cbn; do 3 (split; [done |]); by left |]. split; done. }
  split; [by intros [? [=]] |].
  destruct (args_action args) eqn:Haction.
  - split; [by intros [[=] | [=]] |]. split; [done |]. split; [| done].
    intros _ ->. cbn [negb].
    by destruct (list_and_select_buckets _ _ _ _ _ _) as [[selected | e | c] rest].
  - split; [by intros [[=] | [=]] |]. split; [done |]. split; [done |].
    intros _ ->. cbn [negb].
    by destruct (list_and_select_buckets _ _ _ _ _ _) as [[selected | e | c] rest].
  - split; [by intros [[=] | [=]] |]. split; [| done].
    intros _. split; [done |]. cbn [fst snd].
    destruct (_ || _); [cbn; do 2 (split; [done |]); by left |].
    unfold bind. rewrite restore_policy_any.
    destruct (files w !! default "" (args_backup_file args)) as [[doc | |] |];
      try (cbn; do 2 (split; [done |]); by left).
    cbv zeta. destruct (next_fault w) as [e |]; cbn.
    + do 2 (split; [done |]). right. eauto.
    + split; [done |]. split; [by intros b Hb; rewrite lookup_insert_ne |].
      right. eauto.
  - split; [| done]. intros _.
    unfold list_policy_templates, ensure_policy_templates_directory, bind, ret.
    by destruct (glob _).
  - split; [| done]. intros _.
    unfold list_policy_backups, ensure_backup_directory, bind, ret.
    by destruct (sort_reverse _).
Qed.


End script.


(** ** The listing of the backups *)

Lemma ascii_compare_refl (c : ascii) : Ascii.compare c c = Eq.
Proof. unfold Ascii.compare. apply N.compare_refl. Qed.

Lemma string_compare_cons (c d : ascii) (s t : string) :
  String.compare (String c s) (String d t)
  = and_then (Ascii.compare c d) (String.compare s t).
Proof. cbn [String.compare]. by destruct (Ascii.compare c d). Qed.

Lemma string_compare_refl (s : string) : String.compare s s = Eq.
Proof.
  induction s as [| c s IH]; [done |].
  by rewrite string_compare_cons, ascii_compare_refl.
Qed.

Lemma compare_append_head (p s t : string) :
  String.compare (p +:+ s) (p +:+ t) = String.compare s t.
Proof.
  induction p as [| c p IH]; push_append; [done |].
  by rewrite string_compare_cons, ascii_compare_refl.
Qed.

Lemma compare_append_tail (s t u : string) :
  String.length s = String.length t →
  String.compare (s +:+ u) (t +:+ u) = String.compare s t.
Proof.
  revert t. induction s as [| c s IH]; intros [| d t] Hlen; try done; push_append.
  - apply string_compare_refl.
  - rewrite !string_compare_cons, IH; [done |]. cbn in Hlen. lia.
Qed.

Lemma compare_digit (a b : nat) :
  Ascii.compare (digit a) (digit b) = (a mod 10 ?= b mod 10).
Proof.
  unfold Ascii.compare, digit.
  pose proof (Nat.mod_upper_bound a 10). pose proof (Nat.mod_upper_bound b 10).
  assert (∀ k, k < 256 → N_of_ascii (ascii_of_nat k) = N.of_nat k) as Hcode.
  { intros k Hk. rewrite <- (nat_ascii_embedding k Hk) at 2.
    unfold nat_of_ascii. by rewrite N2Nat.id. }
  rewrite !Hcode by lia. rewrite <- Nat2N.inj_compare.
  destruct (Nat.compare_spec (a mod 10) (b mod 10));
    [apply Nat.compare_eq_iff | apply Nat.compare_lt_iff | apply Nat.compare_gt_iff];
    lia.
Qed.

Lemma and_then_compare (a b a' b' n m : nat) :
  b < 10 → b' < 10 → n = 10 * a + b → m = 10 * a' + b' →
  and_then (a ?= a') (b ?= b') = (n ?= m).
Proof.
  intros Hb Hb' -> ->. symmetry.
  destruct (Nat.compare_spec a a'); cbn.
  - subst. destruct (Nat.compare_spec b b');
      [apply Nat.compare_eq_iff | apply Nat.compare_lt_iff | apply Nat.compare_gt_iff];
      lia.
  - apply Nat.compare_lt_iff. lia.
  - apply Nat.compare_gt_iff. lia.
Qed.

Lemma and_then_assoc (a b c : comparison) :
  and_then (and_then a b) c = and_then a (and_then b c).
Proof. by destruct a. Qed.

Lemma compare_pad2 (n m : nat) (s t : string) :
  n < 100 → m < 100 →
  String.compare (pad2 n +:+ s) (pad2 m +:+ t)
  = and_then (n ?= m) (String.compare s t).
Proof.
  intros Hn Hm. unfold pad2. push_append.
  rewrite !string_compare_cons, !compare_digit, <- and_then_assoc.
  f_equal.
  assert (n / 10 < 10) by (apply Nat.Div0.div_lt_upper_bound; lia).
  assert (m / 10 < 10) by (apply Nat.Div0.div_lt_upper_bound; lia).
  rewrite (Nat.mod_small (n / 10)), (Nat.mod_small (m / 10)) by lia.
  apply and_then_compare; try apply Nat.mod_upper_bound; try lia;
    apply Nat.div_mod_eq.
Qed.

Lemma compare_pad4 (n m : nat) (s t : string) :
  n < 10 * 1000 → m < 10 * 1000 →
  String.compare (pad4 n +:+ s) (pad4 m +:+ t)
  = and_then (n ?= m) (String.compare s t).
Proof.
  intros Hn Hm.
  assert (∀ k, k < 10 * 1000 →
            ∃ a b c d, a < 10 ∧ b < 10 ∧ c < 10 ∧ d < 10
                       ∧ (k / 1000) mod 10 = a ∧ (k / 100) mod 10 = b
                       ∧ (k / 10) mod 10 = c ∧ k mod 10 = d
                       ∧ k = 1000 * a + 100 * b + 10 * c + d) as Hdigits.
  { intros k Hk.
    pose proof (Nat.div_mod_eq k 10) as E0.
    pose proof (Nat.div_mod_eq (k / 10) 10) as E1.
    pose proof (Nat.div_mod_eq (k / 100) 10) as E2.
    assert (k / 10 / 10 = k / 100) as D1 by (by rewrite Nat.Div0.div_div).
    assert (k / 100 / 10 = k / 1000) as D2 by (by rewrite Nat.Div0.div_div).
    rewrite D1 in E1. rewrite D2 in E2.
    assert (k / 1000 < 10) by (apply Nat.Div0.div_lt_upper_bound; lia).
    pose proof (Nat.mod_upper_bound k 10).
    pose proof (Nat.mod_upper_bound (k / 10) 10).
    pose proof (Nat.mod_upper_bound (k / 100) 10).
    exists (k / 1000), ((k / 100) mod 10), ((k / 10) mod 10), (k mod 10).
    rewrite (Nat.mod_small (k / 1000)) by lia. repeat split; lia. }
  destruct (Hdigits n Hn) as (a & b & c & d & Ha & Hb & Hc & Hd & E3 & E2 & E1 & E0 & En).
  destruct (Hdigits m Hm)
    as (a' & b' & c' & d' & Ha' & Hb' & Hc' & Hd' & E3' & E2' & E1' & E0' & Em).
  unfold pad4, pad2. push_append.
  rewrite !string_compare_cons, !compare_digit.
  rewrite E3, E2, E1, E0, E3', E2', E1', E0'.
  rewrite <- !and_then_assoc. f_equal.
  rewrite (and_then_compare a b a' b' (10 * a + b) (10 * a' + b')) by lia.
  rewrite (and_then_compare (10 * a + b) c (10 * a' + b') c'
             (10 * (10 * a + b) + c) (10 * (10 * a' + b') + c')) by lia.
  apply and_then_compare; lia.
Qed.

Lemma compare_strftime (t1 t2 : datetime) :
  datetime_valid t1 → datetime_valid t2 →
  String.compare (strftime t1) (strftime t2) = compare_time t1 t2.
Proof.
  intros (Hy1 & Hm1 & Hd1 & Hh1 & Hmi1 & Hs1) (Hy2 & Hm2 & Hd2 & Hh2 & Hmi2 & Hs2).
  unfold strftime, compare_time.
  rewrite compare_pad4 by lia. rewrite !compare_pad2 by lia.
  push_append. rewrite string_compare_cons, ascii_compare_refl. cbn [and_then].
  rewrite !compare_pad2 by lia.
  rewrite <- (append_empty_r (pad2 (second t1))), <- (append_empty_r (pad2 (second t2))).
  rewrite compare_pad2 by lia. cbn [String.compare].
  by destruct (second t1 ?= second t2).
Qed.

(** The path of a backup: what comes before the time stamp depends on
    the account and the bucket only. *)
Lemma backup_path_stamp (account_id bucket_name : string) :
  ∃ before, ∀ now,
    backup_path account_id bucket_name now = before +:+ strftime now +:+ ".json".
Proof.
  assert (∀ now, String.prefix "/" (backup_filename bucket_name (strftime now))
                 = false) as Hrel.
  { intros now. unfold backup_filename. push_append. by rewrite prefix_cons. }
  unfold backup_path, path_join, backup_filename in *.
  destruct (_ || _) eqn:E.
  - exists (("policy_backups_" +:+ account_id) +:+ "bucket_policy_backup_"
            +:+ bucket_name +:+ "_").
    intros now. rewrite Hrel. by rewrite !append_assoc.
  - exists (("policy_backups_" +:+ account_id) +:+ "/" +:+ "bucket_policy_backup_"
            +:+ bucket_name +:+ "_").
    intros now. rewrite Hrel. by rewrite !append_assoc.
Qed.

Lemma compare_backup_path (account_id bucket_name : string) (t1 t2 : datetime) :
  datetime_valid t1 → datetime_valid t2 →
  String.compare (backup_path account_id bucket_name t1)
    (backup_path account_id bucket_name t2)
  = compare_time t1 t2.
Proof.
  intros Hv1 Hv2. destruct (backup_path_stamp account_id bucket_name) as [before H].
  rewrite !H, compare_append_head, compare_append_tail.
  - by apply compare_strftime.
  - by rewrite !strftime_length.
Qed.

Lemma compare_time_antisym (t1 t2 : datetime) :
  compare_time t2 t1 = CompOpp (compare_time t1 t2).
Proof.
  unfold compare_time.
  rewrite (Nat.compare_antisym (year t1)), (Nat.compare_antisym (month t1)),
    (Nat.compare_antisym (day t1)), (Nat.compare_antisym (hour t1)),
    (Nat.compare_antisym (minute t1)), (Nat.compare_antisym (second t1)).
  by repeat (destruct (_ ?= _); cbn; try done).
Qed.

(** One step of the sort, on the paths of backups of one bucket. *)
Lemma insert_reverse_backups (account_id bucket_name : string) (t : datetime)
    (sorted : list datetime) :
  datetime_valid t →
  Forall datetime_valid sorted →
  Sorted no_earlier sorted →
  ∃ sorted',
    insert_reverse (backup_path account_id bucket_name t)
      (backup_path account_id bucket_name <$> sorted)
    = backup_path account_id bucket_name <$> sorted'
    ∧ sorted' ≡ₚ t :: sorted
    ∧ Sorted no_earlier sorted'
    ∧ (∀ t', HdRel no_earlier t' sorted → no_earlier t' t →
             HdRel no_earlier t' sorted').
Proof.
  intros Hv Hvalid Hsorted.
  induction sorted as [| t0 sorted IH].
  - exists [t]. cbn. repeat split; try done.
    + by repeat constructor.
    + intros t' _ Ht'. by constructor.
  - apply Forall_cons in Hvalid as [Hv0 Hvalid].
    apply Sorted_inv in Hsorted as [Hsorted Hhd].
    cbn [fmap list_fmap insert_reverse]. unfold String.leb.
    rewrite (compare_backup_path _ _ t0 t Hv0 Hv).
    destruct (compare_time t0 t) eqn:Horder.
    + exists (t :: t0 :: sorted). repeat split; try done.
      * constructor; [by constructor |]. constructor. unfold no_earlier.
        rewrite compare_time_antisym, Horder. done.
      * intros t' _ Ht'. by constructor.
    + exists (t :: t0 :: sorted). repeat split; try done.
      * constructor; [by constructor |]. constructor. unfold no_earlier.
        rewrite compare_time_antisym, Horder. done.
      * intros t' _ Ht'. by constructor.
    + destruct (IH Hvalid Hsorted) as (sorted' & Heq & Hperm & Hsorted' & Hhead).
      exists (t0 :: sorted'). split; [| split; [| split]].
      * cbn [fmap list_fmap] in *. by rewrite Heq.
      * rewrite Hperm. apply Permutation_swap.
      * constructor; [done |]. apply Hhead; [done |].
        unfold no_earlier. by rewrite Horder.
      * intros t' Ht' _. apply HdRel_inv in Ht'. by constructor.
Qed.

Lemma sort_reverse_backups (account_id bucket_name : string) (times : list datetime) :
  Forall datetime_valid times →
  ∃ sorted,
    sort_reverse (backup_path account_id bucket_name <$> times)
    = backup_path account_id bucket_name <$> sorted
    ∧ sorted ≡ₚ times
    ∧ Sorted no_earlier sorted.
Proof.
  induction 1 as [| t times Hv Hvalid (sorted & Heq & Hperm & Hsorted)].
  - exists []. by repeat split.
  - assert (Forall datetime_valid sorted) as Hvalid'
      by (by rewrite Hperm).
    destruct (insert_reverse_backups account_id bucket_name t sorted Hv Hvalid'
                Hsorted) as (sorted' & Heq' & Hperm' & Hsorted' & _).
    exists sorted'. split; [| split; [| done]].
    + cbn [fmap list_fmap sort_reverse foldr] in *.
      unfold sort_reverse in Heq. by rewrite Heq.
    + by rewrite Hperm', Hperm.
Qed.

(** X13.  The latest backup comes first.  When the files that match the
    pattern of a bucket are backups of that bucket, taken at the times
    [times], [list_policy_backups] gives for that bucket all of these
    files, each as often as [glob] gave it, in an order in which no file
    is older than the one after it; it gives [None] when there is none,
    and changes nothing.  The order is that of the paths as strings: it
    is the order of the times because the fields of the time stamp have
    a fixed width. *)
Theorem backups_listed_latest_first
    (glob : string → list string) (account_id bucket_name : string)
    (times : list datetime) (w : world) :
  bucket_name ≠ "" →
  glob (path_join ("policy_backups_" +:+ account_id)
          ("bucket_policy_backup_" +:+ bucket_name +:+ "_*.json"))
  = backup_path account_id bucket_name <$> times →
  Forall datetime_valid times →
  ∃ sorted,
    list_policy_backups glob account_id (Some bucket_name) w
    = (Ret (match sorted with
            | [] => None
            | _ => Some (backup_path account_id bucket_name <$> sorted)
            end), w)
    ∧ sorted ≡ₚ times
    ∧ Sorted no_earlier sorted.
Proof.
  intros Hname Hglob Hvalid.
  destruct (sort_reverse_backups account_id bucket_name times Hvalid)
    as (sorted & Heq & Hperm & Hsorted).
  exists sorted. split; [| done].
  unfold list_policy_backups, ensure_backup_directory, bind, ret. cbn [given].
  apply String.eqb_neq in Hname. rewrite Hname. cbn [negb default].
  unfold id. rewrite Hglob, Heq. by destruct sorted.
Qed.


(** ** More of the theorems at work *)

Lemma unlisted_buckets_untouched_witness :
  let w := sample_world
             [("logs", Parses (policy_of [deny_delete "arn:aws:s3:::logs/*"]));
              ("my-bucket", Parses (policy_of [deny_delete "arn:aws:s3:::my-bucket/*"]))]
             [] in
  let applied := (apply_policy ["my-bucket"] "read" true "123456789012" w).2 in
  let removed := (remove_policy ["my-bucket"] "DenyDelete" w).2 in
  policies applied !! "logs" = policies w !! "logs"
  ∧ policies removed !! "logs" = policies w !! "logs"
  ∧ (∃ new, calls applied = calls w ++ new ∧ Forall (λ c, bucket_of c ≠ "logs") new)
  ∧ (∃ new, calls removed = calls w ++ new ∧ Forall (λ c, bucket_of c ≠ "logs") new).
Proof.
  intros w.
  apply (unlisted_buckets_untouched ["my-bucket"] "read" true "123456789012"
           "DenyDelete" "logs" w).
  intros Hin. apply list_elem_of_singleton in Hin. discriminate.
Defined.

Lemma failed_fetch_changes_nothing_witness :
  let w := sample_world
             [("my-bucket", Parses (policy_of [deny_delete "arn:aws:s3:::my-bucket/*"]))]
             [Some (ClientError "AccessDenied")] in
  let w1 := issue (GetBucketPolicy "my-bucket") w in
  apply_policy ["my-bucket"] "read" true "123456789012" w
  = (Ret (<["my-bucket" := Failed (ClientError "AccessDenied")]> ∅), w1)
  ∧ remove_policy ["my-bucket"] "DenyDelete" w
    = (Ret (<["my-bucket" := Failed (ClientError "AccessDenied")]> ∅), w1)
  ∧ policies w1 = policies w
  ∧ files w1 = files w.
Proof.
  intros w w1.
  apply (failed_fetch_changes_nothing "read" true "123456789012" "DenyDelete"
           "my-bucket" (ClientError "AccessDenied") w).
  left. split; reflexivity.
Defined.

Lemma apply_appends_statements_witness :
  let stmts := [deny_delete "arn:aws:s3:::my-bucket/*"] in
  let more := [allow_read "arn:aws:s3:::my-bucket/*"] in
  let w := sample_world [("my-bucket", Parses (policy_of stmts))] [] in
  let final := with_statements (policy_of stmts) (stmts ++ more) in
  let path := backup_path "123456789012" "my-bucket" (clock w (ticks w)) in
  ∃ results w',
    apply_policy ["my-bucket"] "read" true "123456789012" w = (Ret results, w')
    ∧ results !! "my-bucket" = Some (Applied (if true then Some path else None))
    ∧ policies w' = <["my-bucket" := Parses final]> (policies w)
    ∧ calls w' = calls w ++ [GetBucketPolicy "my-bucket";
                             PutBucketPolicy "my-bucket" (Parses final)]
    ∧ statements_of final = Some (stmts ++ more)
    ∧ statement_count w' "my-bucket" = Some (length stmts + length more)
    ∧ (∀ k, k ≠ "Statement" → subscript final k = subscript (policy_of stmts) k).
Proof.
  intros stmts more w.
  apply (apply_appends_statements "read" true "123456789012" "my-bucket"
           read_template (policy_of stmts) (JStr "AllowRead") stmts more w).
  - reflexivity.
  - vm_compute. reflexivity.
  - vm_compute. reflexivity.
  - reflexivity.
  - repeat constructor.
  - vm_compute. reflexivity.
  - vm_compute. reflexivity.
  - vm_compute. reflexivity.
Defined.

Lemma apply_to_empty_uploads_template_witness :
  let w := sample_world [] [] in
  let new := replace_placeholders "my-bucket" read_template in
  apply_policy ["my-bucket"] "read" true "123456789012" w
  = (Ret (<["my-bucket" := Applied None]> ∅),
     set_policies (insert "my-bucket" (Parses new))
       (issue (PutBucketPolicy "my-bucket" (Parses new))
          (issue (GetBucketPolicy "my-bucket") w)))
  ∧ files (apply_policy ["my-bucket"] "read" true "123456789012" w).2 = files w.
Proof.
  intros w.
  apply (apply_to_empty_uploads_template "read" true "123456789012" "my-bucket"
           read_template w).
  - reflexivity.
  - vm_compute. reflexivity.
  - left. vm_compute. reflexivity.
Defined.

Lemma apply_without_template_changes_nothing_witness :
  let w := sample_world
             [("my-bucket", Parses (policy_of [deny_delete "arn:aws:s3:::my-bucket/*"]))]
             [] in
  let run := apply_policy ["my-bucket"; "logs"] "missing" true "123456789012" w in
  policies run.2 = policies w
  ∧ (∃ new, calls run.2 = calls w ++ new ∧ Forall (λ c, is_write c = false) new)
  ∧ (run.1 = Exit 1
     ∨ ∃ results, run.1 = Ret results
                  ∧ ∀ b r, results !! b = Some r → status_of r = error)
  ∧ (files w !! template_path "missing" ≠ Some Undecodable →
     ∀ b rest, ["my-bucket"; "logs"] = b :: rest → (∀ e, ¬ fetch_fails w b e) →
               run.1 = Exit 1 ∧ calls run.2 = calls w ++ [GetBucketPolicy b])
  ∧ (files w !! template_path "missing" = Some Undecodable →
     (∃ results, run.1 = Ret results
                 ∧ ∀ b, b ∈ ["my-bucket"; "logs"] → ∃ e, results !! b = Some (Failed e))
     ∧ calls run.2 = calls w ++ map GetBucketPolicy ["my-bucket"; "logs"]).
Proof.
  intros w.
  apply (apply_without_template_changes_nothing ["my-bucket"; "logs"] "missing"
           true "123456789012" w).
  intros template. vm_compute. discriminate.
Defined.

(** A template whose bytes are no text: the loader raises for every
    bucket, and the run returns an error for each. *)
Example undecodable_template_fails_each_bucket :
  let w := set_files (insert "policy_templates/bytes.json" Undecodable)
             (sample_world
                [("my-bucket",
                  Parses (policy_of [deny_delete "arn:aws:s3:::my-bucket/*"]))]
                []) in
  let run := apply_policy ["my-bucket"; "logs"] "bytes" false "123456789012" w in
  ∃ results,
    run.1 = Ret results
    ∧ results !! "my-bucket" = Some (Failed UnicodeDecodeError)
    ∧ results !! "logs" = Some (Failed UnicodeDecodeError)
    ∧ policies run.2 = policies w.
Proof.
  eexists. split; [vm_compute; reflexivity |].
  repeat split; vm_compute; reflexivity.
Qed.


(** The requests of the run above: the first fetch is denied, the second
    bucket's policy is no JSON, and the third bucket is fetched and
    written all the same. *)
Example isolation_in_the_requests :
  let w := sample_world
             [("logs", Parses (policy_of [deny_delete "arn:aws:s3:::logs/*"]));
              ("media", Unparsable);
              ("site", Parses (policy_of [deny_delete "arn:aws:s3:::site/*"]))]
             [Some (ClientError "AccessDenied")] in
  let run := apply_policy ["logs"; "media"; "site"] "read" false "123456789012" w in
  calls run.2
  = [GetBucketPolicy "logs"; GetBucketPolicy "media"; GetBucketPolicy "site";
     PutBucketPolicy "site"
       (Parses (policy_of [deny_delete "arn:aws:s3:::site/*";
                           allow_read "arn:aws:s3:::site/*"]))]
  ∧ stored_policy run.2 "site"
    = Some (policy_of [deny_delete "arn:aws:s3:::site/*";
                       allow_read "arn:aws:s3:::site/*"]).
Proof. split; vm_compute; reflexivity. Qed.

Lemma remove_twice_skips_witness :
  let w := sample_world
             [("my-bucket",
               Parses (policy_of [allow_read "arn:aws:s3:::my-bucket/*";
                                  deny_delete "arn:aws:s3:::my-bucket/*"]))]
             [] in
  ∃ results1 w1 results2 w2,
    remove_policy ["logs"; "my-bucket"] "AllowRead" w = (Ret results1, w1)
    ∧ (∀ b, b ∈ ["logs"; "my-bucket"] → free_of "AllowRead" w1 b = true)
    ∧ remove_policy ["logs"; "my-bucket"] "AllowRead" w1 = (Ret results2, w2)
    ∧ policies w2 = policies w1
    ∧ calls w2 = calls w1 ++ map GetBucketPolicy ["logs"; "my-bucket"]
    ∧ ∀ b, b ∈ ["logs"; "my-bucket"] → ∃ reason, results2 !! b = Some (Skipped reason).
Proof.
  intros w.
  apply (remove_twice_skips ["logs"; "my-bucket"] "AllowRead" w).
  - reflexivity.
  - intros b Hb. apply elem_of_cons in Hb as [-> | Hb]; [vm_compute; reflexivity |].
    apply list_elem_of_singleton in Hb as ->. vm_compute. reflexivity.
Defined.

Lemma remove_undoes_apply_witness :
  let w := sample_world
             [("my-bucket", Parses (policy_of [deny_delete "arn:aws:s3:::my-bucket/*"]))]
             [] in
  ∃ backup_file w1 w2,
    apply_policy ["my-bucket"] "read" true "123456789012" w
    = (Ret (<["my-bucket" := Applied backup_file]> ∅), w1)
    ∧ remove_policy ["my-bucket"] "AllowRead" w1
      = (Ret (<["my-bucket" := Succeeded]> ∅), w2)
    ∧ policies w2 = policies w.
Proof.
  intros w.
  apply (remove_undoes_apply "read" true "123456789012" "AllowRead" "my-bucket"
           read_template (allow_read "arn:aws:s3:::my-bucket/*") [] w).
  - reflexivity.
  - vm_compute. reflexivity.
  - vm_compute. reflexivity.
  - reflexivity.
  - vm_compute. reflexivity.
  - right. exists (policy_of [deny_delete "arn:aws:s3:::my-bucket/*"]),
      [deny_delete "arn:aws:s3:::my-bucket/*"].
    split; [vm_compute; reflexivity |]. split; [reflexivity |].
    split; [discriminate |]. split; [reflexivity | vm_compute; reflexivity].
Defined.

Lemma backup_path_injective_witness :
  "my-bucket" = "my-bucket" ∧ sample_time = sample_time.
Proof.
  apply (backup_path_injective "123456789012" "my-bucket" "my-bucket"
           sample_time sample_time).
  - unfold datetime_valid. cbn. lia.
  - unfold datetime_valid. cbn. lia.
  - reflexivity.
Defined.


Lemma backups_listed_latest_first_witness :
  let later := {| year := 2024; month := 11; day := 2;
                  hour := 8; minute := 15; second := 0 |} in
  let found := backup_path "123456789012" "my-bucket" <$> [sample_time; later] in
  ∃ sorted,
    list_policy_backups (λ _, found) "123456789012" (Some "my-bucket")
      (sample_world [] [])
    = (Ret (match sorted with
            | [] => None
            | _ => Some (backup_path "123456789012" "my-bucket" <$> sorted)
            end), sample_world [] [])
    ∧ sorted ≡ₚ [sample_time; later]
    ∧ Sorted no_earlier sorted.
Proof.
  intros later found.
  apply (backups_listed_latest_first (λ _, found) "123456789012" "my-bucket"
           [sample_time; later] (sample_world [] [])).
  - discriminate.
  - reflexivity.
  - apply Forall_cons. split; [unfold datetime_valid; cbn; lia |].
    apply Forall_cons. split; [unfold datetime_valid; cbn; lia |].
    apply Forall_nil_2.
Defined.

(** The listing of the two backups above, as it is computed. *)
Example latest_backup_first :
  (list_policy_backups
     (λ _, ["policy_backups_123456789012/bucket_policy_backup_my-bucket_20240309_170430.json";
            "policy_backups_123456789012/bucket_policy_backup_my-bucket_20241102_081500.json"])
     "123456789012" (Some "my-bucket") (sample_world [] [])).1
  = Ret (Some ["policy_backups_123456789012/bucket_policy_backup_my-bucket_20241102_081500.json";
               "policy_backups_123456789012/bucket_policy_backup_my-bucket_20240309_170430.json"]).
Proof. vm_compute. reflexivity. Qed.

(** A selection: a number out of range is passed over, an answer other
    than [y] asks again. *)
Example selection_at_work :
  list_and_select_buckets ascii_strip ascii_lower split_commas decimal
    (Val ["logs"; "my-bucket"; "site"]) ["3, 9 ,1"; "n"; "x"; " ALL "; "left"]
  = (Ret ["logs"; "my-bucket"; "site"], ["left"])
  ∧ list_and_select_buckets ascii_strip ascii_lower split_commas decimal
      (Val ["logs"; "my-bucket"; "site"]) ["3, 9 ,1"; "Y"; "left"]
    = (Ret ["site"; "logs"], ["left"]).
Proof. split; vm_compute; reflexivity. Qed.
